(** * The per-frame molecular-orbital pipeline of qmworks-namd

    A shallow embedding of [nanoqm/schedule/components.py] (module [Nanoqm])
    and of its predecessor [nac/schedule/components.py] (module [Nac]),
    together with the properties of the per-frame job pipeline; and, with
    their properties, of [ask_question] of [plot_coupling.py] and of
    [test_mypy] of [test/test_mypy.py].

    Python objects are modelled as follows.
    - [int] is [Z]; [str] is [string]; a list is a [list]; [None] is the
      [None] of an [option].
    - An exception is a value of [Exn]; code that may raise runs in the
      monad [M S], which threads a state [S] and keeps the effects made
      before the exception was raised.
    - The HDF5 file is a finite map from node paths to data.
    - The file system is an ordered association list from resolved paths
      to nodes; the order is the order in which [os.listdir] enumerates.
    - A noodles [PromisedObject] is a term of [Promise]: the recipe of a
      job, or its value once the engine has resolved it. *)

From Stdlib Require Import ZArith List String Ascii Bool Lia QArith FinFun.
From Stdlib Require Import DecimalString DecimalPos DecimalZ.
From stdpp Require Import gmap strings.
Import ListNotations.
Open Scope Z_scope.

(** ** Exceptions and the state-and-exception monad *)

Inductive Exn :=
| IndexError
| TypeError
| ValueError
| KeyError
| AttributeError
| FileNotFoundError
| NotADirectoryError
| IsADirectoryError
| FileExistsError
| RecursionError
| SolverFailure.

Definition M (S A : Type) : Type := S -> (Exn + A) * S.

Definition ret {S A} (a : A) : M S A := fun s => (inr a, s).

Definition raise {S A} (e : Exn) : M S A := fun s => (inl e, s).

Definition bind {S A B} (m : M S A) (k : A -> M S B) : M S B :=
  fun s => match m s with
           | (inr a, s') => k a s'
           | (inl e, s') => (inl e, s')
           end.

Definition get {S} : M S S := fun s => (inr s, s).

Definition modify {S} (f : S -> S) : M S unit := fun s => (inr tt, f s).

Declare Scope py_scope.
Delimit Scope py_scope with py.
Notation "x <- m ;; k" := (bind m (fun x => k))
  (at level 100, m at next level, right associativity) : py_scope.
Notation "m ;;; k" := (bind m (fun _ => k))
  (at level 100, right associativity) : py_scope.
Open Scope py_scope.

(** [try: body finally: cleanup].  The cleanup always runs; an exception of
    the cleanup replaces the outcome of the body, otherwise the outcome of
    the body (value or exception) is passed on. *)
Definition try_finally {S A} (body : M S A) (cleanup : M S unit) : M S A :=
  fun s => match body s with
           | (r, s') => match cleanup s' with
                        | (inr _, s'') => (r, s'')
                        | (inl e, s'') => (inl e, s'')
                        end
           end.

(** [for x in xs: acc = body(acc, x)], the loop-carried locals in [acc]. *)
Fixpoint for_each {S A X} (xs : list X) (body : A -> X -> M S A) (acc : A) : M S A :=
  match xs with
  | [] => ret acc
  | x :: xs' => acc' <- body acc x ;; for_each xs' body acc'
  end.

(** [enumerate(xs)] *)
Fixpoint enumerate_at {X} (j : Z) (xs : list X) : list (Z * X) :=
  match xs with
  | [] => []
  | x :: xs' => (j, x) :: enumerate_at (j + 1) xs'
  end.

Definition enumerate {X} (xs : list X) : list (Z * X) := enumerate_at 0 xs.

(** [xs[j]] for a list [xs]; a negative index counts from the end. *)
Definition getitem {X} (xs : list X) (j : Z) : Exn + X :=
  let i := if j <? 0 then j + Z.of_nat (length xs) else j in
  if i <? 0 then inl IndexError
  else match nth_error xs (Z.to_nat i) with
       | Some x => inr x
       | None => inl IndexError
       end.

Definition lift_exn {S A} (r : Exn + A) : M S A :=
  match r with
  | inl e => raise e
  | inr a => ret a
  end.

(** [range(lo, hi)] *)
Definition range (lo hi : Z) : list Z :=
  map (fun i => lo + Z.of_nat i) (seq 0 (Z.to_nat (hi - lo))).

(** ** Strings: [str(int)] and [os.path.join] *)

(** [str(k)], as used by the f-strings [f'point_{k}']. *)
Definition str_of_int (k : Z) : string := NilZero.string_of_int (Z.to_int k).

Definition sep : ascii := "/"%char.

Definition startswith_sep (b : string) : bool :=
  match b with
  | String c _ => Ascii.eqb c sep
  | EmptyString => false
  end.

Fixpoint endswith_sep (s : string) : bool :=
  match s with
  | EmptyString => false
  | String c EmptyString => Ascii.eqb c sep
  | String _ s' => endswith_sep s'
  end.

Definition is_empty (s : string) : bool :=
  match s with
  | EmptyString => true
  | _ => false
  end.

(** One step of the loop of [posixpath.join]. *)
Definition join_step (path b : string) : string :=
  if startswith_sep b then b
  else if is_empty path || endswith_sep path then path +:+ b
  else path +:+ "/" +:+ b.

(** [os.path.join(a, *p)] *)
Definition join (a : string) (p : list string) : string := fold_left join_step p a.

(** ** The HDF5 file *)

Inductive Data :=
| Scalar (x : Q)
| Vector (xs : list Q)
| Matrix (xss : list (list Q)).

(** [path in f5] *)
Definition in_hdf5 (f5 : gmap string Data) (path : string) : bool :=
  bool_decide (is_Some (f5 !! path)).

(** The argument of the existence check: one node path or a list of them. *)
Inductive KeyOrKeys :=
| OneKey (path : string)
| ManyKeys (paths : list string).

(** Modelled from the spec: [is_data_in_hdf5] of [nanoqm.common] is not part
    of the sources; the store contract says that the check is true iff
    every key of the (possibly composite) key set is present. *)
Definition is_data_in_hdf5 (f5 : gmap string Data) (xs : KeyOrKeys) : bool :=
  match xs with
  | OneKey path => in_hdf5 f5 path
  | ManyKeys paths => forallb (in_hdf5 f5) paths
  end.

(** ** The file system seen through [os] and [shutil] *)

Module os.

Inductive Node :=
| File (content : string)
| Dir.

(** A resolved path: the names from the root.  Relative paths are resolved
    from the root; [..] and symbolic links are not modelled. *)
Definition Path : Type := list string.

Definition FS : Type := list (Path * Node).

(** [s.split('/')] *)
Fixpoint split_sep (s : string) : list string :=
  match s with
  | EmptyString => [EmptyString]
  | String c s' =>
      if Ascii.eqb c sep then EmptyString :: split_sep s'
      else match split_sep s' with
           | [] => [String c EmptyString]
           | x :: xs => String c x :: xs
           end
  end.

Definition is_name (c : string) : bool :=
  negb (String.eqb c "") && negb (String.eqb c ".").

Definition resolve (p : string) : Path := List.filter is_name (split_sep p).

Fixpoint path_eqb (p q : Path) : bool :=
  match p, q with
  | [], [] => true
  | x :: p', y :: q' => String.eqb x y && path_eqb p' q'
  | _, _ => false
  end.

(** [under d q]: [q] is [d] or lies below it. *)
Fixpoint under (d q : Path) : bool :=
  match d, q with
  | [], _ => true
  | x :: d', y :: q' => String.eqb x y && under d' q'
  | _ :: _, [] => false
  end.

Fixpoint find_node (fs : FS) (p : Path) : option Node :=
  match fs with
  | [] => None
  | (q, n) :: fs' => if path_eqb q p then Some n else find_node fs' p
  end.

(** The root always exists and is a directory. *)
Definition stat (fs : FS) (p : Path) : option Node :=
  match p with
  | [] => Some Dir
  | _ => find_node fs p
  end.

(** The proper, non-root ancestors of a path, outermost first. *)
Fixpoint ancestors (p : Path) : list Path :=
  match p with
  | [] => []
  | x :: p' => match p' with
               | [] => []
               | _ => [x] :: map (cons x) (ancestors p')
               end
  end.

Definition is_file (fs : FS) (p : Path) : bool :=
  match stat fs p with
  | Some (File _) => true
  | _ => false
  end.

Definition missing (fs : FS) (p : Path) : bool :=
  match stat fs p with
  | None => true
  | Some _ => false
  end.

(** The name of [q] when [q] is an entry of the directory [d]. *)
Fixpoint child_name (d q : Path) : option string :=
  match d, q with
  | [], [name] => Some name
  | x :: d', y :: q' => if String.eqb x y then child_name d' q' else None
  | _, _ => None
  end.

Module path.

(** [os.path.exists(p)] *)
Definition exists_ (p : string) : M FS bool :=
  fun fs => (inr (negb (missing fs (resolve p))), fs).

End path.

(** [os.listdir(d)]: the entries of [d] in enumeration order. *)
Definition listdir (d : string) : M FS (list string) :=
  fun fs => match stat fs (resolve d) with
            | None => (inl FileNotFoundError, fs)
            | Some (File _) => (inl NotADirectoryError, fs)
            | Some Dir => (inr (omap (fun e => child_name (resolve d) (fst e)) fs), fs)
            end.

(** [os.remove(p)] *)
Definition remove (p : string) : M FS unit :=
  fun fs => match stat fs (resolve p) with
            | None => (inl FileNotFoundError, fs)
            | Some Dir => (inl IsADirectoryError, fs)
            | Some (File _) =>
                (inr tt, List.filter (fun e => negb (path_eqb (fst e) (resolve p))) fs)
            end.

(** [os.makedirs(p)]: creates [p] and the ancestors that are missing. *)
Definition makedirs (p : string) : M FS unit :=
  fun fs =>
    let q := resolve p in
    if negb (missing fs q) then (inl FileExistsError, fs)
    else if existsb (is_file fs) (ancestors q) then (inl NotADirectoryError, fs)
    else (inr tt,
          fs ++ map (fun a => (a, Dir)) (List.filter (missing fs) (ancestors q))
             ++ [(q, Dir)]).

End os.

Module shutil.

(** [shutil.rmtree(p)]: removes the directory [p] and all that lies below. *)
Definition rmtree (p : string) : M os.FS unit :=
  fun fs => match os.stat fs (os.resolve p) with
            | None => (inl FileNotFoundError, fs)
            | Some (os.File _) => (inl NotADirectoryError, fs)
            | Some os.Dir =>
                (inr tt, List.filter (fun e => negb (os.under (os.resolve p) (fst e))) fs)
            end.

End shutil.

Module fnmatch.

(** The suffixes of a string, the whole string first. *)
Fixpoint suffixes (s : string) : list string :=
  s :: match s with
       | EmptyString => []
       | String _ s' => suffixes s'
       end.

(** [fnmatch.fnmatchcase(name, pat)] for patterns made of literal characters,
    [*] and [?] (the patterns of this program have no bracket class). *)
Fixpoint fnmatchcase (pat name : string) : bool :=
  match pat with
  | EmptyString => is_empty name
  | String c pat' =>
      if Ascii.eqb c "*" then existsb (fnmatchcase pat') (suffixes name)
      else match name with
           | EmptyString => false
           | String d name' =>
               (Ascii.eqb c "?" || Ascii.eqb c d) && fnmatchcase pat' name'
           end
  end.

(** [fnmatch.filter(names, pat)] on a POSIX system. *)
Definition filter (names : list string) (pat : string) : list string :=
  List.filter (fnmatchcase pat) names.

End fnmatch.

(** ** Text: lines of a file, [str.split], [int] *)

Module builtins.

(** [c.isspace()] for a character [c] below 256. *)
Definition isspace (c : ascii) : bool :=
  let n := nat_of_ascii c in
  ((9 <=? n) && (n <=? 13) || (28 <=? n) && (n <=? 32)
   || (n =? 133) || (n =? 160))%nat.

(** [s.split()]: the maximal runs of characters that are not whitespace. *)
Fixpoint str_split (s : string) : list string :=
  match s with
  | EmptyString => []
  | String c s' =>
      if isspace c then str_split s'
      else match str_split s' with
           | w :: ws =>
               match s' with
               | String c' _ =>
                   if isspace c' then String c EmptyString :: w :: ws
                   else String c w :: ws
               | EmptyString => [String c EmptyString]
               end
           | [] => [String c EmptyString]
           end
  end.

(** The whitespace [int] skips around a numeral: for a character below 256,
    the whitespace of C and the two whitespace characters above 127. *)
Definition isspace_of_int (c : ascii) : bool :=
  let n := nat_of_ascii c in
  ((9 <=? n) && (n <=? 13) || (n =? 32) || (n =? 133) || (n =? 160))%nat.

Definition digit_of (c : ascii) : option Z :=
  let n := nat_of_ascii c in
  if ((48 <=? n) && (n <=? 57))%nat then Some (Z.of_nat n - 48) else None.

Fixpoint lstrip (s : string) : string :=
  match s with
  | String c s' => if isspace_of_int c then lstrip s' else s
  | EmptyString => EmptyString
  end.

Fixpoint all_space (s : string) : bool :=
  match s with
  | String c s' => isspace_of_int c && all_space s'
  | EmptyString => true
  end.

(** The digits of a decimal numeral, single underscores between digits
    allowed, whitespace after the last digit skipped.  [after_digit] tells
    whether the character before was a digit. *)
Fixpoint numeral (s : string) (acc : Z) (after_digit : bool) : option Z :=
  match s with
  | EmptyString => if after_digit then Some acc else None
  | String c s' =>
      match digit_of c with
      | Some d => numeral s' (10 * acc + d) true
      | None =>
          if negb after_digit then None
          else if Ascii.eqb c "_" then numeral s' acc false
          else if all_space s then Some acc else None
      end
  end.

(** [int(s)] for a string [s]: optional whitespace, an optional sign, a
    decimal numeral, optional whitespace.  Integers are unbounded; the limit
    that later interpreters put on the number of digits is not modelled. *)
Definition int_of_str (s : string) : Exn + Z :=
  let s := lstrip s in
  let (sign, body) := match s with
                      | String "+" b => (1, b)
                      | String "-" b => (-1, b)
                      | _ => (1, s)
                      end in
  match numeral body 0 false with
  | Some n => inr (sign * n)
  | None => inl ValueError
  end.

Definition LF : ascii := ascii_of_nat 10.
Definition CR : ascii := ascii_of_nat 13.

(** Universal newlines: a file opened as text has [\r\n] and [\r] read as
    [\n]. *)
Fixpoint translate_newlines (s : string) : string :=
  match s with
  | EmptyString => EmptyString
  | String c s' =>
      if Ascii.eqb c CR then
        String LF match s' with
                  | String c' s'' =>
                      if Ascii.eqb c' LF then translate_newlines s''
                      else translate_newlines s'
                  | EmptyString => EmptyString
                  end
      else String c (translate_newlines s')
  end.

(** The lines of a text, each with its end of line. *)
Fixpoint lines (s : string) : list string :=
  match s with
  | EmptyString => []
  | String c s' =>
      if Ascii.eqb c LF then String c EmptyString :: lines s'
      else match lines s' with
           | l :: ls => String c l :: ls
           | [] => [String c EmptyString]
           end
  end.

(** [with open(p) as f: f.readlines()], and the iteration over [f].  The
    content of a file is its text, decoded. *)
Definition open_readlines (p : string) : M os.FS (list string) :=
  fun fs =>
    let q := os.resolve p in
    if existsb (os.is_file fs) (os.ancestors q) then (inl NotADirectoryError, fs)
    else match os.stat fs q with
         | None => (inl FileNotFoundError, fs)
         | Some os.Dir => (inl IsADirectoryError, fs)
         | Some (os.File content) => (inr (lines (translate_newlines content)), fs)
         end.

End builtins.

Module sys.

(** [sys.maxsize] on a 64-bit platform: [2 ** 63 - 1]. *)
Definition maxsize : Z := 9223372036854775807.

End sys.

Module more_itertools.

(** [iter(partial(take, n, it), [])]: [take] is called until it returns the
    empty list.  A list of [m] elements is used up after [m] calls at most. *)
Fixpoint take_chunks {X} (fuel n : nat) (xs : list X) : list (list X) :=
  match fuel with
  | O => []
  | S fuel' =>
      match firstn n xs with
      | [] => []
      | chunk => chunk :: take_chunks fuel' n (skipn n xs)
      end
  end.

(** [list(chunked(xs, n))]: the first call of [take] hands [n] to [islice],
    which refuses an [n] that is negative or above [sys.maxsize]. *)
Definition chunked {X} (xs : list X) (n : Z) : Exn + list (list X) :=
  if (n <? 0) || (sys.maxsize <? n) then inl ValueError
  else inr (take_chunks (S (length xs)) (Z.to_nat n) xs).

End more_itertools.

(** ** [nanoqm/schedule/components.py] *)

Module Nanoqm.

(** [JobFiles]: the four files of a point of the trajectory. *)
Record JobFiles := mkJobFiles {
  get_xyz : string;
  get_inp : string;
  get_out : string;
  get_MO : string }.

(** Modelled from the spec: the warning classes of
    [qmflows.warnings_qmflows] are not part of the sources; the one this
    program names is the SCF non-convergence warning. *)
Inductive Warning :=
| SCF_Convergence_Warning
| Other_Warning (name : string).

Definition is_SCF_Convergence_Warning (w : Warning) : bool :=
  match w with
  | SCF_Convergence_Warning => true
  | Other_Warning _ => false
  end.

(** [InfoMO] of [qmflows.common] *)
Record InfoMO := mkInfoMO {
  eigenVals : list Q;
  coeffs : list (list Q) }.

(** Modelled from the spec: the result class of [qmflows] is not part of the
    sources; a solver invocation yields orbitals, energy, warnings and a
    working directory.  These are the attributes this module reads:
    [.orbitals], [.energy], [.warnings] (a dict from message to warning
    class, or [None]) and [.archive['work_dir']]. *)
Record Result := mkResult {
  orbitals : InfoMO;
  energy : Q;
  warnings : option (list (string * Warning));
  work_dir : string }.

(** A settings object; the cell is the part this module assigns to. *)
Record Settings := mkSettings {
  specific : string;
  cell_parameters : option (list (list Q));
  cell_angles : option (list Q) }.

(** [config.cp2k_general_settings]; [file_cell_parameters] is the path of
    the file of cell parameters, or [None]. *)
Record General := mkGeneral {
  file_cell_parameters : option string;
  cp2k_settings_main : Settings;
  cp2k_settings_guess : Settings }.

(** [dict_input]: the information of the j-th job.  The keys [point_dir],
    [job_files] and [job_name] are set before any function reads them. *)
Record DictInput := mkDictInput {
  geometry : string;
  k : Z;
  node_MOs : list string;
  node_energy : string;
  point_dir : string;
  job_files : JobFiles;
  job_name : string }.

(** A promised object.  [job s d g] is [prepare_job_cp2k(s, d, g)],
    [checked p d] is the scheduled call [schedule_check(p, config, d)], and
    [resolved r] is a promise the engine has already evaluated to [r]. *)
#[warnings="-register-all"]
Inductive Promise :=
| job (settings : Settings) (dict_input : DictInput) (guess_job : option Promise)
| checked (promise_qm : Promise) (dict_input : DictInput)
| resolved (r : Result).

(** An entry of the list [orbitals]: the node paths of a stored point, the
    scheduled call [store_MOs(config, dict_input, promise_qm)], or [None]. *)
Inductive OrbitalItem :=
| node_paths (paths : list string)
| stored_MOs (dict_input : DictInput) (promise_qm : Promise)
| no_orbitals.

(** An entry of the list [energies]: the scheduled call
    [store_enery(config, dict_input, promise_qm)]. *)
Inductive EnergyItem :=
| stored_enery (dict_input : DictInput) (promise_qm : Promise).

(** [config]: the fields this module reads.  [config_compute_orbitals] is
    the entry [compute_orbitals]; the name is taken by the function. *)
Record DictConfig := mkDictConfig {
  geometries : list string;
  project_name : string;
  package_name : string;
  path_hdf5 : string;
  folders : list string;
  calc_new_wf_guess_on_points : option (list Z);
  enumerate_from : Z;
  config_compute_orbitals : bool;
  ignore_warnings : bool;
  cp2k_general_settings : General }.

(** The records of the logger: the level and what the message is built
    from. *)
Inductive Level := INFO | WARNING.

Inductive Message :=
| msg_already_calculated (k : Z)
| msg_scheduled (k : Z)
| msg_total_energy (k : Z) (e : Q)
| msg_finished_with_warnings (job_name : string) (ws : option (list (string * Warning)))
| msg_new_guess
| msg_removing_previous (job_name : string).

(** A solver invocation: the settings, the input and the resolved guess. *)
Record Submission := mkSubmission {
  sub_settings : Settings;
  sub_input : DictInput;
  sub_guess : option Result }.

(** Everything the program reads and changes: the one [config] object, the
    content of the HDF5 file that [config.path_hdf5] names, the disk, the
    calls of [prepare_job_cp2k] so far, the solver invocations so far, and
    the log. *)
Record World := mkWorld {
  config : DictConfig;
  hdf5 : gmap string Data;
  disk : os.FS;
  prepared : list Promise;
  submitted : list Submission;
  logged : list (Level * Message) }.

Definition set_config (c : DictConfig) (w : World) : World :=
  mkWorld c (hdf5 w) (disk w) (prepared w) (submitted w) (logged w).

Definition set_hdf5 (f5 : gmap string Data) (w : World) : World :=
  mkWorld (config w) f5 (disk w) (prepared w) (submitted w) (logged w).

Definition set_disk (fs : os.FS) (w : World) : World :=
  mkWorld (config w) (hdf5 w) fs (prepared w) (submitted w) (logged w).

Definition set_prepared (ps : list Promise) (w : World) : World :=
  mkWorld (config w) (hdf5 w) (disk w) ps (submitted w) (logged w).

Definition set_submitted (ss : list Submission) (w : World) : World :=
  mkWorld (config w) (hdf5 w) (disk w) (prepared w) ss (logged w).

Definition set_logged (ls : list (Level * Message)) (w : World) : World :=
  mkWorld (config w) (hdf5 w) (disk w) (prepared w) (submitted w) ls.

Definition set_general (g : General) (c : DictConfig) : DictConfig :=
  mkDictConfig (geometries c) (project_name c) (package_name c) (path_hdf5 c)
    (folders c) (calc_new_wf_guess_on_points c) (enumerate_from c)
    (config_compute_orbitals c) (ignore_warnings c) g.

Definition set_calc_new_wf_guess_on_points (l : option (list Z)) (c : DictConfig)
  : DictConfig :=
  mkDictConfig (geometries c) (project_name c) (package_name c) (path_hdf5 c)
    (folders c) l (enumerate_from c)
    (config_compute_orbitals c) (ignore_warnings c) (cp2k_general_settings c).

Definition gets {A} (f : World -> A) : M World A := fun w => (inr (f w), w).

(** An action on the disk, run in the world. *)
Definition on_disk {A} (m : M os.FS A) : M World A :=
  fun w => match m (disk w) with
           | (r, fs) => (r, set_disk fs w)
           end.

Definition logger (l : Level) (msg : Message) : M World unit :=
  modify (fun w => set_logged (logged w ++ [(l, msg)]) w).

(** Modelled from the spec: [prepare_job_cp2k(settings, dict_input,
    guess_job)] of [scheduleCP2K] is not part of the sources; it builds the
    deferred computation of one solver invocation from the settings, the
    input and the guess.  The call is recorded in [prepared]. *)
Definition prepare_job_cp2k (s : Settings) (d : DictInput) (g : option Promise)
  : M World Promise :=
  modify (fun w => set_prepared (prepared w ++ [job s d g]) w) ;;;
  ret (job s d g).

Definition create_file_names (work_dir : string) (i : Z) : JobFiles :=
  let file_xyz := join work_dir ["coordinates_" +:+ str_of_int i +:+ ".xyz"] in
  let file_inp := join work_dir ["point_" +:+ str_of_int i +:+ ".inp"] in
  let file_out := join work_dir ["point_" +:+ str_of_int i +:+ ".out"] in
  let file_MO := join work_dir ["mo_coeff_" +:+ str_of_int i +:+ ".out"] in
  mkJobFiles file_xyz file_inp file_out file_MO.

(** [a.reshape(3, 3).tolist()] for a one-dimensional [a]. *)
Definition reshape_3_3 (a : list Q) : Exn + list (list Q) :=
  match a with
  | [a0; a1; a2; a3; a4; a5; a6; a7; a8] =>
      inr [[a0; a1; a2]; [a3; a4; a5]; [a6; a7; a8]]
  | _ => inl ValueError
  end.

Inductive SettingsKey := key_cp2k_settings_main | key_cp2k_settings_guess.

Definition set_cell (key : SettingsKey) (cell : list (list Q)) (g : General) : General :=
  let upd s := mkSettings (specific s) (Some cell) None in
  match key with
  | key_cp2k_settings_main =>
      mkGeneral (file_cell_parameters g) (upd (cp2k_settings_main g)) (cp2k_settings_guess g)
  | key_cp2k_settings_guess =>
      mkGeneral (file_cell_parameters g) (cp2k_settings_main g) (upd (cp2k_settings_guess g))
  end.

(** Adjust the cell parameters on the fly: both settings objects of
    [general] get row [j], columns [2:11], of the array. *)
Definition adjust_cell_parameters (array_cell_parameters : list (list Q)) (j : Z)
  : M World unit :=
  for_each [key_cp2k_settings_main; key_cp2k_settings_guess]
    (fun _ p =>
       row <- lift_exn (getitem array_cell_parameters j) ;;
       cell <- lift_exn (reshape_3_3 (firstn 9 (skipn 2 row))) ;;
       modify (fun w =>
         set_config (set_general (set_cell p cell (cp2k_general_settings (config w)))
                       (config w)) w))
    tt.

Definition refresh_job_files (d : DictInput) : DictInput :=
  mkDictInput (geometry d) (k d) (node_MOs d) (node_energy d) (point_dir d)
    (create_file_names (point_dir d) (k d)) (job_name d).

Definition is_None {A} (o : option A) : bool :=
  match o with
  | None => true
  | Some _ => false
  end.

(** [k in xs] for a list of integers *)
Definition mem_int (k : Z) (xs : list Z) : bool := existsb (Z.eqb k) xs.

(** Call CP2K to compute the MOs: a job with the main settings, preceded by
    a guess job when the point is listed or when there is no guess yet. *)
Definition compute_orbitals (dict_input : DictInput) (guess_job : option Promise)
  : M World Promise :=
  let dict_input := refresh_job_files dict_input in
  cfg <- gets config ;;
  let compute_guess := negb (is_None (calc_new_wf_guess_on_points cfg)) in
  let is_restart := is_None guess_job && compute_guess in
  match calc_new_wf_guess_on_points cfg with
  | None => raise TypeError
  | Some points =>
      let pred := mem_int (k dict_input) points || is_restart in
      let general := cp2k_general_settings cfg in
      guess_job <- (if pred
                    then g <- prepare_job_cp2k (cp2k_settings_guess general)
                                dict_input guess_job ;;
                         ret (Some g)
                    else ret guess_job) ;;
      prepare_job_cp2k (cp2k_settings_main general) dict_input guess_job
  end.

(** The locals carried by the loop of [calculate_mos]. *)
Record Locals := mkLocals {
  orbitals_list : list OrbitalItem;
  energies_list : list EnergyItem;
  current_guess_job : option Promise }.

(** The body of the loop of [calculate_mos] for the [j]-th geometry.  The
    local [array_cell_parameters] is bound exactly when [file_cell_parameters]
    is not [None]: it is [Some] of the array then, and [None] otherwise. *)
Definition calculate_mos_point (array_cell_parameters : option (list (list Q)))
    (acc : Locals) (jgs : Z * string) : M World Locals :=
  let (j, gs) := jgs in
  cfg <- gets config ;;
  let k := j + enumerate_from cfg in
  let root := join (project_name cfg)
                ["point_" +:+ str_of_int k; package_name cfg; "mo"] in
  let node_MOs := [join root ["eigenvalues"]; join root ["coefficients"]] in
  let node_energy := join root ["energy"] in
  let predicate := if config_compute_orbitals cfg
                   then ManyKeys node_MOs else OneKey node_energy in
  f5 <- gets hdf5 ;;
  if is_data_in_hdf5 f5 predicate then
    logger INFO (msg_already_calculated k) ;;;
    ret (mkLocals (orbitals_list acc ++ [node_paths node_MOs])
           (energies_list acc) (current_guess_job acc))
  else
    logger INFO (msg_scheduled k) ;;;
    match array_cell_parameters with
    | Some array => adjust_cell_parameters array j
    | None => ret tt
    end ;;;
    point_dir <- lift_exn (getitem (folders cfg) j) ;;
    let dict_input :=
      mkDictInput gs k node_MOs node_energy point_dir
        (create_file_names point_dir k) ("point_" +:+ str_of_int k) in
    promise_qm <- compute_orbitals dict_input (current_guess_job acc) ;;
    let promise_qm := checked promise_qm dict_input in
    cfg <- gets config ;;
    let item := if config_compute_orbitals cfg
                then stored_MOs dict_input promise_qm else no_orbitals in
    ret (mkLocals (orbitals_list acc ++ [item])
           (energies_list acc ++ [stored_enery dict_input promise_qm])
           (Some promise_qm)).

Section Common.

(** [read_cell_parameters_as_array(file)] of [nanoqm.common] is not part of
    the sources.  It is a parameter: any function from the path and the disk
    to the pair of a header and the array of cell parameters, or to an
    exception.  It reads the disk and does not change it. *)
Variable read_cell_parameters_as_array :
  string -> os.FS -> Exn + (string * list (list Q)).

(** Look for the MOs in the HDF5 file and schedule their computation when
    they are not there.  The file of cell parameters, when one is given, is
    read before the loop.  The result gathers the list [orbitals] and the
    list [energies], each in the order in which it was filled. *)
Definition calculate_mos : M World (list OrbitalItem * list EnergyItem) :=
  cfg <- gets config ;;
  let general := cp2k_general_settings cfg in
  array_cell_parameters <-
    match file_cell_parameters general with
    | Some file =>
        fs <- gets disk ;;
        header_and_array <- lift_exn (read_cell_parameters_as_array file fs) ;;
        ret (Some (snd header_and_array))
    | None => ret None
    end ;;
  acc <- for_each (enumerate (geometries cfg))
           (calculate_mos_point array_cell_parameters) (mkLocals [] [] None) ;;
  ret (orbitals_list acc, energies_list acc).

End Common.

(** Create a new folder for each point of the trajectory; a folder that is
    already there is removed with all its content first. *)
Definition create_point_folder (work_dir : string) (n enumerate_from : Z)
  : M os.FS (list string) :=
  for_each (range enumerate_from (n + enumerate_from))
    (fun folders k =>
       let new_dir := join work_dir ["point_" +:+ str_of_int k] in
       there <- os.path.exists_ new_dir ;;
       (if there then shutil.rmtree new_dir else ret tt) ;;;
       os.makedirs new_dir ;;;
       ret (folders ++ [new_dir]))
    [].

(** Read a set of molecular geometries in xyz format. *)
Definition split_file_geometries (pathXYZ : string) : M os.FS (list string) :=
  xss <- builtins.open_readlines pathXYZ ;;
  line <- lift_exn (getitem xss 0) ;;
  word <- lift_exn (getitem (builtins.str_split line) 0) ;;
  numat <- lift_exn (builtins.int_of_str word) ;;
  chunks <- lift_exn (more_itertools.chunked xss (numat + 2)) ;;
  ret (map (String.concat "") chunks).

Section Runtime.

(** [store_arrays_in_hdf5(path_hdf5, path, array)] of [nanoqm.common] and the
    CP2K run behind a promised job are not part of the sources.  They are
    parameters: the first is any function from the file to a new file or an
    exception, the second any function from the job and the disk to a
    result or an exception and a new disk. *)
Variable store_arrays_in_hdf5 :
  gmap string Data -> string -> Data -> Exn + gmap string Data.
Variable cp2k :
  Settings -> DictInput -> option Result -> os.FS -> (Exn + Result) * os.FS.

Definition write_hdf5 (path_hdf5 path : string) (x : Data) : M World unit :=
  fun w => match store_arrays_in_hdf5 (hdf5 w) path x with
           | inl e => (inl e, w)
           | inr f5 => (inr tt, set_hdf5 f5 w)
           end.

(** Store the orbitals in the HDF5 file. *)
Definition dump_orbitals_to_hdf5 (data : InfoMO)
    (path_hdf5 project_name job_name : string)
  : M World unit :=
  let es := "cp2k/mo/eigenvalues"%string in
  let css := "cp2k/mo/coefficients"%string in
  let path_eigenvalues := join project_name [job_name; es] in
  let path_coefficients := join project_name [job_name; css] in
  write_hdf5 path_hdf5 path_eigenvalues (Vector (eigenVals data)) ;;;
  write_hdf5 path_hdf5 path_coefficients (Matrix (coeffs data)).

(** The body of the scheduled [store_MOs], run on the resolved promise. *)
Definition store_MOs (dict_input : DictInput) (promise_qm : Result)
  : M World (list string) :=
  let mos := orbitals promise_qm in
  try_finally
    (cfg <- gets config ;;
     dump_orbitals_to_hdf5 mos (path_hdf5 cfg) (project_name cfg)
       (job_name dict_input))
    (let work_dir := work_dir promise_qm in
     names <- on_disk (os.listdir work_dir) ;;
     path_MOs <- lift_exn (getitem (fnmatch.filter names "mo_*MOLog") 0) ;;
     on_disk (os.remove (join work_dir [path_MOs]))) ;;;
  ret (node_MOs dict_input).

(** The body of the scheduled [store_enery]. *)
Definition store_enery (dict_input : DictInput) (promise_qm : Result)
  : M World string :=
  cfg <- gets config ;;
  write_hdf5 (path_hdf5 cfg) (node_energy dict_input) (Scalar (energy promise_qm)) ;;;
  logger INFO (msg_total_energy (k dict_input) (energy promise_qm)) ;;;
  ret (node_energy dict_input).

(** [any(w == SCF_Convergence_Warning for msg, w in warnings.items())] *)
Definition any_SCF_Convergence_Warning (ws : list (string * Warning)) : bool :=
  existsb (fun it => is_SCF_Convergence_Warning (snd it)) ws.

(** The test of [schedule_check]. *)
Definition must_recompute (cfg : DictConfig) (ws : option (list (string * Warning)))
  : bool :=
  negb (ignore_warnings cfg)
  && match ws with
     | None => false
     | Some ws => any_SCF_Convergence_Warning ws
     end.

(** [config.calc_new_wf_guess_on_points.append(k)] *)
Definition append_guess_point (k : Z) : M World unit :=
  cfg <- gets config ;;
  match calc_new_wf_guess_on_points cfg with
  | None => raise AttributeError
  | Some points =>
      modify (set_config (set_calc_new_wf_guess_on_points (Some (points ++ [k])) cfg))
  end.

(** The body of the scheduled [schedule_check], run on the resolved promise:
    it returns the promise itself, or the workflow of a new computation. *)
Definition schedule_check (promise_qm : Result) (dict_input : DictInput)
  : M World Promise :=
  let job_name := job_name dict_input in
  let point_dir := point_dir dict_input in
  let warnings := warnings promise_qm in
  cfg <- gets config ;;
  if must_recompute cfg warnings then
    logger WARNING (msg_finished_with_warnings job_name warnings) ;;;
    logger WARNING msg_new_guess ;;;
    logger WARNING (msg_removing_previous job_name) ;;;
    names <- on_disk (os.listdir point_dir) ;;
    path <- lift_exn (getitem (fnmatch.filter names "mo*MOLog") 0) ;;
    on_disk (os.remove (join point_dir [path])) ;;;
    append_guess_point (k dict_input) ;;;
    compute_orbitals dict_input None
  else ret (resolved promise_qm).

(** One solver invocation. *)
Definition run_cp2k (s : Settings) (d : DictInput) (g : option Result)
  : M World Result :=
  modify (fun w => set_submitted (submitted w ++ [mkSubmission s d g]) w) ;;;
  on_disk (cp2k s d g).

(** Modelled from the spec: the engine of [noodles] is not part of the
    sources.  A promise is evaluated after the promises whose output it
    consumes; a scheduled function that returns a workflow has that
    workflow evaluated in turn, and its value is the value of the call.
    [fuel] bounds the nesting; when it runs out the outcome is
    [RecursionError]. *)
Fixpoint run_fuel (fuel : nat) (p : Promise) : M World Result :=
  match fuel with
  | O => raise RecursionError
  | S fuel' =>
      match p with
      | resolved r => ret r
      | job s d None => run_cp2k s d None
      | job s d (Some g) => r <- run_fuel fuel' g ;; run_cp2k s d (Some r)
      | checked p' d =>
          r <- run_fuel fuel' p' ;;
          wf <- schedule_check r d ;;
          run_fuel fuel' wf
      end
  end.

Fixpoint depth (p : Promise) : nat :=
  match p with
  | resolved _ => O
  | job _ _ None => 1
  | job _ _ (Some g) => S (depth g)
  | checked p' _ => S (depth p')
  end.

(** The workflow a check returns has two jobs at most, whence the margin. *)
Definition run (p : Promise) : M World Result := run_fuel (depth p + 3) p.

End Runtime.

End Nanoqm.

(** ** [nac/schedule/components.py] *)

Module Nac.

Record JobFiles := mkJobFiles {
  get_xyz : string;
  get_inp : string;
  get_out : string;
  get_MO : string }.

(** Modelled from the spec: [prepare_job_cp2k] of [scheduleCp2k] is not part
    of the sources; a promised object is the call of [prepare_job_cp2k]
    with its arguments. *)
#[warnings="-register-all"]
Inductive Promise :=
| prepare_job_cp2k
    (geometry : string) (job_files : JobFiles) (package_args : option string)
    (k : Z) (point_dir : string) (project_name : string) (hdf5_file : string)
    (wfn_restart_job : option Promise) (store_in_hdf5 : bool)
    (nHOMOS nLUMOS : Z) (package_config : option string).

Definition wfn_restart_job_of (p : Promise) : option Promise :=
  match p with
  | prepare_job_cp2k _ _ _ _ _ _ _ g _ _ _ _ => g
  end.

Definition k_of (p : Promise) : Z :=
  match p with
  | prepare_job_cp2k _ _ _ k _ _ _ _ _ _ _ _ => k
  end.

Definition store_in_hdf5_of (p : Promise) : bool :=
  match p with
  | prepare_job_cp2k _ _ _ _ _ _ _ _ b _ _ _ => b
  end.

(** An entry of [path_to_orbitals]: the node paths of a stored point or
    [promise_qm.orbitals]. *)
Inductive Item :=
| node_paths (paths : list string)
| orbitals_of (promise_qm : Promise).

(** The arguments of [calculate_mos]. *)
Record Args := mkArgs {
  package_name : string;
  all_geometries : list string;
  project_name : string;
  path_hdf5 : string;
  folders : list string;
  package_args : option string;
  guess_args : option string;
  calc_new_wf_guess_on_points : option (list Z);
  enumerate_from : Z;
  nHOMOS : Z;
  nLUMOS : Z;
  package_config : option string }.

Definition set_calc_new_wf_guess_on_points (l : option (list Z)) (a : Args) : Args :=
  mkArgs (package_name a) (all_geometries a) (project_name a) (path_hdf5 a)
    (folders a) (package_args a) (guess_args a) l (enumerate_from a)
    (nHOMOS a) (nLUMOS a) (package_config a).

(** Path inside the HDF5 file where the data is stored. *)
Definition create_properties_path (a : Args) (i : Z) : list string :=
  let rs := join (project_name a) ["point_" +:+ str_of_int i; package_name a; "mo"] in
  [join rs ["eigenvalues"]; join rs ["coefficients"]].

(** Search if the node exists in the HDF5 file, which is taken to exist. *)
Definition search_data_in_hdf5 (a : Args) (f5 : gmap string Data) (i : Z)
  : option (list string) :=
  let paths_to_prop := create_properties_path a i in
  let pred := forallb (in_hdf5 f5) paths_to_prop in
  if pred then Some paths_to_prop else None.

Definition create_file_names (work_dir : string) (i : Z) : JobFiles :=
  let file_xyz := join work_dir ["coordinates_" +:+ str_of_int i +:+ ".xyz"] in
  let file_inp := join work_dir ["point_" +:+ str_of_int i +:+ ".inp"] in
  let file_out := join work_dir ["point_" +:+ str_of_int i +:+ ".out"] in
  let file_MO := join work_dir ["mo_coeff_" +:+ str_of_int i +:+ ".out"] in
  mkJobFiles file_xyz file_inp file_out file_MO.

(** Call the package that does the calculation; the state is the list of
    the calls of [prepare_job_cp2k] so far. *)
Definition call_schedule_qm (packageName : string) (package_args : option string)
    (path_hdf5 point_dir : string) (job_files : JobFiles) (k : Z) (geometry : string)
    (nHOMOS nLUMOS : Z) (project_name : string) (guess_job : option Promise)
    (store_in_hdf5 : bool) (package_config : option string)
  : M (list Promise) Promise :=
  if String.eqb packageName "cp2k" then
    let job := prepare_job_cp2k geometry job_files package_args k point_dir
                 project_name path_hdf5 guess_job store_in_hdf5 nHOMOS nLUMOS
                 package_config in
    modify (fun calls => calls ++ [job]) ;;;
    ret job
  else raise KeyError.

(** The locals carried by the loop of [calculate_mos]. *)
Record Locals := mkLocals {
  path_to_orbitals : list Item;
  current_guess_job : option Promise }.

Definition mem_int (k : Z) (xs : list Z) : bool := existsb (Z.eqb k) xs.

(** The body of the loop of [calculate_mos] for the [j]-th geometry. *)
Definition calculate_mos_point (a : Args) (f5 : gmap string Data)
    (acc : Locals) (jgs : Z * string) : M (list Promise) Locals :=
  let (j, gs) := jgs in
  let k := j + enumerate_from a in
  match search_data_in_hdf5 a f5 k with
  | Some paths_to_prop =>
      ret (mkLocals (path_to_orbitals acc ++ [node_paths paths_to_prop])
             (current_guess_job acc))
  | None =>
      point_dir <- lift_exn (getitem (folders a) j) ;;
      let job_files := create_file_names point_dir k in
      listed <- match calc_new_wf_guess_on_points a with
                | None => raise TypeError
                | Some points => ret (mem_int k points)
                end ;;
      guess_job <- (if listed : bool
                    then g <- call_schedule_qm (package_name a) (guess_args a)
                                (path_hdf5 a) point_dir job_files k gs
                                (nHOMOS a) (nLUMOS a) (project_name a)
                                (current_guess_job acc) false (package_config a) ;;
                         ret (Some g)
                    else ret (current_guess_job acc)) ;;
      promise_qm <- call_schedule_qm (package_name a) (package_args a)
                      (path_hdf5 a) point_dir job_files k gs
                      (nHOMOS a) (nLUMOS a) (project_name a)
                      guess_job true (package_config a) ;;
      ret (mkLocals (path_to_orbitals acc ++ [orbitals_of promise_qm])
             (Some promise_qm))
  end.

(** Look for the MOs in the HDF5 file and schedule their computation when
    they are not there. *)
Definition calculate_mos (a : Args) (f5 : gmap string Data)
  : M (list Promise) (list Item) :=
  acc <- for_each (enumerate (all_geometries a)) (calculate_mos_point a f5)
           (mkLocals [] None) ;;
  ret (path_to_orbitals acc).

(** Create a new folder for each point of the trajectory, unless the folder
    is already there. *)
Definition create_point_folder (work_dir : string) (n enumerate_from : Z)
  : M os.FS (list string) :=
  for_each (range enumerate_from (n + enumerate_from))
    (fun folders k =>
       let new_dir := join work_dir ["point_" +:+ str_of_int k] in
       there <- os.path.exists_ new_dir ;;
       (if negb there then os.makedirs new_dir else ret tt) ;;;
       ret (folders ++ [new_dir]))
    [].

End Nac.

(** ** [plot_coupling.py] *)

Module plot_coupling.

(** What a call can end with: an exception of [Exn], or one of the
    exceptions only this script meets. *)
Inductive Raised :=
| builtin (e : Exn)
| NameError
| EOFError.

(** The terminal: the lines still to be typed, without their end of line,
    and the texts written so far. *)
Record Console := mkConsole {
  stdin : list string;
  stdout : list string }.

(** The text [print(s)] writes. *)
Definition print (s : string) : string := s +:+ String builtins.LF EmptyString.

Section Float.

(** The floats and [float(s)] are parameters: [float_of_str s] is [None]
    when [float(s)] raises [ValueError]. *)
Variable F : Type.
Variable float_of_str : string -> option F.

(** The values [ask_question] is given as [default] and returns. *)
Inductive Value :=
| VNone
| VStr (s : string)
| VBool (b : bool)
| VInt (n : Z)
| VFloat (x : F).

(** [default == None] *)
Definition is_VNone (v : Value) : bool :=
  match v with
  | VNone => true
  | _ => false
  end.

(** The loop of [ask_question] under Python 3: each round writes [q_str]
    and reads a line with [input], which raises [EOFError] when there is
    none; [lines] is what is left to read and [out] what was written. *)
Fixpoint ask_loop (lines out : list string) (q_str : string) (special : option string)
    (default : Value) : (Raised + Value) * Console :=
  match lines with
  | [] => (inl EOFError, mkConsole [] (out ++ [q_str]))
  | question :: lines =>
      let out := out ++ [q_str] in
      match special with
      | None => (inr (VStr question), mkConsole lines out)
      | Some sp =>
          if String.eqb sp "bool" then
            if String.eqb question "y" || String.eqb question "yes"
            then (inr (VBool true), mkConsole lines out)
            else if String.eqb question "n" || String.eqb question "no"
            then (inr (VBool false), mkConsole lines out)
            else (inr default, mkConsole lines out)
          else if String.eqb sp "float" then
            match float_of_str question with
            | Some a => (inr (VFloat a), mkConsole lines out)
            | None =>
                if is_VNone default
                then ask_loop lines
                       (out ++ [print "This is not a float/integer? Please try again."])
                       q_str special default
                else (* [a = defualt]: the name is not defined *)
                  (inl NameError, mkConsole lines out)
            end
          else if String.eqb sp "int" then
            match builtins.int_of_str question with
            | inr a => (inr (VInt a), mkConsole lines out)
            | inl ValueError =>
                if is_VNone default
                then ask_loop lines
                       (out ++ [print "This is not an integer? Please try again."])
                       q_str special default
                else (inr default, mkConsole lines out)
            | inl e => (inl (builtin e), mkConsole lines out)
            end
          else ask_loop lines out q_str special default
      end
  end.

(** Ask the question, and parse the answer to the preferred format. *)
Definition ask_question (q_str : string) (special : option string) (default : Value)
    (c : Console) : (Raised + Value) * Console :=
  ask_loop (stdin c) (stdout c) q_str special default.

End Float.

Arguments VNone {F}.
Arguments VStr {F} s.
Arguments VBool {F} b.
Arguments VInt {F} n.
Arguments VFloat {F} x.
Arguments is_VNone {F} v.
Arguments ask_loop {F} float_of_str lines out q_str special default.
Arguments ask_question {F} float_of_str q_str special default c.

End plot_coupling.

(** ** [test/test_mypy.py] *)

Module test_mypy.

(** What the test can raise: an exception of [Exn], or a failed
    assertion with its message. *)
Inductive Raised :=
| builtin (e : Exn)
| AssertionError (msg : string).

(** What [subprocess.run] returns, the two outputs decoded. *)
Record CompletedProcess := mkCompletedProcess {
  returncode : Z;
  stdout : string;
  stderr : string }.

(** What the test leaves behind: the number of commands it ran and the
    warnings it issued. *)
Record Session := mkSession {
  commands_run : nat;
  warnings_issued : list string }.

Definition ACTION : list string := ["raise"; "warn"; "ignore"]%string.

(** [s.split(c)] for a character [c] *)
Fixpoint split_char (c : ascii) (s : string) : list string :=
  match s with
  | EmptyString => [EmptyString]
  | String x s' =>
      if Ascii.eqb x c then EmptyString :: split_char c s'
      else match split_char c s' with
           | [] => [String x EmptyString]
           | w :: ws => String x w :: ws
           end
  end.

(** [s.rsplit(c, maxsplit)]: the string is split at the last [maxsplit]
    occurrences of [c]. *)
Definition rsplit (c : ascii) (maxsplit : nat) (s : string) : list string :=
  let parts := split_char c s in
  let n := length parts in
  if (n <=? S maxsplit)%nat then parts
  else String.concat (String c EmptyString) (firstn (n - maxsplit) parts)
         :: skipn (n - maxsplit) parts.

Section Mypy.

(** The run of the [mypy] command is a parameter: [mypy] is what
    [subprocess.run] returns for it. *)
Variable mypy : CompletedProcess.

(** Test using mypy. *)
Definition test_mypy (action : string) : Session -> (Raised + unit) * Session :=
  fun s =>
    if negb (existsb (String.eqb action) ACTION) then (inl (builtin ValueError), s)
    else
      let s := mkSession (S (commands_run s)) (warnings_issued s) in
      let out := mypy in
      if negb (is_empty (stderr out)) then (inl (AssertionError (stderr out)), s)
      else if String.eqb action "warn" && negb (returncode out =? 0) then
        (inr tt, mkSession (commands_run s) (warnings_issued s ++ [stdout out]))
      else if String.eqb action "raise" then
        if returncode out =? 0 then (inr tt, s)
        else match getitem (rsplit builtins.LF 2 (stdout out)) 1 with
             | inl e => (inl (builtin e), s)
             | inr msg => (inl (AssertionError msg), s)
             end
      else (inr tt, s).

End Mypy.

End test_mypy.

(** * Properties *)

(** ** Worlds used as concrete inputs *)

Module Inputs.
Import Nanoqm.

Definition settings_main : Settings := mkSettings "main" None None.
Definition settings_guess : Settings := mkSettings "guess" None None.
Definition general : General := mkGeneral None settings_main settings_guess.

(** Two geometries, stored under [proj/point_k/cp2k/mo]. *)
Definition config_with (points : option (list Z)) (orbitals : bool) : DictConfig :=
  mkDictConfig ["geometry 0"; "geometry 1"]%string "proj" "cp2k" "quantum.hdf5"
    ["/scratch/point_0"; "/scratch/point_1"]%string points 0 orbitals false general.

Definition world_with (cfg : DictConfig) (f5 : gmap string Data) (fs : os.FS) : World :=
  mkWorld cfg f5 fs [] [] [].

(** Only the energy of point 0 is stored. *)
Definition energy_0_only : gmap string Data :=
  {[ "proj/point_0/cp2k/mo/energy"%string := Scalar 0 ]}.

(** Only the orbitals of point 0 are stored. *)
Definition orbitals_0_only : gmap string Data :=
  <[ "proj/point_0/cp2k/mo/eigenvalues"%string := Vector [] ]>
    {[ "proj/point_0/cp2k/mo/coefficients"%string := Matrix [] ]}.

(** The folder of point 0 exists and holds a file. *)
Definition disk_with_old_data : os.FS :=
  [(["scratch"], os.Dir);
   (["scratch"; "point_0"], os.Dir);
   (["scratch"; "point_0"; "old.dat"], os.File "old data")]%string.

(** A table of cell parameters for two points: eleven columns, of which
    the columns 2 to 10 are the cell. *)
Definition cell_table : list (list Q) :=
  [[0; 0; 10; 0; 0; 0; 10; 0; 0; 0; 10];
   [1; 1; 11; 0; 0; 0; 11; 0; 0; 0; 11]]%Q.

(** A [read_cell_parameters_as_array] for the runs below: it opens the file
    as [open] does, takes the first line as the header, and finds
    [cell_table] in every file. *)
Definition read_cells (file : string) (fs : os.FS) : Exn + (string * list (list Q)) :=
  match fst (builtins.open_readlines file fs) with
  | inl e => inl e
  | inr xss => inr (String.concat "" (firstn 1 xss), cell_table)
  end.

(** The general settings with a file of cell parameters. *)
Definition general_with_cells : General :=
  mkGeneral (Some "cell_parameters.txt"%string) settings_main settings_guess.

(** The file of cell parameters is on the disk. *)
Definition disk_with_cells : os.FS :=
  [(["cell_parameters.txt"]%string, os.File "# step time ax ay az bx by bz cx cy cz
0 0.0 10.0 0.0 0.0 0.0 10.0 0.0 0.0 0.0 10.0
1 1.0 11.0 0.0 0.0 0.0 11.0 0.0 0.0 0.0 11.0
")].

(** Modelled from the spec: [store_arrays_in_hdf5] is not part of the
    sources; the store contract says that a write is create-once. *)
Definition write_once (f5 : gmap string Data) (path : string) (x : Data)
  : Exn + gmap string Data :=
  inr (if in_hdf5 f5 path then f5 else <[path := x]> f5).

(** The input of the job of point 0, as [calculate_mos] fills it. *)
Definition input_0 : DictInput :=
  mkDictInput "geometry 0" 0
    ["proj/point_0/cp2k/mo/eigenvalues"; "proj/point_0/cp2k/mo/coefficients"]%string
    "proj/point_0/cp2k/mo/energy" "/scratch/point_0"
    (create_file_names "/scratch/point_0" 0) "point_0".

(** A result with an SCF convergence warning, computed in the folder of
    point 0. *)
Definition warned_result : Result :=
  mkResult (mkInfoMO [] []) 0
    (Some [("SCF not converged"%string, SCF_Convergence_Warning)])
    "/scratch/point_0".

(** The folder of point 0 exists and is empty. *)
Definition disk_without_log : os.FS :=
  [(["scratch"], os.Dir); (["scratch"; "point_0"], os.Dir)]%string.

(** The folder of point 0 holds the orbitals that CP2K printed. *)
Definition disk_with_log : os.FS :=
  [(["scratch"], os.Dir);
   (["scratch"; "point_0"], os.Dir);
   (["scratch"; "point_0"; "mo_coeff_0.out-1_0.MOLog"], os.File "orbitals")]%string.

(** A CP2K that always ends with an SCF convergence warning, and prints
    its orbitals in the folder of the point. *)
Definition cp2k_never_converges (s : Settings) (d : DictInput) (g : option Result)
    (fs : os.FS) : (Exn + Result) * os.FS :=
  (inr (mkResult (mkInfoMO [] []) 0
          (Some [("SCF not converged"%string, SCF_Convergence_Warning)])
          (point_dir d)),
   (os.resolve (point_dir d) ++ ["mo_coeff.MOLog"%string], os.File "orbitals")
     :: (os.resolve (point_dir d), os.Dir) :: fs).

(** A file with a trajectory of two frames of a molecule of two atoms. *)
Definition trajectory : string :=
  "2
frame 0
H 0.0 0.0 0.0
H 0.0 0.0 0.7
2
frame 1
H 0.0 0.0 0.0
H 0.0 0.0 0.8
".

Definition disk_with_trajectory : os.FS :=
  [(["md"], os.Dir); (["md"; "traj.xyz"], os.File trajectory)]%string.



(** The arguments [calculate_ETR] passes when it is called without restart
    points: [calc_new_wf_guess_on_points] is [None]. *)
Definition nac_args_of_ETR : Nac.Args :=
  Nac.mkArgs "cp2k" ["geometry 0"; "geometry 1"]%string "proj" "quantum.hdf5"
    ["/scratch/point_0"; "/scratch/point_1"]%string (Some "main") None
    None 0 100 100 None.

(** The folder of point 1 is there, and where the folder of point 0 should
    be there is a regular file. *)
Definition disk_with_file_in_the_way : os.FS :=
  [(["scratch"], os.Dir);
   (["scratch"; "point_0"], os.File "not a folder");
   (["scratch"; "point_1"], os.Dir)]%string.

(** A [float] that knows the integers only, with [Z] for the floats. *)
Definition float_of_integers (s : string) : option Z :=
  match builtins.int_of_str s with
  | inr n => Some n
  | inl _ => None
  end.

(** The arguments of a run of [Nac.calculate_mos] on two geometries. *)
Definition nac_args : Nac.Args :=
  Nac.mkArgs "cp2k" ["geometry 0"; "geometry 1"]%string "proj" "quantum.hdf5"
    ["/scratch/point_0"; "/scratch/point_1"]%string (Some "main") (Some "guess")
    (Some [0]) 0 100 100 None.


End Inputs.

(** ** Vocabulary of the statements *)

Import Nanoqm.

Definition root_of (cfg : DictConfig) (k : Z) : string :=
  join (project_name cfg) ["point_" +:+ str_of_int k; package_name cfg; "mo"].

Definition node_MOs_of (cfg : DictConfig) (k : Z) : list string :=
  [join (root_of cfg k) ["eigenvalues"]; join (root_of cfg k) ["coefficients"]].

Definition node_energy_of (cfg : DictConfig) (k : Z) : string :=
  join (root_of cfg k) ["energy"].

(** The keys whose presence makes [calculate_mos] skip point [k]. *)
Definition predicate_of (cfg : DictConfig) (k : Z) : KeyOrKeys :=
  if config_compute_orbitals cfg then ManyKeys (node_MOs_of cfg k)
  else OneKey (node_energy_of cfg k).

Definition is_stored (w : World) (k : Z) : bool :=
  is_data_in_hdf5 (hdf5 w) (predicate_of (config w) k).

(** The [dict_input] that [calculate_mos] fills for the [j]-th geometry. *)
Definition dict_input_of (cfg : DictConfig) (j : Z) (gs point_dir : string) : DictInput :=
  let k := j + enumerate_from cfg in
  mkDictInput gs k (node_MOs_of cfg k) (node_energy_of cfg k) point_dir
    (create_file_names point_dir k) ("point_" +:+ str_of_int k).

Definition with_points (points : option (list Z)) (w : World) : World :=
  set_config (set_calc_new_wf_guess_on_points points (config w)) w.

Definition guess_job_of (p : Promise) : option Promise :=
  match p with
  | job _ _ g => g
  | _ => None
  end.

Definition settings_of (p : Promise) : option Settings :=
  match p with
  | job s _ _ => Some s
  | _ => None
  end.

Definition dict_input_of_job (p : Promise) : option DictInput :=
  match p with
  | job _ d _ => Some d
  | _ => None
  end.

(** The part of the configuration that [calculate_mos] never assigns to:
    everything but the cell of the two settings objects. *)
Definition erase_cell (s : Settings) : Settings := mkSettings (specific s) None None.

Definition static (c : DictConfig) : DictConfig :=
  let g := cp2k_general_settings c in
  set_general (mkGeneral (file_cell_parameters g) (erase_cell (cp2k_settings_main g))
                 (erase_cell (cp2k_settings_guess g))) c.

(** The points the loop of [calculate_mos] goes through. *)
Definition in_trajectory (cfg : DictConfig) (i : Z) : bool :=
  (enumerate_from cfg <=? i) && (i <? enumerate_from cfg + Z.of_nat (length (geometries cfg))).

(** The type of [read_cell_parameters_as_array]. *)
Definition Reader : Type := string -> os.FS -> Exn + (string * list (list Q)).

(** The cell step of the loop: nothing when no file is given. *)
Definition cell_step (array_cell_parameters : option (list (list Q))) (j : Z)
  : M World unit :=
  match array_cell_parameters with
  | Some array => adjust_cell_parameters array j
  | None => ret tt
  end.

(** What the read before the loop of [calculate_mos] gives: no array when
    no file of cell parameters is given, and otherwise the array read from
    the file, or the exception of the read. *)
Definition cell_parameters_read (read : Reader) (w : World)
  : Exn + option (list (list Q)) :=
  match file_cell_parameters (cp2k_general_settings (config w)) with
  | None => inr None
  | Some file =>
      match read file (disk w) with
      | inl e => inl e
      | inr header_and_array => inr (Some (snd header_and_array))
      end
  end.

Definition handle_of (e : EnergyItem) : Promise :=
  match e with
  | stored_enery _ p => p
  end.

(** The entries of [energies] of a run without stored points: entry [i] is
    for point [i + enumerate_from], its promise is the checked main job of
    that point, and the main job of the next entry has that promise as its
    guess. *)
Definition well_chained (cfg : DictConfig) (es : list EnergyItem) : Prop :=
  (forall i d p, nth_error es i = Some (stored_enery d p) ->
     k d = Z.of_nat i + enumerate_from cfg /\
     exists s g, p = checked (job s d g) d /\
       specific s = specific (cp2k_settings_main (cp2k_general_settings cfg))) /\
  (forall i d1 p1 d2 p2,
     nth_error es i = Some (stored_enery d1 p1) ->
     nth_error es (S i) = Some (stored_enery d2 p2) ->
     exists s, p2 = checked (job s d2 (Some p1)) d2).

(** The name of the folder of point [k]. *)
Definition point_name (k : Z) : string := "point_" +:+ str_of_int k.

Fixpoint has_sep (s : string) : bool :=
  match s with
  | EmptyString => false
  | String c s' => Ascii.eqb c sep || has_sep s'
  end.

(** The non-empty prefixes of a path, the path itself included. *)
Fixpoint prefixes (p : os.Path) : list os.Path :=
  match p with
  | [] => []
  | x :: p' => [x] :: map (cons x) (prefixes p')
  end.

(** Neither the directory [d] nor a directory above it is a regular file. *)
Definition can_hold_folders (fs : os.FS) (d : string) : Prop :=
  forall a, In a (prefixes (os.resolve d)) -> os.is_file fs a = false.

(** Whatever is on the disk has its parent directories on the disk. *)
Definition parents_exist (fs : os.FS) : Prop :=
  forall r a, os.missing fs r = false -> In a (os.ancestors r) -> os.missing fs a = false.

(** The same, as a check on the entries of the disk. *)
Definition parents_exist_check (fs : os.FS) : bool :=
  forallb (fun e => forallb (fun a => negb (os.missing fs a)) (os.ancestors (fst e))) fs.

(** The resolved path of the folder of point [k] below [work_dir]. *)
Definition point_path (work_dir : string) (k : Z) : os.Path :=
  os.resolve work_dir ++ [point_name k].

(** The paths [create_point_folder] returns. *)
Definition point_folders (work_dir : string) (n enumerate_from : Z) : list string :=
  map (fun k => join work_dir [point_name k]) (range enumerate_from (n + enumerate_from)).

(** The disk after [shutil.rmtree] of the directory [q]. *)
Definition cleared (fs : os.FS) (q : os.Path) : os.FS :=
  List.filter (fun e => negb (os.under q (fst e))) fs.

(** The disk after [os.makedirs] of the missing path [q]. *)
Definition created (fs : os.FS) (q : os.Path) : os.FS :=
  fs ++ map (fun a => (a, os.Dir)) (List.filter (os.missing fs) (os.ancestors q))
     ++ [(q, os.Dir)].

(** The bodies of the loops of the two versions of [create_point_folder]. *)
Definition nanoqm_folder_step (work_dir : string) (folders : list string) (k : Z)
  : M os.FS (list string) :=
  let new_dir := join work_dir ["point_" +:+ str_of_int k] in
  there <- os.path.exists_ new_dir ;;
  (if there then shutil.rmtree new_dir else ret tt) ;;;
  os.makedirs new_dir ;;;
  ret (folders ++ [new_dir]).

Definition nac_folder_step (work_dir : string) (folders : list string) (k : Z)
  : M os.FS (list string) :=
  let new_dir := join work_dir ["point_" +:+ str_of_int k] in
  there <- os.path.exists_ new_dir ;;
  (if negb there then os.makedirs new_dir else ret tt) ;;;
  ret (folders ++ [new_dir]).

(** Remove the first entry of [dir] that matches [pat], as [store_MOs] and
    [schedule_check] do. *)
Definition remove_first_match (pat dir : string) : M World unit :=
  names <- on_disk (os.listdir dir) ;;
  path <- lift_exn (getitem (fnmatch.filter names pat) 0) ;;
  on_disk (os.remove (join dir [path])).

(** The disk without the entry [p]. *)
Definition without (fs : os.FS) (p : os.Path) : os.FS :=
  List.filter (fun e => negb (os.path_eqb (fst e) p)) fs.

(** The world after the three warnings [schedule_check] logs. *)
Definition warned (w : World) (d : DictInput) (r : Result) : World :=
  set_logged
    (((logged w ++ [(WARNING, msg_finished_with_warnings (job_name d) (warnings r))])
        ++ [(WARNING, msg_new_guess)])
       ++ [(WARNING, msg_removing_previous (job_name d))]) w.

(** The persistence step of [store_MOs]. *)
Definition persist_MOs
    (store_arrays_in_hdf5 : gmap string Data -> string -> Data -> Exn + gmap string Data)
    (d : DictInput) (r : Result) : M World unit :=
  cfg <- gets config ;;
  dump_orbitals_to_hdf5 store_arrays_in_hdf5 (orbitals r) (path_hdf5 cfg)
    (project_name cfg) (job_name d).

(** A CP2K that never raises and always ends with an SCF convergence
    warning. *)
Definition never_converges
    (cp2k : Settings -> DictInput -> option Result -> os.FS -> (Exn + Result) * os.FS)
  : Prop :=
  forall s d g fs, exists r ws,
    fst (cp2k s d g fs) = inr r /\ warnings r = Some ws /\
    any_SCF_Convergence_Warning ws = true.

(** A CP2K that, run on the input [d], leaves in the folder of the point a
    file that matches [mo*MOLog], listed before any other such entry. *)
Definition prints_orbitals
    (cp2k : Settings -> DictInput -> option Result -> os.FS -> (Exn + Result) * os.FS)
    (d : DictInput) : Prop :=
  forall s g fs,
    let fs' := snd (cp2k s d g fs) in
    exists names name rest,
      fst (os.listdir (point_dir d) fs') = inr names /\
      fnmatch.filter names "mo*MOLog" = name :: rest /\
      os.is_file fs' (os.resolve (join (point_dir d) [name])) = true.

(** The world after one solver invocation. *)
Definition after_cp2k
    (cp2k : Settings -> DictInput -> option Result -> os.FS -> (Exn + Result) * os.FS)
    (s : Settings) (d : DictInput) (g : option Result) (w : World) : World :=
  set_disk (snd (cp2k s d g (disk w)))
    (set_submitted (submitted w ++ [mkSubmission s d g]) w).

(** The points of the trajectory, in the order of the loop of
    [calculate_mos]. *)
Definition points_of (cfg : DictConfig) : list Z :=
  map (fun j => j + enumerate_from cfg) (range 0 (Z.of_nat (length (geometries cfg)))).

(** The point an entry of [energies] is for. *)
Definition point_of_energy (e : EnergyItem) : Z :=
  match e with
  | stored_enery d _ => k d
  end.

(** What the list [orbitals] holds for the point [k0]: the node paths of a
    stored point; for a point that is not stored, the scheduled storage of
    its orbitals, or [None] when the orbitals are not asked for. *)
Definition orbital_entry (w : World) (k0 : Z) (item : OrbitalItem) : Prop :=
  if is_stored w k0 then item = node_paths (node_MOs_of (config w) k0)
  else if config_compute_orbitals (config w)
       then exists d p, item = stored_MOs d p /\ k d = k0
       else item = no_orbitals.

(** Row [j] of the array of cell parameters, when a file of cell parameters
    is given, exists and has the columns 2 to 10. *)
Definition has_cell_row (array_cell_parameters : option (list (list Q))) (j : Z) : Prop :=
  match array_cell_parameters with
  | None => True
  | Some array => exists row, getitem array j = inr row /\ (11 <= length row)%nat
  end.

(** What the [j]-th geometry needs when its point has to be computed: a
    folder, a list of restart points, and its row of cell parameters. *)
Definition can_be_scheduled (cfg : DictConfig)
    (array_cell_parameters : option (list (list Q))) (j : Z) : Prop :=
  j < Z.of_nat (length (folders cfg)) /\
  calc_new_wf_guess_on_points cfg <> None /\
  has_cell_row array_cell_parameters j.

(** A store that adds the node it is given and keeps the nodes of the file;
    what it does with the data is left open. *)
Definition adds_the_node
    (store : gmap string Data -> string -> Data -> Exn + gmap string Data) : Prop :=
  forall f5 path x f5',
    store f5 path x = inr f5' ->
    in_hdf5 f5' path = true /\
    forall p, in_hdf5 f5 p = true -> in_hdf5 f5' p = true.

(** The cell that [adjust_cell_parameters] reads from a row of the array:
    the columns 2 to 10, three by three. *)
Definition cell_of_row (row : list Q) : list (list Q) :=
  let c i := nth i row 0%Q in
  [[c 2; c 3; c 4]; [c 5; c 6; c 7]; [c 8; c 9; c 10]]%nat.

(** The points of the trajectory, in the order of the loop of
    [Nac.calculate_mos]. *)
Definition nac_points_of (a : Nac.Args) : list Z :=
  map (fun j => j + Nac.enumerate_from a)
    (range 0 (Z.of_nat (length (Nac.all_geometries a)))).

(** What [path_to_orbitals] holds for the point [k0]: the node paths of a
    stored point, or the promised orbitals of the main job of the point. *)
Definition nac_entry (a : Nac.Args) (f5 : gmap string Data) (k0 : Z) (item : Nac.Item)
  : Prop :=
  match Nac.search_data_in_hdf5 a f5 k0 with
  | Some paths => item = Nac.node_paths paths
  | None => exists main, item = Nac.orbitals_of main /\ Nac.k_of main = k0 /\
                         Nac.store_in_hdf5_of main = true
  end.

(** What the [j]-th geometry needs when its point has to be computed. *)
Definition nac_can_be_scheduled (a : Nac.Args) (j : Z) : Prop :=
  j < Z.of_nat (length (Nac.folders a)) /\
  Nac.calc_new_wf_guess_on_points a <> None /\
  Nac.package_name a = "cp2k"%string.

(** The job behind an entry of [energies], given the guess [prev] that the
    loop of [calculate_mos] held when the entry was made: a checked job with
    the main settings whose guess is [prev] itself, or, at a restart point
    and when there is no [prev], a job with the guess settings whose own
    guess is [prev]. *)
Definition chained (cfg : DictConfig) (points : list Z) (prev : option Promise)
    (e : EnergyItem) : Prop :=
  match e with
  | stored_enery d p =>
      exists s g,
        p = checked (job s d (Some g)) d /\
        specific s = specific (cp2k_settings_main (cp2k_general_settings cfg)) /\
        if mem_int (k d) points || is_None prev
        then exists s', g = job s' d prev /\
               specific s' = specific (cp2k_settings_guess (cp2k_general_settings cfg))
        else prev = Some g
  end.

(** The entries of [energies] form a chain: each is [chained] to the promise
    of the entry before it, the first one to [prev]. *)
Fixpoint chain (cfg : DictConfig) (points : list Z) (prev : option Promise)
    (es : list EnergyItem) : Prop :=
  match es with
  | [] => True
  | e :: es' => chained cfg points prev e /\ chain cfg points (Some (handle_of e)) es'
  end.

(** The same for [Nac.calculate_mos]: the job of a point that is not stored
    restarts from [prev], or, at a listed point, from a job that does not
    store its result and restarts from [prev]. *)
Definition nac_chained (points : list Z) (prev : option Nac.Promise) (main : Nac.Promise)
  : Prop :=
  if Nac.mem_int (Nac.k_of main) points
  then exists g, Nac.wfn_restart_job_of main = Some g /\
                 Nac.wfn_restart_job_of g = prev /\
                 Nac.store_in_hdf5_of g = false /\
                 Nac.k_of g = Nac.k_of main
  else Nac.wfn_restart_job_of main = prev.

Fixpoint nac_chain (points : list Z) (prev : option Nac.Promise) (items : list Nac.Item)
  : Prop :=
  match items with
  | [] => True
  | Nac.node_paths _ :: items' => nac_chain points prev items'
  | Nac.orbitals_of main :: items' =>
      nac_chained points prev main /\ nac_chain points (Some main) items'
  end.

(** The four files of a point, as a list. *)
Definition job_file_list (f : JobFiles) : list string :=
  [get_xyz f; get_inp f; get_out f; get_MO f].

(** The names of the four files of point [i]. *)
Definition job_file_names (i : Z) : list string :=
  ["coordinates_" +:+ str_of_int i +:+ ".xyz";
   "point_" +:+ str_of_int i +:+ ".inp";
   "point_" +:+ str_of_int i +:+ ".out";
   "mo_coeff_" +:+ str_of_int i +:+ ".out"]%string.

Fixpoint has_dot (s : string) : bool :=
  match s with
  | EmptyString => false
  | String c s' => Ascii.eqb c "." || has_dot s'
  end.

Fixpoint has_char (c : ascii) (s : string) : bool :=
  match s with
  | EmptyString => false
  | String x s' => Ascii.eqb x c || has_char c s'
  end.

(** The end of line, as a string. *)
Definition newline : string := String builtins.LF EmptyString.

(** ** Names and paths *)

Lemma str_of_int_inj a b : str_of_int a = str_of_int b -> a = b.
Proof.
  assert (Hn : forall z, Z.to_int z <> Decimal.Pos Decimal.Nil
                         /\ Z.to_int z <> Decimal.Neg Decimal.Nil).
  { intros [|p|p]; simpl; split; try discriminate;
      intros [= H]; now apply Unsigned.to_uint_nonnil in H. }
  unfold str_of_int. intros H. apply to_int_inj.
  destruct (Hn a) as [Ha1 Ha2], (Hn b) as [Hb1 Hb2].
  pose proof (NilZero.isi _ Ha1 Ha2) as Ia. pose proof (NilZero.isi _ Hb1 Hb2) as Ib.
  rewrite H in Ia. rewrite Ia in Ib. now injection Ib.
Qed.

Lemma string_of_uint_has_no_sep d : has_sep (NilEmpty.string_of_uint d) = false.
Proof. induction d; simpl; auto. Qed.

Lemma str_of_int_has_no_sep z : has_sep (str_of_int z) = false.
Proof.
  unfold str_of_int.
  destruct (Z.to_int z) as [d|d]; simpl; destruct d; simpl;
    auto using string_of_uint_has_no_sep.
Qed.

Lemma point_name_inj a b : point_name a = point_name b -> a = b.
Proof. unfold point_name. simpl. intros [= H]. now apply str_of_int_inj. Qed.

Lemma point_name_has_no_sep z : has_sep (point_name z) = false.
Proof. unfold point_name. simpl. apply str_of_int_has_no_sep. Qed.

Lemma point_name_is_name z : os.is_name (point_name z) = true.
Proof. unfold point_name. simpl. destruct (str_of_int z); reflexivity. Qed.

Lemma split_sep_not_nil s : os.split_sep s <> [].
Proof.
  destruct s as [|c s]; simpl; [discriminate|].
  destruct (Ascii.eqb c sep); [discriminate|]. destruct (os.split_sep s); discriminate.
Qed.

Lemma split_sep_no_sep s : has_sep s = false -> os.split_sep s = [s].
Proof.
  induction s as [|c s IH]; simpl; [reflexivity|].
  intros H. apply orb_false_elim in H. destruct H as [Hc Hs].
  rewrite Hc, (IH Hs). reflexivity.
Qed.

Lemma split_sep_app a b :
  os.split_sep (a +:+ String sep b) = os.split_sep a ++ os.split_sep b.
Proof.
  induction a as [|c a IH]; simpl; [reflexivity|].
  destruct (Ascii.eqb c sep) eqn:Ec.
  - simpl. now rewrite IH.
  - rewrite IH. destruct (os.split_sep a) as [|x xs] eqn:Ea; [|reflexivity].
    now apply split_sep_not_nil in Ea.
Qed.

Lemma endswith_sep_inv s :
  endswith_sep s = true -> exists s0, s = s0 +:+ String sep EmptyString.
Proof.
  induction s as [|c s IH]; simpl; [discriminate|].
  destruct s as [|c' s].
  - intros H. apply Ascii.eqb_eq in H. subst c. now exists EmptyString.
  - intros H. destruct (IH H) as [s0 Hs0]. exists (String c s0). now rewrite Hs0.
Qed.

Lemma append_sep_assoc s0 name :
  (s0 +:+ String sep EmptyString) +:+ name = s0 +:+ String sep name.
Proof.
  induction s0 as [|c s0 IH]; [reflexivity|].
  change (String c ((s0 +:+ String sep EmptyString) +:+ name)
          = String c (s0 +:+ String sep name)).
  now rewrite IH.
Qed.

Lemma resolve_join work_dir name :
  has_sep name = false -> os.is_name name = true ->
  os.resolve (join work_dir [name]) = os.resolve work_dir ++ [name].
Proof.
  intros Hs Hn. unfold join. cbn [fold_left]. unfold join_step.
  assert (Hstart : startswith_sep name = false).
  { destruct name as [|c name]; [reflexivity|]. simpl in *.
    now apply orb_false_elim in Hs. }
  rewrite Hstart. unfold os.resolve.
  destruct work_dir as [|c work_dir].
  - change (List.filter os.is_name (os.split_sep name) = [name]).
    rewrite (split_sep_no_sep _ Hs). cbn [List.filter]. now rewrite Hn.
  - cbn [is_empty orb].
    destruct (endswith_sep (String c work_dir)) eqn:Ee.
    + destruct (endswith_sep_inv _ Ee) as [s0 ->].
      rewrite append_sep_assoc.
      rewrite !split_sep_app, (split_sep_no_sep _ Hs), !List.filter_app.
      cbn [List.filter os.split_sep os.is_name String.eqb negb andb].
      rewrite Hn. now rewrite app_nil_r.
    + change ("/" +:+ name) with (String sep name).
      rewrite split_sep_app, (split_sep_no_sep _ Hs), List.filter_app.
      cbn [List.filter]. now rewrite Hn.
Qed.

Lemma resolve_point_folder work_dir k :
  os.resolve (join work_dir [point_name k]) = point_path work_dir k.
Proof. apply resolve_join; [apply point_name_has_no_sep|apply point_name_is_name]. Qed.

(** ** The disk *)

Lemma path_eqb_eq p q : os.path_eqb p q = true <-> p = q.
Proof.
  revert q. induction p as [|x p IH]; intros [|y q]; simpl; try easy.
  rewrite andb_true_iff, String.eqb_eq, IH. split; [now intros [-> ->]|now intros [= -> ->]].
Qed.

Lemma path_eqb_neq p q : p <> q -> os.path_eqb p q = false.
Proof.
  intros H. destruct (os.path_eqb p q) eqn:E; [|reflexivity].
  now apply path_eqb_eq in E.
Qed.

Lemma under_iff d q : os.under d q = true <-> exists r, q = d ++ r.
Proof.
  revert q. induction d as [|x d IH]; intros q; simpl.
  - split; [eauto|reflexivity].
  - destruct q as [|y q].
    + split; [discriminate|now intros [r ?]].
    + rewrite andb_true_iff, String.eqb_eq, IH. split.
      * intros [-> [r ->]]. eauto.
      * intros [r [= -> ->]]. eauto.
Qed.

Lemma under_refl q : os.under q q = true.
Proof. apply under_iff. exists []. now rewrite app_nil_r. Qed.

Lemma under_length d q : os.under d q = true -> (length d <= length q)%nat.
Proof. intros H. apply under_iff in H. destruct H as [r ->]. rewrite length_app. lia. Qed.

Lemma under_snoc_inj pre a b r :
  os.under (pre ++ [a]) r = true -> os.under (pre ++ [b]) r = true -> a = b.
Proof.
  intros Ha Hb. apply under_iff in Ha, Hb. destruct Ha as [ra ->], Hb as [rb Hb].
  rewrite <- !app_assoc in Hb. apply app_inv_head in Hb. now injection Hb.
Qed.

Lemma find_node_filter (f : os.Path -> bool) fs q :
  os.find_node (List.filter (fun e => f (fst e)) fs) q
  = if f q then os.find_node fs q else None.
Proof.
  induction fs as [|[p n] fs IH]; simpl; [now destruct (f q)|].
  destruct (os.path_eqb p q) eqn:E.
  - apply path_eqb_eq in E. subst p. destruct (f q) eqn:Ef; simpl.
    + now rewrite (proj2 (path_eqb_eq q q) eq_refl).
    + rewrite IH. try rewrite Ef. reflexivity.
  - destruct (f p); simpl; [rewrite E|]; exact IH.
Qed.

Lemma find_node_app fs fs' q :
  os.find_node (fs ++ fs') q
  = match os.find_node fs q with
    | Some n => Some n
    | None => os.find_node fs' q
    end.
Proof.
  induction fs as [|[p n] fs IH]; simpl; [reflexivity|].
  now destruct (os.path_eqb p q).
Qed.

Lemma find_node_dirs l q :
  os.find_node (map (fun a => (a, os.Dir)) l) q
  = if existsb (fun a => os.path_eqb a q) l then Some os.Dir else None.
Proof.
  induction l as [|a l IH]; simpl; [reflexivity|].
  now destruct (os.path_eqb a q).
Qed.

Lemma stat_find_node fs r : r <> [] -> os.stat fs r = os.find_node fs r.
Proof. now destruct r. Qed.

Lemma ancestors_bound a q :
  In a (os.ancestors q) -> a <> [] /\ (length a < length q)%nat.
Proof.
  revert a. induction q as [|x q IH]; intros a; simpl; [tauto|].
  destruct q as [|y q]; [simpl; tauto|].
  intros [<-|H]; [simpl; split; [discriminate|lia]|].
  apply in_map_iff in H. destruct H as (a' & <- & Ha').
  apply IH in Ha'. simpl in *. split; [discriminate|lia].
Qed.

Lemma ancestors_cons x p :
  p <> [] -> os.ancestors (x :: p) = [x] :: map (cons x) (os.ancestors p).
Proof. now destruct p. Qed.

Lemma ancestors_snoc pre name : os.ancestors (pre ++ [name]) = prefixes pre.
Proof.
  induction pre as [|x pre IH]; [reflexivity|].
  change (os.ancestors (x :: (pre ++ [name])) = [x] :: map (cons x) (prefixes pre)).
  rewrite ancestors_cons by now destruct pre. now rewrite IH.
Qed.

Lemma in_ancestors_of_under q r :
  q <> [] -> os.under q r = true -> r <> q -> In q (os.ancestors r).
Proof.
  intros Hq Hu Hne. apply under_iff in Hu. destruct Hu as [t ->].
  destruct t as [|y t]; [now rewrite app_nil_r in Hne|]. clear Hne.
  induction q as [|x q IH]; [easy|].
  change (In (x :: q) (os.ancestors (x :: (q ++ y :: t)))).
  rewrite ancestors_cons by now destruct q.
  destruct q as [|x' q]; [now left|].
  right. apply in_map. apply IH. discriminate.
Qed.

Lemma stat_cleared fs q r :
  q <> [] ->
  os.stat (cleared fs q) r = if os.under q r then None else os.stat fs r.
Proof.
  intros Hq. destruct r as [|x r].
  - destruct q; [easy|reflexivity].
  - cbn [os.stat]. unfold cleared.
    rewrite (find_node_filter (fun p => negb (os.under q p))).
    now destruct (os.under q (x :: r)).
Qed.

Lemma stat_created_old fs q r n :
  os.stat fs r = Some n -> os.stat (created fs q) r = Some n.
Proof.
  destruct r as [|x r]; [easy|]. cbn [os.stat]. unfold created.
  rewrite find_node_app. now intros ->.
Qed.

Lemma stat_created_new fs q r :
  os.stat fs r = None -> os.stat (created fs q) r = Some os.Dir \/
                         os.stat (created fs q) r = None.
Proof.
  destruct r as [|x r]; [easy|]. cbn [os.stat]. unfold created.
  rewrite !find_node_app, find_node_dirs. intros ->. simpl.
  destruct (existsb _ _); [now left|]. destruct (os.path_eqb q (x :: r)); auto.
Qed.

Lemma stat_created_other fs q r :
  os.stat fs r = None -> r <> q -> ~ In r (os.ancestors q) ->
  os.stat (created fs q) r = None.
Proof.
  destruct r as [|x r]; [easy|]. cbn [os.stat]. unfold created.
  rewrite !find_node_app, find_node_dirs. intros -> Hne Hnin. simpl.
  destruct (existsb _ _) eqn:E.
  - apply existsb_exists in E. destruct E as (a & Ha & Heq).
    apply path_eqb_eq in Heq. subst a. apply filter_In in Ha. tauto.
  - rewrite path_eqb_neq; [reflexivity|congruence].
Qed.

Lemma stat_created_self fs q :
  q <> [] -> os.stat fs q = None -> os.stat (created fs q) q = Some os.Dir.
Proof.
  intros Hq. rewrite !stat_find_node by exact Hq. unfold created.
  rewrite !find_node_app, find_node_dirs. intros ->. simpl.
  destruct (existsb _ _); [reflexivity|].
  now rewrite (proj2 (path_eqb_eq q q) eq_refl).
Qed.

Lemma is_file_created fs q r : os.is_file (created fs q) r = os.is_file fs r.
Proof.
  unfold os.is_file. destruct (os.stat fs r) as [n|] eqn:E.
  - now rewrite (stat_created_old _ _ _ _ E).
  - now destruct (stat_created_new fs q r E) as [-> | ->].
Qed.

Lemma is_file_cleared fs q r :
  q <> [] -> os.is_file fs r = false -> os.is_file (cleared fs q) r = false.
Proof.
  intros Hq H. unfold os.is_file in *. rewrite (stat_cleared _ _ _ Hq).
  now destruct (os.under q r).
Qed.

(** ** General facts about the monad and the loop *)

#[local] Arguments join : simpl never.
#[local] Arguments str_of_int : simpl never.
#[local] Arguments String.append : simpl never.
#[local] Arguments is_data_in_hdf5 : simpl never.
#[local] Arguments create_file_names : simpl never.

(** Unfolds the monadic plumbing, and nothing else. *)
Ltac mred :=
  cbv beta iota zeta delta [bind gets ret raise modify logger lift_exn get].

Lemma bind_inr {S A B} (m : M S A) (f : A -> M S B) s a s' :
  m s = (inr a, s') -> bind m f s = f a s'.
Proof. intros H. unfold bind. now rewrite H. Qed.

Lemma bind_inl {S A B} (m : M S A) (f : A -> M S B) s e s' :
  m s = (inl e, s') -> bind m f s = (inl e, s').
Proof. intros H. unfold bind. now rewrite H. Qed.

Lemma bind_inv {S A B} (m : M S A) (f : A -> M S B) s b s2 :
  bind m f s = (inr b, s2) -> exists a s1, m s = (inr a, s1) /\ f a s1 = (inr b, s2).
Proof.
  unfold bind. destruct (m s) as [[e|a] s1]; intros H; [discriminate|eauto].
Qed.

Lemma enumerate_at_bounds {X} (xs : list X) j0 j x :
  In (j, x) (enumerate_at j0 xs) -> j0 <= j < j0 + Z.of_nat (length xs).
Proof.
  revert j0. induction xs as [|y xs IH]; simpl; intros j0 H; [tauto|].
  destruct H as [H|H].
  - inversion H; subst. lia.
  - apply IH in H. lia.
Qed.

Lemma enumerate_at_length {X} (xs : list X) j0 :
  length (enumerate_at j0 xs) = length xs.
Proof. revert j0. induction xs; simpl; intros; [reflexivity|now rewrite IHxs]. Qed.

(** ** The loop of [Nanoqm.calculate_mos], point by point *)

Lemma calculate_mos_point_cached arr acc j gs w :
  is_stored w (j + enumerate_from (config w)) = true ->
  calculate_mos_point arr acc (j, gs) w =
  (inr (mkLocals
          (orbitals_list acc
             ++ [node_paths (node_MOs_of (config w) (j + enumerate_from (config w)))])
          (energies_list acc) (current_guess_job acc)),
   set_logged (logged w ++ [(INFO, msg_already_calculated (j + enumerate_from (config w)))]) w).
Proof.
  intros H. unfold is_stored, predicate_of, node_MOs_of, node_energy_of, root_of in H.
  unfold calculate_mos_point. mred. rewrite H. reflexivity.
Qed.

Lemma compute_orbitals_eq d g w points :
  calc_new_wf_guess_on_points (config w) = Some points ->
  compute_orbitals d g w =
  let d' := refresh_job_files d in
  let general := cp2k_general_settings (config w) in
  if mem_int (k d) points || is_None g then
    let guess := job (cp2k_settings_guess general) d' g in
    let main := job (cp2k_settings_main general) d' (Some guess) in
    (inr main, set_prepared (prepared w ++ [guess; main]) w)
  else
    let main := job (cp2k_settings_main general) d' g in
    (inr main, set_prepared (prepared w ++ [main]) w).
Proof.
  intros H. unfold compute_orbitals, prepare_job_cp2k. mred. rewrite H. simpl.
  rewrite andb_true_r.
  destruct (mem_int (k d) points || is_None g); simpl.
  - unfold set_prepared; simpl. now rewrite <- app_assoc.
  - reflexivity.
Qed.

Lemma compute_orbitals_no_points d g w :
  calc_new_wf_guess_on_points (config w) = None ->
  compute_orbitals d g w = (inl TypeError, w).
Proof.
  intros H. unfold compute_orbitals. mred. now rewrite H.
Qed.

Lemma adjust_cell_parameters_eq array j w :
  adjust_cell_parameters array j w =
  match getitem array j with
  | inl e => (inl e, w)
  | inr row =>
      match reshape_3_3 (firstn 9 (skipn 2 row)) with
      | inl e => (inl e, w)
      | inr cell =>
          (inr tt,
           set_config
             (set_general
                (set_cell key_cp2k_settings_guess cell
                   (set_cell key_cp2k_settings_main cell
                      (cp2k_general_settings (config w))))
                (config w)) w)
      end
  end.
Proof.
  unfold adjust_cell_parameters. simpl. mred.
  destruct (getitem array j) as [e|row]; [reflexivity|].
  destruct (reshape_3_3 (firstn 9 (skipn 2 row))) as [e|cell]; reflexivity.
Qed.

Lemma cell_step_static arr j w r w' :
  cell_step arr j w = (r, w') ->
  static (config w') = static (config w) /\ hdf5 w' = hdf5 w /\
  prepared w' = prepared w /\ logged w' = logged w /\ disk w' = disk w /\
  submitted w' = submitted w.
Proof.
  unfold cell_step. destruct arr as [array|].
  - rewrite adjust_cell_parameters_eq.
    destruct (getitem _ j) as [e|row]; [intros [= <- <-]; auto 10|].
    destruct (reshape_3_3 _) as [e|cell]; intros [= <- <-]; auto 10.
  - intros [= <- <-]. auto 10.
Qed.

Lemma calculate_mos_point_scheduled arr acc j gs w :
  is_stored w (j + enumerate_from (config w)) = false ->
  calculate_mos_point arr acc (j, gs) w =
  let k := j + enumerate_from (config w) in
  match cell_step arr j (set_logged (logged w ++ [(INFO, msg_scheduled k)]) w) with
  | (inl e, w2) => (inl e, w2)
  | (inr _, w2) =>
      match getitem (folders (config w)) j with
      | inl e => (inl e, w2)
      | inr point_dir =>
          let d := dict_input_of (config w) j gs point_dir in
          match compute_orbitals d (current_guess_job acc) w2 with
          | (inl e, w3) => (inl e, w3)
          | (inr p, w3) =>
              (inr (mkLocals
                      (orbitals_list acc
                         ++ [if config_compute_orbitals (config w3)
                             then stored_MOs d (checked p d) else no_orbitals])
                      (energies_list acc ++ [stored_enery d (checked p d)])
                      (Some (checked p d))),
               w3)
          end
      end
  end.
Proof.
  intros H. unfold is_stored, predicate_of, node_MOs_of, node_energy_of, root_of in H.
  unfold calculate_mos_point. mred. rewrite H. unfold cell_step. mred.
  match goal with |- context [match ?x with (_, _) => _ end] => destruct x as [[e|[]] w2] end;
    [reflexivity|].
  destruct (getitem (folders (config w)) j) as [e|pd]; [reflexivity|].
  reflexivity.
Qed.

Lemma compute_orbitals_frame d g w r w' :
  compute_orbitals d g w = (r, w') ->
  config w' = config w /\ hdf5 w' = hdf5 w /\ logged w' = logged w /\
  disk w' = disk w /\ submitted w' = submitted w.
Proof.
  destruct (calc_new_wf_guess_on_points (config w)) as [points|] eqn:E.
  - rewrite (compute_orbitals_eq _ _ _ _ E). cbv zeta.
    destruct (_ || _); intros [= <- <-]; auto.
  - rewrite (compute_orbitals_no_points _ _ _ E). intros [= <- <-]; auto.
Qed.

Lemma calculate_mos_point_static arr acc x w r w' :
  calculate_mos_point arr acc x w = (r, w') ->
  static (config w') = static (config w) /\ hdf5 w' = hdf5 w.
Proof.
  destruct x as [j gs].
  destruct (is_stored w (j + enumerate_from (config w))) eqn:E.
  - rewrite (calculate_mos_point_cached _ _ _ _ _ E). intros [= <- <-]. auto.
  - rewrite (calculate_mos_point_scheduled _ _ _ _ _ E). cbv zeta.
    destruct (cell_step _ _ _) as [[e|[]] w2] eqn:E2;
      apply cell_step_static in E2; destruct E2 as (Hc & Hh & _).
    + intros [= <- <-]. auto.
    + destruct (getitem _ j) as [e|pd]; [intros [= <- <-]; auto|].
      destruct (compute_orbitals _ _ w2) as [[e|p] w3] eqn:E3;
        apply compute_orbitals_frame in E3; destruct E3 as (Hc3 & Hh3 & _);
        intros [= <- <-]; rewrite Hc3, Hh3; auto.
Qed.

Lemma static_fields c c' :
  static c' = static c ->
  geometries c' = geometries c /\ project_name c' = project_name c /\
  package_name c' = package_name c /\ folders c' = folders c /\
  calc_new_wf_guess_on_points c' = calc_new_wf_guess_on_points c /\
  enumerate_from c' = enumerate_from c /\
  config_compute_orbitals c' = config_compute_orbitals c /\
  ignore_warnings c' = ignore_warnings c /\
  file_cell_parameters (cp2k_general_settings c')
  = file_cell_parameters (cp2k_general_settings c) /\
  specific (cp2k_settings_main (cp2k_general_settings c'))
  = specific (cp2k_settings_main (cp2k_general_settings c)) /\
  specific (cp2k_settings_guess (cp2k_general_settings c'))
  = specific (cp2k_settings_guess (cp2k_general_settings c)).
Proof.
  destruct c as [? ? ? ? ? ? ? ? ? [? [] []]], c' as [? ? ? ? ? ? ? ? ? [? [] []]].
  unfold static; simpl. intros H. injection H as -> -> -> -> -> -> -> -> -> -> -> ->.
  repeat split.
Qed.

Lemma is_stored_static w w' i :
  static (config w') = static (config w) -> hdf5 w' = hdf5 w ->
  is_stored w' i = is_stored w i.
Proof.
  intros Hc Hh. apply static_fields in Hc.
  destruct Hc as (_ & Hp & Hk & _ & _ & _ & Ho & _).
  unfold is_stored, predicate_of, node_MOs_of, node_energy_of, root_of.
  now rewrite Hh, Hp, Hk, Ho.
Qed.

(** [calculate_mos] is the read of the cell parameters, then the loop. *)
Lemma calculate_mos_eq (read : Reader) w :
  calculate_mos read w =
  match cell_parameters_read read w with
  | inl e => (inl e, w)
  | inr arr =>
      match for_each (enumerate (geometries (config w))) (calculate_mos_point arr)
              (mkLocals [] [] None) w with
      | (inl e, w') => (inl e, w')
      | (inr acc, w') => (inr (orbitals_list acc, energies_list acc), w')
      end
  end.
Proof.
  unfold calculate_mos, cell_parameters_read. mred.
  destruct (file_cell_parameters _) as [file|].
  - destruct (read file (disk w)) as [e|header_and_array]; [reflexivity|].
    destruct (for_each _ _ _ w) as [[e|acc] w']; reflexivity.
  - destruct (for_each _ _ _ w) as [[e|acc] w']; reflexivity.
Qed.

(** A run of [calculate_mos] that returns: the read returned, and so did
    the loop. *)
Lemma calculate_mos_inv (read : Reader) w orbitals energies w' :
  calculate_mos read w = (inr (orbitals, energies), w') ->
  exists arr acc,
    cell_parameters_read read w = inr arr /\
    for_each (enumerate (geometries (config w))) (calculate_mos_point arr)
      (mkLocals [] [] None) w = (inr acc, w') /\
    orbitals = orbitals_list acc /\ energies = energies_list acc.
Proof.
  rewrite calculate_mos_eq.
  destruct (cell_parameters_read read w) as [e|arr]; [discriminate|].
  destruct (for_each _ _ _ w) as [[e|acc] w1] eqn:E; [discriminate|].
  intros [= <- <- <-]. exists arr, acc. auto.
Qed.

(** ** Restart points outside the trajectory *)

Lemma cell_step_with_points arr j l w :
  cell_step arr j (with_points l w) =
  let (r, w') := cell_step arr j w in (r, with_points l w').
Proof.
  unfold cell_step. destruct arr as [array|]; [|reflexivity].
  rewrite !adjust_cell_parameters_eq.
  destruct (getitem _ j) as [e|row]; [reflexivity|].
  destruct (reshape_3_3 _); reflexivity.
Qed.

Lemma compute_orbitals_with_points d g w l l' :
  calc_new_wf_guess_on_points (config w) = Some l ->
  mem_int (k d) l' = mem_int (k d) l ->
  compute_orbitals d g (with_points (Some l') w) =
  let (r, w') := compute_orbitals d g w in (r, with_points (Some l') w').
Proof.
  intros Hl Hm.
  rewrite (compute_orbitals_eq d g w l Hl).
  rewrite (compute_orbitals_eq d g (with_points (Some l') w) l' eq_refl).
  cbv zeta. rewrite Hm. simpl.
  destruct (_ || _); reflexivity.
Qed.

Lemma calculate_mos_point_with_points arr acc j gs w l l' :
  calc_new_wf_guess_on_points (config w) = Some l ->
  mem_int (j + enumerate_from (config w)) l' = mem_int (j + enumerate_from (config w)) l ->
  calculate_mos_point arr acc (j, gs) (with_points (Some l') w) =
  let (r, w') := calculate_mos_point arr acc (j, gs) w in (r, with_points (Some l') w').
Proof.
  intros Hl Hm.
  destruct (is_stored w (j + enumerate_from (config w))) eqn:E.
  - rewrite (calculate_mos_point_cached _ _ _ _ w E).
    rewrite (calculate_mos_point_cached _ _ _ _ (with_points (Some l') w) E). reflexivity.
  - rewrite (calculate_mos_point_scheduled _ _ _ _ w E).
    rewrite (calculate_mos_point_scheduled _ _ _ _ (with_points (Some l') w) E).
    cbv zeta.
    change (set_logged ?x (with_points ?p w)) with (with_points p (set_logged x w)).
    rewrite cell_step_with_points.
    destruct (cell_step _ _ _) as [[e|[]] w2] eqn:E2; [reflexivity|].
    apply cell_step_static in E2. destruct E2 as (Hc & _).
    apply static_fields in Hc. destruct Hc as (_ & _ & _ & _ & Hp & _).
    change (folders (config (with_points (Some l') w))) with (folders (config w)).
    destruct (getitem _ j) as [e|pd]; [reflexivity|].
    change (dict_input_of (config (with_points (Some l') w))) with (dict_input_of (config w)).
    rewrite (compute_orbitals_with_points _ _ w2 l l');
      [|rewrite Hp; exact Hl|exact Hm].
    destruct (compute_orbitals _ _ w2) as [[e|p] w3]; reflexivity.
Qed.

Lemma for_each_with_points arr xs acc w l l' :
  calc_new_wf_guess_on_points (config w) = Some l ->
  (forall j gs, In (j, gs) xs ->
     mem_int (j + enumerate_from (config w)) l'
     = mem_int (j + enumerate_from (config w)) l) ->
  for_each xs (calculate_mos_point arr) acc (with_points (Some l') w) =
  let (r, w') := for_each xs (calculate_mos_point arr) acc w in
  (r, with_points (Some l') w').
Proof.
  revert acc w. induction xs as [|[j gs] xs IH]; intros acc w Hl Hm; [reflexivity|].
  cbn [for_each]. unfold bind.
  rewrite (calculate_mos_point_with_points arr acc j gs w l l' Hl);
    [|apply (Hm j gs); now left].
  destruct (calculate_mos_point arr acc (j, gs) w) as [[e|acc'] w1] eqn:E; [reflexivity|].
  apply calculate_mos_point_static in E. destruct E as (Hc & _).
  apply static_fields in Hc. destruct Hc as (_ & _ & _ & _ & Hp & He & _).
  apply IH.
  - now rewrite Hp.
  - intros j' gs' Hin. rewrite He. apply (Hm j' gs'). now right.
Qed.

Lemma mem_int_filter (f : Z -> bool) i l :
  f i = true -> mem_int i (List.filter f l) = mem_int i l.
Proof.
  intros Hf. unfold mem_int. induction l as [|a l IH]; [reflexivity|].
  simpl. destruct (f a) eqn:Ea; simpl.
  - now rewrite IH.
  - destruct (Z.eqb_spec i a) as [->|_]; [congruence|exact IH].
Qed.

(** C8, as amended.  A restart point outside the trajectory is not an
    error: [calculate_mos] ends in the same way (same result or same
    exception, same prepared jobs, same log) with the list of restart points
    as with that list restricted to the points of the trajectory. *)
Theorem restart_points_outside_trajectory_are_ignored
    (read : Reader) (w : World) (points : list Z) :
  calculate_mos read
    (with_points (Some (List.filter (in_trajectory (config w)) points)) w)
  = let (r, w') := calculate_mos read (with_points (Some points) w) in
    (r, with_points (Some (List.filter (in_trajectory (config w)) points)) w').
Proof.
  set (l' := List.filter (in_trajectory (config w)) points).
  set (w0 := with_points (Some points) w).
  change (with_points (Some l') w) with (with_points (Some l') w0).
  rewrite !calculate_mos_eq.
  change (cell_parameters_read read (with_points (Some l') w0))
    with (cell_parameters_read read w0).
  destruct (cell_parameters_read read w0) as [e|arr]; [reflexivity|].
  change (geometries (config (with_points (Some l') w0))) with (geometries (config w)).
  change (geometries (config w0)) with (geometries (config w)).
  rewrite (for_each_with_points arr _ _ w0 points l' eq_refl).
  - destruct (for_each _ _ _ w0) as [[e|acc] w1]; reflexivity.
  - intros j gs Hin. apply enumerate_at_bounds in Hin.
    apply mem_int_filter. unfold in_trajectory.
    change (enumerate_from (config w0)) with (enumerate_from (config w)).
    apply andb_true_intro. split; [apply Z.leb_le|apply Z.ltb_lt]; lia.
Qed.

(** C8, as stated, fails: with two geometries, numbered 0 and 1, and the
    restart point 7, [calculate_mos] raises nothing and prepares the jobs
    of both points. *)
Lemma out_of_range_restart_point_raises_nothing :
  let w := Inputs.world_with (Inputs.config_with (Some [7]) true) ∅ [] in
  in_trajectory (config w) 7 = false /\
  (exists orbitals energies,
      fst (calculate_mos Inputs.read_cells w) = inr (orbitals, energies) /\
      length orbitals = 2%nat /\ length energies = 2%nat) /\
  length (prepared (snd (calculate_mos Inputs.read_cells w))) = 3%nat.
Proof.
  split; [reflexivity|]. split; [|reflexivity].
  eexists _, _. split; [vm_compute; reflexivity|]. split; reflexivity.
Qed.

(** ** Points that are already stored *)

(** C1, evaluated where the code leaves it.  Only the energy is asked for
    and only the energy of point 0 is stored: the point is skipped, but what
    goes to the result is the pair of orbital paths, none of which is in
    the file, and the stored energy path goes nowhere. *)
Theorem stored_energy_point_yields_absent_orbital_paths (read : Reader) :
  let w := Inputs.world_with (Inputs.config_with (Some []) false) Inputs.energy_0_only [] in
  is_stored w 0 = true /\
  in_hdf5 (hdf5 w) "proj/point_0/cp2k/mo/energy" = true /\
  in_hdf5 (hdf5 w) "proj/point_0/cp2k/mo/eigenvalues" = false /\
  in_hdf5 (hdf5 w) "proj/point_0/cp2k/mo/coefficients" = false /\
  exists d p,
    fst (calculate_mos read w)
    = inr ([node_paths ["proj/point_0/cp2k/mo/eigenvalues";
                        "proj/point_0/cp2k/mo/coefficients"]%string;
            no_orbitals],
           [stored_enery d p]) /\
    k d = 1.
Proof.
  repeat (split; [reflexivity|]).
  eexists _, _. split; [vm_compute; reflexivity|reflexivity].
Qed.

(** C6, evaluated where the code leaves it.  The orbitals of point 0 are
    stored and those of point 1 are not: the list of orbitals gets an entry
    for each of the two points, the list of energies one for point 1 only. *)
Theorem stored_point_has_no_energy_entry (read : Reader) :
  let w := Inputs.world_with (Inputs.config_with (Some []) true) Inputs.orbitals_0_only [] in
  is_stored w 0 = true /\ is_stored w 1 = false /\
  exists d p,
    fst (calculate_mos read w)
    = inr ([node_paths ["proj/point_0/cp2k/mo/eigenvalues";
                        "proj/point_0/cp2k/mo/coefficients"]%string;
            stored_MOs d p],
           [stored_enery d p]) /\
    k d = 1.
Proof.
  repeat (split; [reflexivity|]).
  eexists _, _. split; [vm_compute; reflexivity|reflexivity].
Qed.

(** ** Restart points *)

(** C4, as amended.  At a point that is listed as a restart point and is
    not stored, a job with the guess settings is prepared first, with the
    current guess handle as its guess (the promise of the previous point
    when there is one); the main job of the point is prepared next, with
    that guess job as its guess. *)
Theorem restart_point_prepares_guess_job_from_current_handle
    (array_cell_parameters : option (list (list Q)))
    (acc acc' : Locals) (j : Z) (gs : string) (w w' : World) (points : list Z) :
  calc_new_wf_guess_on_points (config w) = Some points ->
  mem_int (j + enumerate_from (config w)) points = true ->
  is_stored w (j + enumerate_from (config w)) = false ->
  calculate_mos_point array_cell_parameters acc (j, gs) w = (inr acc', w') ->
  exists point_dir,
    getitem (folders (config w)) j = inr point_dir /\
    let d := dict_input_of (config w) j gs point_dir in
    let general := cp2k_general_settings (config w') in
    let guess := job (cp2k_settings_guess general) d (current_guess_job acc) in
    let main := job (cp2k_settings_main general) d (Some guess) in
    prepared w' = prepared w ++ [guess; main] /\
    current_guess_job acc' = Some (checked main d) /\
    energies_list acc' = energies_list acc ++ [stored_enery d (checked main d)].
Proof.
  intros Hp Hm Hs. rewrite (calculate_mos_point_scheduled _ _ _ _ _ Hs). cbv zeta.
  destruct (cell_step _ _ _) as [[e|[]] w2] eqn:E2; [discriminate|].
  apply cell_step_static in E2. destruct E2 as (Hc & _ & Hprep & _).
  apply static_fields in Hc. destruct Hc as (_ & _ & _ & _ & Hp2 & _).
  destruct (getitem _ j) as [e|pd]; [discriminate|].
  rewrite (compute_orbitals_eq _ _ w2 points); [|rewrite Hp2; exact Hp].
  cbv zeta. change (k (dict_input_of (config w) j gs pd)) with (j + enumerate_from (config w)).
  rewrite Hm. simpl. intros [= <- <-]. exists pd. split; [reflexivity|].
  simpl. rewrite Hprep. simpl. auto.
Qed.

(** C4, as stated, fails: with the restart point 1 and nothing stored, the
    main job of point 1 has a guess, namely a guess job of point 1 whose own
    guess is the checked promise of point 0. *)
Lemma restart_point_job_has_a_guess :
  let w := Inputs.world_with (Inputs.config_with (Some [1]) true) ∅ [] in
  mem_int 1 [1] = true /\ is_stored w 1 = false /\
  exists s d s' p0 d0,
    nth_error (prepared (snd (calculate_mos Inputs.read_cells w))) 3
    = Some (job s d (Some (job s' d (Some (checked p0 d0))))) /\
    k d = 1 /\ k d0 = 0 /\
    s = Inputs.settings_main /\ s' = Inputs.settings_guess.
Proof.
  split; [reflexivity|]. split; [reflexivity|].
  eexists _, _, _, _, _. split; [vm_compute; reflexivity|]. repeat split.
Qed.

Lemma restart_point_witness :
  let w := Inputs.world_with (Inputs.config_with (Some [1]) true) ∅ [] in
  exists acc w0 p0 acc' w' point_dir,
    calculate_mos_point None (mkLocals [] [] None) (0, "geometry 0"%string) w
    = (inr acc, w0) /\
    current_guess_job acc = Some p0 /\
    calculate_mos_point None acc (1, "geometry 1"%string) w0 = (inr acc', w') /\
    getitem (folders (config w0)) 1 = inr point_dir /\
    let d := dict_input_of (config w0) 1 "geometry 1" point_dir in
    let general := cp2k_general_settings (config w') in
    let guess := job (cp2k_settings_guess general) d (Some p0) in
    let main := job (cp2k_settings_main general) d (Some guess) in
    prepared w' = prepared w0 ++ [guess; main] /\
    current_guess_job acc' = Some (checked main d) /\
    energies_list acc' = energies_list acc ++ [stored_enery d (checked main d)].
Proof.
  intros w.
  destruct (calculate_mos_point None (mkLocals [] [] None) (0, "geometry 0"%string) w)
    as [r0 w0] eqn:E0.
  assert (H0 : exists d0 p0,
             r0 = inr (mkLocals [stored_MOs d0 p0] [stored_enery d0 p0] (Some p0))
             /\ config w0 = config w /\ hdf5 w0 = hdf5 w).
  { apply (f_equal (fun x => (fst x, snd x))) in E0. simpl in E0.
    injection E0 as <- <-. vm_compute. eauto. }
  destruct H0 as (d0 & p0 & -> & Hc & Hh).
  set (acc := mkLocals [stored_MOs d0 p0] [stored_enery d0 p0] (Some p0)) in *.
  destruct (calculate_mos_point None acc (1, "geometry 1"%string) w0) as [r w'] eqn:E.
  assert (Hs : is_stored w0 (1 + enumerate_from (config w0)) = false).
  { unfold is_stored. rewrite Hc, Hh. reflexivity. }
  assert (Hr : exists a, r = inr a).
  { apply (f_equal fst) in E. cbn [fst] in E. subst r.
    rewrite (calculate_mos_point_scheduled _ _ _ _ _ Hs). cbv zeta.
    cbn [cell_step]. unfold ret. rewrite Hc.
    change (getitem (folders (config w)) 1) with (@inr Exn string "/scratch/point_1").
    cbv iota.
    rewrite (compute_orbitals_eq _ _ _ [1]) by (cbn [config set_logged]; now rewrite Hc).
    cbv zeta. destruct (_ || _); eauto. }
  destruct Hr as [acc' ->].
  assert (Hp : calc_new_wf_guess_on_points (config w0) = Some [1]) by now rewrite Hc.
  assert (Hm : mem_int (1 + enumerate_from (config w0)) [1] = true) by now rewrite Hc.
  destruct (restart_point_prepares_guess_job_from_current_handle
              None acc acc' 1 "geometry 1" w0 w' [1] Hp Hm Hs E)
    as (pd & H).
  exists acc, w0, p0, acc', w', pd.
  split; [reflexivity|]. split; [reflexivity|]. split; [exact E|]. exact H.
Defined.

(** ** Guess propagation *)

Lemma calculate_mos_point_no_restart arr acc j gs w acc1 w1 :
  calc_new_wf_guess_on_points (config w) = Some [] ->
  is_stored w (j + enumerate_from (config w)) = false ->
  calculate_mos_point arr acc (j, gs) w = (inr acc1, w1) ->
  exists point_dir s g item,
    let d := dict_input_of (config w) j gs point_dir in
    acc1 = mkLocals (orbitals_list acc ++ [item])
             (energies_list acc ++ [stored_enery d (checked (job s d g) d)])
             (Some (checked (job s d g) d)) /\
    (forall h, current_guess_job acc = Some h -> g = Some h) /\
    specific s = specific (cp2k_settings_main (cp2k_general_settings (config w))).
Proof.
  intros Hp Hs. rewrite (calculate_mos_point_scheduled _ _ _ _ _ Hs). cbv zeta.
  destruct (cell_step _ _ _) as [[e|[]] w2] eqn:E2; [discriminate|].
  apply cell_step_static in E2. destruct E2 as (Hc & _).
  apply static_fields in Hc.
  destruct Hc as (_ & _ & _ & _ & Hp2 & _ & _ & _ & _ & Hm & _).
  destruct (getitem _ j) as [e|pd]; [discriminate|].
  rewrite (compute_orbitals_eq _ _ w2 []); [|rewrite Hp2; exact Hp].
  cbv zeta. simpl (mem_int _ [] || _).
  destruct (current_guess_job acc) as [h|] eqn:Eg; simpl; intros [= <- <-].
  - eexists pd, _, _, _. split; [reflexivity|]. split; [now intros ? [= ->]|exact Hm].
  - eexists pd, _, _, _. split; [reflexivity|]. split; [discriminate|exact Hm].
Qed.

Lemma well_chained_static c c' es :
  static c' = static c -> well_chained c es -> well_chained c' es.
Proof.
  intros H. apply static_fields in H.
  destruct H as (_ & _ & _ & _ & _ & He & _ & _ & _ & Hm & _).
  unfold well_chained. now rewrite He, Hm.
Qed.

Lemma well_chained_snoc cfg es d s g :
  well_chained cfg es ->
  k d = Z.of_nat (length es) + enumerate_from cfg ->
  specific s = specific (cp2k_settings_main (cp2k_general_settings cfg)) ->
  (forall e, last es = Some e -> g = Some (handle_of e)) ->
  well_chained cfg (es ++ [stored_enery d (checked (job s d g) d)]).
Proof.
  intros [H1 H2] Hk Hs Hg. split.
  - intros i d' p' Hi.
    destruct (Nat.lt_ge_cases i (length es)) as [Hlt|Hge].
    + rewrite nth_error_app1 in Hi by exact Hlt. eauto.
    + rewrite nth_error_app2 in Hi by exact Hge.
      destruct (i - length es)%nat as [|n] eqn:En; simpl in Hi.
      * injection Hi as <- <-. replace i with (length es) by lia. eauto.
      * destruct n; discriminate.
  - intros i d1 p1 d2 p2 Hi HSi.
    destruct (Nat.lt_ge_cases (S i) (length es)) as [Hlt|Hge].
    + rewrite nth_error_app1 in Hi by lia. rewrite nth_error_app1 in HSi by exact Hlt.
      eauto.
    + rewrite nth_error_app2 in HSi by exact Hge.
      destruct (S i - length es)%nat as [|n] eqn:En; simpl in HSi.
      * injection HSi as <- <-.
        assert (Hl : S i = length es) by lia.
        rewrite nth_error_app1 in Hi by lia.
        assert (Hlast : last es = Some (stored_enery d1 p1)).
        { clear - Hi Hl. revert i Hi Hl. induction es as [|a es IH]; intros i Hi Hl;
            [discriminate|].
          destruct es as [|b es].
          - destruct i; [simpl in Hi; now injection Hi as ->|simpl in Hl; lia].
          - destruct i as [|i]; [simpl in Hl; lia|].
            simpl in Hi, Hl. apply (IH i); [exact Hi|simpl; lia]. }
        rewrite (Hg _ Hlast). simpl. eauto.
      * destruct n; discriminate.
Qed.

Lemma for_each_no_restart arr gss :
  forall acc w acc' w',
    calc_new_wf_guess_on_points (config w) = Some [] ->
    (forall j gs,
        In (j, gs) (enumerate_at (Z.of_nat (length (energies_list acc))) gss) ->
        is_stored w (j + enumerate_from (config w)) = false) ->
    well_chained (config w) (energies_list acc) ->
    (forall e, last (energies_list acc) = Some e ->
               current_guess_job acc = Some (handle_of e)) ->
    for_each (enumerate_at (Z.of_nat (length (energies_list acc))) gss)
      (calculate_mos_point arr) acc w = (inr acc', w') ->
    well_chained (config w) (energies_list acc') /\
    length (energies_list acc') = (length (energies_list acc) + length gss)%nat.
Proof.
  induction gss as [|gs gss IH]; intros acc w acc' w' Hp Hs Hw Hg H.
  - injection H as <- <-. split; [exact Hw|simpl; lia].
  - cbn [enumerate_at for_each] in H. apply bind_inv in H.
    destruct H as (acc1 & w1 & Hpoint & Hrest).
    pose proof (calculate_mos_point_static _ _ _ _ _ _ Hpoint) as (Hc & Hh).
    pose proof (static_fields _ _ Hc) as (_ & _ & _ & _ & Hp1 & He1 & _).
    assert (Hs0 : is_stored w (Z.of_nat (length (energies_list acc))
                               + enumerate_from (config w)) = false).
    { apply (Hs _ gs). now left. }
    destruct (calculate_mos_point_no_restart _ _ _ _ _ _ _ Hp Hs0 Hpoint)
      as (pd & s & g & item & Hacc & Hgh & Hspec).
    cbv zeta in Hacc. subst acc1.
    set (d := dict_input_of (config w) (Z.of_nat (length (energies_list acc))) gs pd) in *.
    set (e := stored_enery d (checked (job s d g) d)) in *.
    assert (Hlen : Z.of_nat (length (energies_list acc)) + 1
                   = Z.of_nat (length (energies_list acc ++ [e]))).
    { rewrite length_app. simpl. lia. }
    rewrite Hlen in Hrest.
    destruct (IH (mkLocals (orbitals_list acc ++ [item]) (energies_list acc ++ [e])
                    (Some (checked (job s d g) d))) w1 acc' w') as [Hw' Hl'].
    + now rewrite Hp1.
    + intros j gs' Hin. cbn [energies_list] in Hin. rewrite <- Hlen in Hin.
      rewrite (is_stored_static w w1 _ Hc Hh), He1.
      apply (Hs j gs'). now right.
    + cbn [energies_list]. apply (well_chained_static (config w)); [exact Hc|].
      apply well_chained_snoc; [exact Hw|reflexivity|exact Hspec|].
      intros e' He'. apply Hgh. now apply Hg.
    + cbn [energies_list current_guess_job]. intros e' He'.
      rewrite last_snoc in He'. now injection He' as <-.
    + exact Hrest.
    + split.
      * apply (well_chained_static (config w1)); [now symmetry|exact Hw'].
      * rewrite Hl'. cbn [energies_list]. rewrite length_app. simpl. lia.
Qed.

(** C2.  In a run of [calculate_mos] with an empty list of restart points
    and no stored point, [energies] has one entry per geometry; entry [i]
    belongs to point [i + enumerate_from] and holds the checked promise of
    the main job of that point; and the main job of the next point has
    exactly that promise as its guess. *)
Theorem guess_propagation
    (read : Reader)
    (w w' : World) (orbitals : list OrbitalItem) (energies : list EnergyItem) :
  calc_new_wf_guess_on_points (config w) = Some [] ->
  (forall i, in_trajectory (config w) i = true -> is_stored w i = false) ->
  calculate_mos read w = (inr (orbitals, energies), w') ->
  length energies = length (geometries (config w)) /\
  (forall i d p, nth_error energies i = Some (stored_enery d p) ->
     k d = Z.of_nat i + enumerate_from (config w) /\
     exists s g, p = checked (job s d g) d /\
       specific s = specific (cp2k_settings_main (cp2k_general_settings (config w)))) /\
  (forall i d1 p1 d2 p2,
     nth_error energies i = Some (stored_enery d1 p1) ->
     nth_error energies (S i) = Some (stored_enery d2 p2) ->
     exists s, p2 = checked (job s d2 (Some p1)) d2).
Proof.
  intros Hp Hs H. apply calculate_mos_inv in H.
  destruct H as (arr & acc & _ & Hloop & -> & ->).
  destruct (for_each_no_restart arr (geometries (config w)) (mkLocals [] [] None)
              w acc w')
    as [Hw Hl].
  - exact Hp.
  - intros j gs Hin. apply Hs. apply enumerate_at_bounds in Hin.
    unfold in_trajectory. cbn [energies_list length] in Hin.
    apply andb_true_intro. split; [apply Z.leb_le|apply Z.ltb_lt]; lia.
  - split; intros [|i]; discriminate.
  - discriminate.
  - exact Hloop.
  - split; [exact Hl|exact Hw].
Qed.

Lemma guess_propagation_witness :
  let w := Inputs.world_with (Inputs.config_with (Some []) true) ∅ [] in
  exists orbitals energies,
    fst (calculate_mos Inputs.read_cells w) = inr (orbitals, energies) /\
    length energies = length (geometries (config w)) /\
    (forall i d1 p1 d2 p2,
        nth_error energies i = Some (stored_enery d1 p1) ->
        nth_error energies (S i) = Some (stored_enery d2 p2) ->
        exists s, p2 = checked (job s d2 (Some p1)) d2).
Proof.
  intros w.
  destruct (calculate_mos Inputs.read_cells w) as [r w'] eqn:E.
  assert (Hr : exists a b, r = inr (a, b)).
  { apply (f_equal fst) in E. simpl in E. subst r. vm_compute. eauto. }
  destruct Hr as (orbitals & energies & ->).
  assert (Hs : forall i, in_trajectory (config w) i = true -> is_stored w i = false).
  { intros i Hi. unfold in_trajectory in Hi. apply andb_prop in Hi.
    destruct Hi as [H0 H1]. apply Z.leb_le in H0. apply Z.ltb_lt in H1.
    simpl in H0, H1.
    assert (Hi : i = 0 \/ i = 1) by lia. destruct Hi as [-> | ->]; reflexivity. }
  destruct (guess_propagation Inputs.read_cells w w' orbitals energies eq_refl Hs E)
    as (Hl & _ & Hc).
  exists orbitals, energies. split; [reflexivity|]. split; [exact Hl|exact Hc].
Defined.

(** ** The existence check on a composite key *)

Lemma in_hdf5_true f5 path : in_hdf5 f5 path = true <-> is_Some (f5 !! path).
Proof. unfold in_hdf5. apply bool_decide_eq_true. Qed.


Lemma is_data_in_hdf5_many f5 paths :
  is_data_in_hdf5 f5 (ManyKeys paths) = true <->
  forall path, In path paths -> is_Some (f5 !! path).
Proof.
  unfold is_data_in_hdf5. rewrite forallb_forall.
  split; intros H path Hin; apply in_hdf5_true; auto.
Qed.

Lemma nac_search_data_in_hdf5_Some a f5 i paths :
  Nac.search_data_in_hdf5 a f5 i = Some paths <->
  paths = Nac.create_properties_path a i /\
  forall path, In path (Nac.create_properties_path a i) -> is_Some (f5 !! path).
Proof.
  unfold Nac.search_data_in_hdf5.
  destruct (forallb _ _) eqn:E.
  - rewrite forallb_forall in E. split.
    + intros [= <-]. split; [reflexivity|]. intros path Hin. apply in_hdf5_true; auto.
    + now intros [-> _].
  - split; [discriminate|]. intros [_ H]. exfalso.
    assert (forallb (in_hdf5 f5) (Nac.create_properties_path a i) = true); [|congruence].
    apply forallb_forall. intros path Hin. apply in_hdf5_true; auto.
Qed.




(** ** The folders of the points *)

Lemma missing_true fs r : os.missing fs r = true <-> os.stat fs r = None.
Proof. unfold os.missing. destruct (os.stat fs r); easy. Qed.

Lemma existsb_all_false {A} (f : A -> bool) l :
  (forall a, In a l -> f a = false) -> existsb f l = false.
Proof.
  intros H. induction l as [|a l IH]; [reflexivity|]. simpl.
  rewrite (H a) by now left. apply IH. intros b Hb. apply H. now right.
Qed.

Lemma point_path_not_root work_dir k : point_path work_dir k <> [].
Proof. unfold point_path. now destruct (os.resolve work_dir). Qed.

Lemma point_path_length work_dir k :
  length (point_path work_dir k) = S (length (os.resolve work_dir)).
Proof. unfold point_path. rewrite length_app. simpl. lia. Qed.

Lemma point_path_ancestors work_dir k :
  os.ancestors (point_path work_dir k) = prefixes (os.resolve work_dir).
Proof. apply ancestors_snoc. Qed.

Lemma under_other_point work_dir k k' r :
  k <> k' -> os.under (point_path work_dir k') r = true ->
  os.under (point_path work_dir k) r = false.
Proof.
  intros Hk Hu. destruct (os.under (point_path work_dir k) r) eqn:E; [|reflexivity].
  exfalso. apply Hk. apply point_name_inj. exact (under_snoc_inj _ _ _ _ E Hu).
Qed.

Lemma nanoqm_folder_step_eq work_dir folders k fs :
  let q := point_path work_dir k in
  os.is_file fs q = false ->
  can_hold_folders fs work_dir ->
  nanoqm_folder_step work_dir folders k fs
  = (inr (folders ++ [join work_dir [point_name k]]),
     created (if os.missing fs q then fs else cleared fs q) q).
Proof.
  intros q Hq Hanc.
  assert (Hne : q <> []) by apply point_path_not_root.
  unfold nanoqm_folder_step, os.path.exists_, shutil.rmtree, os.makedirs.
  change ("point_" +:+ str_of_int k) with (point_name k).
  mred. rewrite resolve_point_folder. fold q.
  destruct (os.missing fs q) eqn:Em; cbn [negb].
  - rewrite Em. cbn [negb]. rewrite existsb_all_false; [reflexivity|].
    unfold q. rewrite point_path_ancestors. exact Hanc.
  - unfold os.is_file in Hq. unfold os.missing in Em.
    destruct (os.stat fs q) as [[c|]|] eqn:Es; try discriminate.
    fold (cleared fs q).
    assert (Hm : os.missing (cleared fs q) q = true).
    { apply missing_true. rewrite (stat_cleared _ _ _ Hne). now rewrite under_refl. }
    rewrite Hm. cbn [negb]. rewrite existsb_all_false; [reflexivity|].
    intros a Ha. apply (is_file_cleared _ _ _ Hne). apply Hanc.
    unfold q in Ha. now rewrite point_path_ancestors in Ha.
Qed.

Lemma nac_folder_step_eq work_dir folders k fs :
  let q := point_path work_dir k in
  can_hold_folders fs work_dir ->
  nac_folder_step work_dir folders k fs
  = (inr (folders ++ [join work_dir [point_name k]]),
     if os.missing fs q then created fs q else fs).
Proof.
  intros q Hanc.
  unfold nac_folder_step, os.path.exists_, os.makedirs.
  change ("point_" +:+ str_of_int k) with (point_name k).
  mred. rewrite resolve_point_folder. fold q.
  destruct (os.missing fs q) eqn:Em; cbn [negb]; [|reflexivity].
  rewrite Em. cbn [negb]. rewrite existsb_all_false; [reflexivity|].
  unfold q. rewrite point_path_ancestors. exact Hanc.
Qed.

(** What one round of the loop of [Nanoqm.create_point_folder] does to the
    disk. *)
Lemma recreated_facts fs work_dir k :
  let q := point_path work_dir k in
  let fs2 := created (if os.missing fs q then fs else cleared fs q) q in
  (os.missing fs q = true ->
   forall r, os.under q r = true -> os.stat fs r = None) ->
  (forall a, os.is_file fs a = false -> os.is_file fs2 a = false) /\
  (forall r, (length (os.resolve work_dir) < length r)%nat -> os.under q r = false ->
             os.stat fs2 r = os.stat fs r) /\
  os.stat fs2 q = Some os.Dir /\
  (forall r, os.under q r = true -> r <> q -> os.stat fs2 r = None).
Proof.
  intros q fs2 Horphan.
  assert (Hne : q <> []) by apply point_path_not_root.
  assert (Hlen : length q = S (length (os.resolve work_dir)))
    by apply point_path_length.
  set (fs1 := if os.missing fs q then fs else cleared fs q) in *.
  assert (H1 : forall r, os.under q r = false -> os.stat fs1 r = os.stat fs r).
  { intros r Hr. unfold fs1. destruct (os.missing fs q); [reflexivity|].
    now rewrite (stat_cleared _ _ _ Hne), Hr. }
  assert (H2 : forall r, os.under q r = true -> os.stat fs1 r = None).
  { intros r Hr. unfold fs1. destruct (os.missing fs q) eqn:Em.
    - now apply Horphan.
    - now rewrite (stat_cleared _ _ _ Hne), Hr. }
  assert (Hanc : forall r, (length (os.resolve work_dir) < length r)%nat ->
                           ~ In r (os.ancestors q)).
  { intros r Hr Hin. apply ancestors_bound in Hin. lia. }
  repeat split.
  - intros a Ha. unfold fs2. rewrite is_file_created. unfold fs1.
    destruct (os.missing fs q); [exact Ha|now apply is_file_cleared].
  - intros r Hr Hu. unfold fs2. rewrite <- (H1 r Hu).
    destruct (os.stat fs1 r) as [n|] eqn:E.
    + now apply stat_created_old.
    + apply stat_created_other; [exact E| |now apply Hanc].
      intros ->. now rewrite under_refl in Hu.
  - apply stat_created_self; [exact Hne|]. apply H2, under_refl.
  - intros r Hu Hr. apply stat_created_other; [now apply H2|exact Hr|].
    apply Hanc. apply under_length in Hu. lia.
Qed.



Lemma range_NoDup lo hi : List.NoDup (range lo hi).
Proof.
  unfold range. apply Injective_map_NoDup; [|apply List.seq_NoDup].
  intros i j H. lia.
Qed.



Lemma no_orphans fs q r :
  parents_exist fs -> q <> [] -> os.missing fs q = true -> os.under q r = true ->
  os.stat fs r = None.
Proof.
  intros Hp Hq Hm Hu. apply missing_true.
  destruct (os.missing fs r) eqn:Er; [reflexivity|].
  destruct (decide (r = q)) as [->|Hne]; [congruence|].
  rewrite (Hp r q Er) in Hm; [discriminate|]. now apply in_ancestors_of_under.
Qed.

Lemma find_node_In fs r n : os.find_node fs r = Some n -> In (r, n) fs.
Proof.
  induction fs as [|[p m] fs IH]; simpl; [discriminate|].
  destruct (os.path_eqb p r) eqn:E.
  - apply path_eqb_eq in E. subst p. intros [= ->]. now left.
  - intros H. right. now apply IH.
Qed.

Lemma parents_exist_checked fs : parents_exist_check fs = true -> parents_exist fs.
Proof.
  unfold parents_exist_check. rewrite forallb_forall. intros H r a Hr Ha.
  destruct r as [|x r]; [destruct Ha|].
  unfold os.missing in Hr. cbn [os.stat] in Hr.
  destruct (os.find_node fs (x :: r)) as [n|] eqn:E; [|discriminate].
  apply find_node_In, H in E. cbn [fst] in E. rewrite forallb_forall in E.
  apply E in Ha. now destruct (os.missing fs a).
Qed.

Lemma nanoqm_folder_step_file work_dir folders k fs :
  os.is_file fs (point_path work_dir k) = true ->
  nanoqm_folder_step work_dir folders k fs = (inl NotADirectoryError, fs).
Proof.
  intros Hf. unfold nanoqm_folder_step, os.path.exists_, shutil.rmtree.
  change ("point_" +:+ str_of_int k) with (point_name k).
  mred. rewrite resolve_point_folder.
  unfold os.is_file in Hf. unfold os.missing.
  destruct (os.stat fs (point_path work_dir k)) as [[c|]|] eqn:E; try discriminate.
  cbn [negb]. cbv beta. now rewrite E.
Qed.

Lemma nanoqm_folders_loop_file work_dir ks :
  List.NoDup ks ->
  forall folders fs,
    can_hold_folders fs work_dir ->
    (forall k, In k ks -> os.missing fs (point_path work_dir k) = true ->
               forall r, os.under (point_path work_dir k) r = true ->
                         os.stat fs r = None) ->
    (exists k, In k ks /\ os.is_file fs (point_path work_dir k) = true) ->
    fst (for_each ks (nanoqm_folder_step work_dir) folders fs) = inl NotADirectoryError.
Proof.
  induction ks as [|k ks IH]; intros Hnd folders fs Hhold Horphan (k' & Hin & Hfile);
    [destruct Hin|].
  apply NoDup_cons_iff in Hnd. destruct Hnd as [Hk Hnd].
  cbn [for_each]. unfold bind.
  destruct (os.is_file fs (point_path work_dir k)) eqn:Ef.
  - now rewrite nanoqm_folder_step_file.
  - rewrite nanoqm_folder_step_eq; [|exact Ef|exact Hhold].
    destruct (recreated_facts fs work_dir k)
      as (F1 & F2 & F3 & F4); [apply Horphan; now left|].
    set (fs2 := created (if os.missing fs (point_path work_dir k)
                         then fs else cleared fs (point_path work_dir k))
                  (point_path work_dir k)) in *.
    pose proof (point_path_length work_dir) as Hlenp.
    assert (Hother : forall k2 r, In k2 ks ->
                                  os.under (point_path work_dir k2) r = true ->
                                  os.under (point_path work_dir k) r = false).
    { intros k2 r Hin2 Hu. apply (under_other_point _ k k2); [|exact Hu].
      intros ->. now apply Hk. }
    assert (Hin' : In k' ks).
    { destruct Hin as [<-|Hin]; [congruence|exact Hin]. }
    apply IH.
    + exact Hnd.
    + intros a Ha. apply F1. now apply Hhold.
    + intros k2 Hin2 Hm r Hu. rewrite F2.
      * apply (Horphan k2); [now right| |exact Hu].
        apply missing_true. apply missing_true in Hm.
        rewrite F2 in Hm; [exact Hm|rewrite Hlenp; lia|].
        apply (Hother k2 _ Hin2), under_refl.
      * apply under_length in Hu. rewrite Hlenp in Hu. lia.
      * now apply (Hother k2).
    + exists k'. split; [exact Hin'|].
      unfold os.is_file. rewrite F2.
      * exact Hfile.
      * rewrite Hlenp. lia.
      * apply (Hother k' _ Hin'), under_refl.
Qed.




(** ** Removing the orbitals that CP2K printed *)

Lemma set_disk_same w : set_disk (disk w) w = w.
Proof. now destruct w. Qed.

Lemma listdir_disk dir fs : snd (os.listdir dir fs) = fs.
Proof. unfold os.listdir. now destruct (os.stat fs (os.resolve dir)) as [[|]|]. Qed.

Lemma remove_first_match_eq pat dir w :
  remove_first_match pat dir w =
  match fst (os.listdir dir (disk w)) with
  | inl e => (inl e, w)
  | inr names =>
      match getitem (fnmatch.filter names pat) 0 with
      | inl e => (inl e, w)
      | inr name =>
          match os.stat (disk w) (os.resolve (join dir [name])) with
          | None => (inl FileNotFoundError, w)
          | Some os.Dir => (inl IsADirectoryError, w)
          | Some (os.File _) =>
              (inr tt, set_disk (without (disk w) (os.resolve (join dir [name]))) w)
          end
      end
  end.
Proof.
  unfold remove_first_match, on_disk. mred.
  pose proof (listdir_disk dir (disk w)) as Hd.
  destruct (os.listdir dir (disk w)) as [[e|names] fs]; cbn [fst snd] in *; subst fs;
    rewrite set_disk_same; [reflexivity|].
  destruct (getitem _ 0) as [e|name]; [reflexivity|].
  unfold os.remove. cbn [disk set_disk].
  destruct (os.stat (disk w) _) as [[c|]|]; cbn [set_disk]; try reflexivity;
    now rewrite set_disk_same.
Qed.

Lemma remove_first_match_logged pat dir w :
  logged (snd (remove_first_match pat dir w)) = logged w.
Proof.
  rewrite remove_first_match_eq.
  destruct (fst (os.listdir dir (disk w))) as [e|names]; [reflexivity|].
  destruct (getitem _ 0) as [e|name]; [reflexivity|].
  now destruct (os.stat (disk w) _) as [[c|]|].
Qed.

Lemma store_MOs_eq store d r w :
  store_MOs store d r w =
  match persist_MOs store d r w with
  | (out, w1) =>
      match remove_first_match "mo_*MOLog" (work_dir r) w1 with
      | (inl e, w2) => (inl e, w2)
      | (inr _, w2) =>
          (match out with
           | inl e => inl e
           | inr _ => inr (node_MOs d)
           end, w2)
      end
  end.
Proof.
  unfold store_MOs, try_finally. unfold bind at 1.
  fold (persist_MOs store d r). fold (remove_first_match "mo_*MOLog" (work_dir r)).
  destruct (persist_MOs store d r w) as [out w1].
  destruct (remove_first_match _ _ w1) as [[e|[]] w2]; [reflexivity|].
  now destruct out.
Qed.

Lemma persist_MOs_logged store d r w :
  logged (snd (persist_MOs store d r w)) = logged w.
Proof.
  unfold persist_MOs, dump_orbitals_to_hdf5, write_hdf5. mred. cbn [config].
  destruct (store _ _ _) as [e|f5]; [reflexivity|]. cbn [hdf5 set_hdf5].
  now destruct (store _ _ _) as [e|f5'].
Qed.

(** C9, as amended.  [store_MOs] hands the orbitals to the persistence step
    and then, whether or not that step raised, removes the first entry of
    the working directory of the job that matches [mo_*MOLog].  Nothing
    guards the removal: when the directory cannot be listed, or lists no
    such entry, the exception (for no such entry, [IndexError]) is what
    [store_MOs] raises; when the entry is a file, it is removed and
    [store_MOs] ends as the persistence step did, with the node paths of
    the orbitals as its value.  In no case is anything logged. *)
Theorem store_MOs_removal_is_not_guarded
    (store : gmap string Data -> string -> Data -> Exn + gmap string Data)
    (d : DictInput) (r : Result) (w : World) :
  let persisted := persist_MOs store d r w in
  let w1 := snd persisted in
  (forall e, fst (os.listdir (work_dir r) (disk w1)) = inl e ->
             store_MOs store d r w = (inl e, w1)) /\
  (forall names, fst (os.listdir (work_dir r) (disk w1)) = inr names ->
     (fnmatch.filter names "mo_*MOLog" = [] ->
      store_MOs store d r w = (inl IndexError, w1)) /\
     (forall name rest,
         fnmatch.filter names "mo_*MOLog" = name :: rest ->
         os.is_file (disk w1) (os.resolve (join (work_dir r) [name])) = true ->
         store_MOs store d r w
         = (match fst persisted with
            | inl e => inl e
            | inr _ => inr (node_MOs d)
            end,
            set_disk (without (disk w1) (os.resolve (join (work_dir r) [name]))) w1))) /\
  logged (snd (store_MOs store d r w)) = logged w.
Proof.
  cbv zeta. rewrite store_MOs_eq.
  pose proof (persist_MOs_logged store d r w) as Hlog.
  destruct (persist_MOs store d r w) as [out w1]. cbn [fst snd] in *.
  pose proof (remove_first_match_logged "mo_*MOLog" (work_dir r) w1) as Hlog2.
  rewrite remove_first_match_eq in *.
  split; [|split].
  - intros e He. now rewrite He.
  - intros names Hn. rewrite Hn. split.
    + intros ->. reflexivity.
    + intros name rest -> Hf.
      change (getitem (name :: rest) 0) with (@inr Exn string name). cbv iota beta.
      unfold os.is_file in Hf.
      destruct (os.stat (disk w1) _) as [[c|]|]; try discriminate. reflexivity.
  - destruct (fst (os.listdir (work_dir r) (disk w1))) as [e|names];
      [now rewrite <- Hlog|].
    destruct (getitem _ 0) as [e|name]; [now rewrite <- Hlog|].
    destruct (os.stat (disk w1) _) as [[c|]|]; cbn [snd] in *; congruence.
Qed.

(** C9, as stated, fails: the orbitals are persisted, the working directory
    holds no file [mo_*MOLog], and [store_MOs] raises [IndexError]; nothing
    is logged. *)
Lemma missing_orbital_log_is_raised :
  let w := Inputs.world_with (Inputs.config_with (Some []) true) ∅
             Inputs.disk_without_log in
  let out := store_MOs Inputs.write_once Inputs.input_0 Inputs.warned_result w in
  fst (os.listdir (work_dir Inputs.warned_result) (disk w)) = inr [] /\
  fst out = inl IndexError /\
  logged (snd out) = [] /\
  in_hdf5 (hdf5 (snd out)) "proj/point_0/cp2k/mo/eigenvalues" = true.
Proof. repeat split; reflexivity. Qed.

Lemma store_MOs_witness :
  let w := Inputs.world_with (Inputs.config_with (Some []) true) ∅
             Inputs.disk_with_log in
  let log := ["scratch"; "point_0"; "mo_coeff_0.out-1_0.MOLog"]%string in
  os.stat (disk w) log = Some (os.File "orbitals") /\
  exists w',
    store_MOs Inputs.write_once Inputs.input_0 Inputs.warned_result w
    = (inr (node_MOs Inputs.input_0), w') /\
    os.stat (disk w') log = None /\
    logged w' = logged w.
Proof.
  intros w log. split; [reflexivity|].
  destruct (store_MOs_removal_is_not_guarded Inputs.write_once Inputs.input_0
              Inputs.warned_result w) as (_ & H & Hlog).
  destruct (H ["mo_coeff_0.out-1_0.MOLog"%string] eq_refl) as [_ Hrm].
  specialize (Hrm "mo_coeff_0.out-1_0.MOLog"%string [] eq_refl eq_refl).
  eexists. split; [exact Hrm|]. split; [reflexivity|].
  rewrite Hrm in Hlog. exact Hlog.
Defined.

(** ** The check of a finished job *)

Lemma schedule_check_eq r d w :
  schedule_check r d w =
  if must_recompute (config w) (warnings r) then
    match remove_first_match "mo*MOLog" (point_dir d) (warned w d r) with
    | (inl e, w1) => (inl e, w1)
    | (inr _, w1) =>
        match calc_new_wf_guess_on_points (config w1) with
        | None => (inl AttributeError, w1)
        | Some points =>
            compute_orbitals d None (with_points (Some (points ++ [k d])) w1)
        end
    end
  else (inr (resolved r), w).
Proof.
  unfold schedule_check. mred.
  destruct (must_recompute (config w) (warnings r)); [|reflexivity].
  unfold remove_first_match, append_guess_point. mred.
  match goal with
  | |- context [on_disk (os.listdir (point_dir d)) ?x] =>
      change x with (warned w d r)
  end.
  destruct (on_disk (os.listdir (point_dir d)) (warned w d r)) as [[e|names] w1];
    [reflexivity|].
  destruct (getitem _ 0) as [e|name]; [reflexivity|].
  destruct (on_disk (os.remove _) w1) as [[e|[]] w2]; [reflexivity|].
  destruct (calc_new_wf_guess_on_points (config w2)); reflexivity.
Qed.

Lemma remove_first_match_config pat dir w :
  config (snd (remove_first_match pat dir w)) = config w /\
  prepared (snd (remove_first_match pat dir w)) = prepared w /\
  submitted (snd (remove_first_match pat dir w)) = submitted w /\
  hdf5 (snd (remove_first_match pat dir w)) = hdf5 w.
Proof.
  rewrite remove_first_match_eq.
  destruct (fst (os.listdir dir (disk w))) as [e|names]; [auto|].
  destruct (getitem _ 0) as [e|name]; [auto|].
  now destruct (os.stat (disk w) _) as [[c|]|].
Qed.

Lemma must_recompute_false cfg ws :
  must_recompute cfg ws = false <->
  ignore_warnings cfg = true \/
  ws = None \/
  exists items, ws = Some items /\
    forall msg wn, In (msg, wn) items -> wn <> SCF_Convergence_Warning.
Proof.
  unfold must_recompute. destruct (ignore_warnings cfg); simpl; [tauto|].
  destruct ws as [items|]; [|tauto].
  unfold any_SCF_Convergence_Warning. split.
  - intros H. right. right. exists items. split; [reflexivity|].
    intros msg wn Hin ->.
    assert (existsb (fun it => is_SCF_Convergence_Warning (snd it)) items = true);
      [|congruence].
    apply existsb_exists. now exists (msg, SCF_Convergence_Warning).
  - intros [H|[H|(items' & [= <-] & H)]]; try discriminate.
    apply existsb_all_false. intros [msg wn] Hin. specialize (H msg wn Hin).
    now destruct wn.
Qed.

Lemma schedule_check_recomputes r d w names name rest points :
  must_recompute (config w) (warnings r) = true ->
  fst (os.listdir (point_dir d) (disk w)) = inr names ->
  fnmatch.filter names "mo*MOLog" = name :: rest ->
  os.is_file (disk w) (os.resolve (join (point_dir d) [name])) = true ->
  calc_new_wf_guess_on_points (config w) = Some points ->
  let d' := refresh_job_files d in
  let general := cp2k_general_settings (config w) in
  let guess := job (cp2k_settings_guess general) d' None in
  let main := job (cp2k_settings_main general) d' (Some guess) in
  let w1 := set_disk (without (disk w) (os.resolve (join (point_dir d) [name])))
              (warned w d r) in
  schedule_check r d w
  = (inr main,
     set_prepared (prepared w ++ [guess; main])
       (with_points (Some (points ++ [k d])) w1)).
Proof.
  intros Hm Hn Hf Hfile Hp. rewrite schedule_check_eq, Hm, remove_first_match_eq.
  change (disk (warned w d r)) with (disk w). rewrite Hn, Hf.
  change (getitem (name :: rest) 0) with (@inr Exn string name). cbv iota beta.
  unfold os.is_file in Hfile.
  destruct (os.stat (disk w) _) as [[c|]|]; try discriminate.
  change (calc_new_wf_guess_on_points (config (set_disk ?fs (warned w d r))))
    with (calc_new_wf_guess_on_points (config w)).
  rewrite Hp. cbv zeta.
  match goal with
  | |- compute_orbitals d None ?x = _ =>
      rewrite (compute_orbitals_eq d None x (points ++ [k d]) eq_refl)
  end.
  cbv zeta. rewrite orb_true_r. reflexivity.
Qed.

(** C5, as amended.  [schedule_check] returns the promise as it is, and
    changes nothing, if and only if the warnings are ignored or hold no SCF
    convergence warning (in particular when there are none).  Otherwise it
    logs three warnings and removes the first entry of the folder of the
    point that matches [mo*MOLog]; when that entry is a file and the list of
    restart points exists, the point is appended to the list and the result
    is the workflow of a new computation without guess: a guess job and,
    with it as guess, a main job.  When the folder lists no such entry,
    [schedule_check] raises [IndexError] and prepares no job. *)
Theorem schedule_check_accepts_or_recomputes (r : Result) (d : DictInput) (w : World) :
  (must_recompute (config w) (warnings r) = false <->
   ignore_warnings (config w) = true \/
   warnings r = None \/
   exists items, warnings r = Some items /\
     forall msg wn, In (msg, wn) items -> wn <> SCF_Convergence_Warning) /\
  (schedule_check r d w = (inr (resolved r), w) <->
   must_recompute (config w) (warnings r) = false) /\
  (must_recompute (config w) (warnings r) = true ->
   forall names, fst (os.listdir (point_dir d) (disk w)) = inr names ->
     (fnmatch.filter names "mo*MOLog" = [] ->
      schedule_check r d w = (inl IndexError, warned w d r)) /\
     (forall name rest points,
         fnmatch.filter names "mo*MOLog" = name :: rest ->
         os.is_file (disk w) (os.resolve (join (point_dir d) [name])) = true ->
         calc_new_wf_guess_on_points (config w) = Some points ->
         let d' := refresh_job_files d in
         let general := cp2k_general_settings (config w) in
         let guess := job (cp2k_settings_guess general) d' None in
         let main := job (cp2k_settings_main general) d' (Some guess) in
         let w1 := set_disk (without (disk w) (os.resolve (join (point_dir d) [name])))
                     (warned w d r) in
         schedule_check r d w
         = (inr main,
            set_prepared (prepared w ++ [guess; main])
              (with_points (Some (points ++ [k d])) w1)))).
Proof.
  split; [apply must_recompute_false|]. split.
  - rewrite schedule_check_eq.
    destruct (must_recompute (config w) (warnings r)) eqn:E; [|tauto].
    split; [|discriminate]. intros H. exfalso.
    pose proof (remove_first_match_config "mo*MOLog" (point_dir d) (warned w d r))
      as (Hc & _).
    destruct (remove_first_match _ _ _) as [[e|[]] w1]; [discriminate|].
    cbn [snd] in Hc.
    destruct (calc_new_wf_guess_on_points (config w1)) as [points|] eqn:Ep;
      [|discriminate].
    rewrite (compute_orbitals_eq d None (with_points (Some (points ++ [k d])) w1)
               (points ++ [k d]) eq_refl) in H.
    cbv zeta in H. rewrite orb_true_r in H. discriminate.
  - intros Hm names Hn. split.
    + intros Hf. rewrite schedule_check_eq, Hm, remove_first_match_eq.
      change (disk (warned w d r)) with (disk w). now rewrite Hn, Hf.
    + intros name rest points Hf Hfile Hp.
      exact (schedule_check_recomputes r d w names name rest points Hm Hn Hf Hfile Hp).
Qed.

(** C5, as stated, fails: the result has an SCF convergence warning, the
    warnings are not ignored, the folder of the point holds no file
    [mo*MOLog], and [schedule_check] raises [IndexError]: no job of a new
    computation is prepared. *)
Lemma rejected_job_without_log_prepares_nothing :
  let w := Inputs.world_with (Inputs.config_with (Some []) true) ∅
             Inputs.disk_without_log in
  let out := schedule_check Inputs.warned_result Inputs.input_0 w in
  must_recompute (config w) (warnings Inputs.warned_result) = true /\
  fst out = inl IndexError /\
  prepared (snd out) = [] /\
  calc_new_wf_guess_on_points (config (snd out)) = Some [].
Proof. repeat split; reflexivity. Qed.

Lemma schedule_check_witness :
  let w := Inputs.world_with (Inputs.config_with (Some []) true) ∅
             Inputs.disk_with_log in
  let d := Inputs.input_0 in
  let guess := job Inputs.settings_guess d None in
  let main := job Inputs.settings_main d (Some guess) in
  must_recompute (config w) (warnings Inputs.warned_result) = true /\
  exists w',
    schedule_check Inputs.warned_result d w = (inr main, w') /\
    prepared w' = [guess; main] /\
    calc_new_wf_guess_on_points (config w') = Some [0].
Proof.
  intros w d guess main. split; [reflexivity|].
  destruct (schedule_check_accepts_or_recomputes Inputs.warned_result d w)
    as (_ & _ & H).
  destruct (H eq_refl ["mo_coeff_0.out-1_0.MOLog"%string] eq_refl) as [_ Hre].
  specialize (Hre "mo_coeff_0.out-1_0.MOLog"%string [] [] eq_refl eq_refl eq_refl).
  eexists. split; [exact Hre|]. split; reflexivity.
Defined.

(** ** A job that never converges *)

Section NeverConverges.

Variable cp2k :
  Settings -> DictInput -> option Result -> os.FS -> (Exn + Result) * os.FS.

Lemma run_cp2k_eq s d g w r :
  fst (cp2k s d g (disk w)) = inr r ->
  run_cp2k cp2k s d g w = (inr r, after_cp2k cp2k s d g w).
Proof.
  intros H. unfold run_cp2k, on_disk, after_cp2k. mred. cbn [disk set_submitted].
  destruct (cp2k s d g (disk w)) as [out fs]. cbn [fst snd] in *. now subst out.
Qed.

Lemma run_fuel_job_resolved n s d g w :
  run_fuel cp2k (S (S n)) (job s d (option_map resolved g)) w = run_cp2k cp2k s d g w.
Proof.
  destruct g as [rg|]; [|reflexivity].
  cbn [option_map run_fuel]. unfold bind. reflexivity.
Qed.

Lemma run_fuel_fresh_workflow n s1 s2 d w :
  run_fuel cp2k (S (S n)) (job s1 d (Some (job s2 d None))) w
  = bind (run_cp2k cp2k s2 d None) (fun r => run_cp2k cp2k s1 d (Some r)) w.
Proof. reflexivity. Qed.

Lemma run_fuel_checked n p d w :
  run_fuel cp2k (S n) (checked p d) w
  = bind (run_fuel cp2k n p)
      (fun r => bind (schedule_check r d) (fun wf => run_fuel cp2k n wf)) w.
Proof. reflexivity. Qed.

Lemma must_recompute_true cfg r ws :
  ignore_warnings cfg = false -> warnings r = Some ws ->
  any_SCF_Convergence_Warning ws = true ->
  must_recompute cfg (warnings r) = true.
Proof. intros Hi -> Hw. unfold must_recompute. now rewrite Hi, Hw. Qed.

(** The check of a result with a convergence warning, followed by the run
    of the workflow it returns. *)
Lemma recompute_once n d r1 w points names name rest :
  never_converges cp2k ->
  ignore_warnings (config w) = false ->
  calc_new_wf_guess_on_points (config w) = Some points ->
  must_recompute (config w) (warnings r1) = true ->
  fst (os.listdir (point_dir d) (disk w)) = inr names ->
  fnmatch.filter names "mo*MOLog" = name :: rest ->
  os.is_file (disk w) (os.resolve (join (point_dir d) [name])) = true ->
  let d' := refresh_job_files d in
  let general := cp2k_general_settings (config w) in
  exists rg r2 w2,
    bind (schedule_check r1 d) (fun wf => run_fuel cp2k (S (S n)) wf) w = (inr r2, w2) /\
    submitted w2
    = submitted w ++ [mkSubmission (cp2k_settings_guess general) d' None;
                      mkSubmission (cp2k_settings_main general) d' (Some rg)] /\
    must_recompute (config w2) (warnings r2) = true /\
    calc_new_wf_guess_on_points (config w2) = Some (points ++ [k d]).
Proof.
  intros Hnc Hi Hp Hm Hn Hf Hfile d' general.
  pose proof (schedule_check_recomputes r1 d w names name rest points
                Hm Hn Hf Hfile Hp) as Hre.
  cbv zeta in Hre.
  fold d' general in Hre.
  set (w1 := set_prepared _ _) in Hre.
  unfold bind at 1. rewrite Hre. rewrite run_fuel_fresh_workflow.
  destruct (Hnc (cp2k_settings_guess general) d' None (disk w1))
    as (rg & wsg & Hrg & _).
  unfold bind. rewrite (run_cp2k_eq _ _ _ _ _ Hrg).
  set (w1' := after_cp2k cp2k _ _ _ w1).
  destruct (Hnc (cp2k_settings_main general) d' (Some rg) (disk w1'))
    as (r2 & ws2 & Hr2 & Hws2 & Hscf).
  rewrite (run_cp2k_eq _ _ _ _ _ Hr2).
  exists rg, r2, (after_cp2k cp2k (cp2k_settings_main general) d' (Some rg) w1').
  split; [reflexivity|]. split; [|split].
  - cbn. now rewrite <- app_assoc.
  - apply (must_recompute_true _ _ ws2); [exact Hi|exact Hws2|exact Hscf].
  - reflexivity.
Qed.

(** C3, as amended.  With a CP2K that always ends with an SCF convergence
    warning and leaves its printed orbitals in the folder of the point,
    warnings not ignored, the run of the checked job of a point invokes the
    solver with the main settings exactly twice: once for the job as it was
    prepared (after its guess job, when it has one) and once more after a
    guess job without guess.  The check is not applied to the second
    result: that result, although it carries the warning, is the value of
    the checked job; no exception is raised.  The point is appended to the
    list of restart points. *)
Theorem never_converging_job_runs_twice_and_is_accepted
    (d : DictInput) (g : option Result) (w : World) (points : list Z) :
  never_converges cp2k ->
  prints_orbitals cp2k (refresh_job_files d) ->
  ignore_warnings (config w) = false ->
  calc_new_wf_guess_on_points (config w) = Some points ->
  let d' := refresh_job_files d in
  let general := cp2k_general_settings (config w) in
  let s_main := cp2k_settings_main general in
  let s_guess := cp2k_settings_guess general in
  exists p w1 first g1 rg r2 w2,
    compute_orbitals d (option_map resolved g) w = (inr p, w1) /\
    run cp2k (checked p d) w1 = (inr r2, w2) /\
    must_recompute (config w2) (warnings r2) = true /\
    submitted w2
    = submitted w ++ first
        ++ [mkSubmission s_main d' g1;
            mkSubmission s_guess d' None;
            mkSubmission s_main d' (Some rg)] /\
    (first = [] \/ first = [mkSubmission s_guess d' g]) /\
    calc_new_wf_guess_on_points (config w2) = Some (points ++ [k d]).
Proof.
  intros Hnc Hpo Hi Hp d' general s_main s_guess.
  rewrite (compute_orbitals_eq _ _ _ _ Hp). cbv zeta.
  fold d' general. fold s_main s_guess.
  assert (Hretry : forall n r1 w0 first g1,
    submitted w0 = submitted w ++ first ++ [mkSubmission s_main d' g1] ->
    config w0 = config w ->
    (exists names name rest,
        fst (os.listdir (point_dir d) (disk w0)) = inr names /\
        fnmatch.filter names "mo*MOLog" = name :: rest /\
        os.is_file (disk w0) (os.resolve (join (point_dir d) [name])) = true) ->
    must_recompute (config w0) (warnings r1) = true ->
    exists rg r2 w2,
      bind (schedule_check r1 d) (fun wf => run_fuel cp2k (S (S n)) wf) w0
      = (inr r2, w2) /\
      must_recompute (config w2) (warnings r2) = true /\
      submitted w2
      = submitted w ++ first
          ++ [mkSubmission s_main d' g1; mkSubmission s_guess d' None;
              mkSubmission s_main d' (Some rg)] /\
      calc_new_wf_guess_on_points (config w2) = Some (points ++ [k d])).
  { intros n r1 w0 first g1 Hsub Hcfg (names & name & rest & Hn & Hf & Hfile) Hm.
    destruct (recompute_once n d r1 w0 points names name rest Hnc)
      as (rg & r2 & w2 & Hrun & Hs2 & Hm2 & Hp2);
      try assumption; try (rewrite Hcfg; assumption).
    exists rg, r2, w2. split; [exact Hrun|]. split; [exact Hm2|]. split; [|exact Hp2].
    rewrite Hs2, Hsub, Hcfg. fold d' general. fold s_main s_guess.
    now rewrite <- !app_assoc. }
  destruct (mem_int (k d) points || is_None (option_map resolved g)) eqn:Epred.
  - (* a guess job first *)
    set (w1 := set_prepared _ w).
    destruct (Hnc s_guess d' g (disk w1)) as (rg0 & ws0 & Hrg0 & _).
    set (wa := after_cp2k cp2k s_guess d' g w1).
    destruct (Hnc s_main d' (Some rg0) (disk wa)) as (r1 & ws1 & Hr1 & Hws1 & Hscf1).
    set (wb := after_cp2k cp2k s_main d' (Some rg0) wa).
    destruct (Hretry 3%nat r1 wb [mkSubmission s_guess d' g] (Some rg0))
      as (rg & r2 & w2 & Hrun & Hm2 & Hs2 & Hp2).
    + cbn. now rewrite <- app_assoc.
    + reflexivity.
    + exact (Hpo s_main (Some rg0) (disk wa)).
    + apply (must_recompute_true _ _ ws1); [exact Hi|exact Hws1|exact Hscf1].
    + eexists _, w1, [mkSubmission s_guess d' g], (Some rg0), rg, r2, w2.
      split; [reflexivity|]. split; [|split; [exact Hm2|split; [exact Hs2|auto]]].
      unfold run.
      assert (Hd : depth (checked (job s_main d' (Some (job s_guess d'
                                      (option_map resolved g)))) d) = 3%nat)
        by now destruct g.
      rewrite Hd. cbn [Nat.add]. rewrite run_fuel_checked.
      unfold bind at 1.
      change (run_fuel cp2k 5 (job s_main d' (Some (job s_guess d'
                                  (option_map resolved g)))) w1)
        with (bind (run_fuel cp2k 4 (job s_guess d' (option_map resolved g)))
                (fun r => run_cp2k cp2k s_main d' (Some r)) w1).
      unfold bind at 1. rewrite run_fuel_job_resolved.
      rewrite (run_cp2k_eq _ _ _ _ _ Hrg0). fold wa.
      rewrite (run_cp2k_eq _ _ _ _ _ Hr1). fold wb.
      exact Hrun.
  - (* the guess of the previous point *)
    apply orb_false_elim in Epred. destruct Epred as [_ Eg].
    destruct g as [rg0|]; [|discriminate]. cbn [option_map].
    set (w1 := set_prepared _ w).
    destruct (Hnc s_main d' (Some rg0) (disk w1)) as (r1 & ws1 & Hr1 & Hws1 & Hscf1).
    set (wb := after_cp2k cp2k s_main d' (Some rg0) w1).
    destruct (Hretry 2%nat r1 wb [] (Some rg0))
      as (rg & r2 & w2 & Hrun & Hm2 & Hs2 & Hp2).
    + reflexivity.
    + reflexivity.
    + exact (Hpo s_main (Some rg0) (disk w1)).
    + apply (must_recompute_true _ _ ws1); [exact Hi|exact Hws1|exact Hscf1].
    + eexists _, w1, [], (Some rg0), rg, r2, w2.
      split; [reflexivity|]. split; [|split; [exact Hm2|split; [exact Hs2|auto]]].
      unfold run. cbn [depth Nat.add]. rewrite run_fuel_checked.
      unfold bind at 1.
      rewrite (run_fuel_job_resolved 2 s_main d' (Some rg0)).
      rewrite (run_cp2k_eq _ _ _ _ _ Hr1). fold wb.
      exact Hrun.
Qed.

End NeverConverges.

Lemma cp2k_never_converges_never_converges :
  never_converges Inputs.cp2k_never_converges.
Proof. intros s d g fs. eexists _, _. repeat split. Qed.

Lemma cp2k_never_converges_prints_orbitals :
  prints_orbitals Inputs.cp2k_never_converges (refresh_job_files Inputs.input_0).
Proof.
  intros s g fs. cbv zeta.
  exists ("mo_coeff.MOLog"%string
            :: omap (fun e => os.child_name ["scratch"; "point_0"]%string (fst e)) fs),
    "mo_coeff.MOLog"%string,
    (fnmatch.filter
       (omap (fun e => os.child_name ["scratch"; "point_0"]%string (fst e)) fs)
       "mo*MOLog").
  repeat split.
Qed.

(** C3, as stated, fails: CP2K never converges, the job of point 0 is run,
    checked, and run once more after a new guess, and the value of the
    checked job is the second result, warning included; no exception is
    raised.  The solver was invoked four times: guess, main, guess, main. *)
Lemma second_convergence_failure_is_accepted :
  let w := Inputs.world_with (Inputs.config_with (Some []) true) ∅
             Inputs.disk_without_log in
  let built := compute_orbitals Inputs.input_0 None w in
  exists p r2,
    fst built = inr p /\
    fst (run Inputs.cp2k_never_converges (checked p Inputs.input_0) (snd built))
    = inr r2 /\
    must_recompute (config w) (warnings r2) = true /\
    map sub_settings
      (submitted (snd (run Inputs.cp2k_never_converges (checked p Inputs.input_0)
                         (snd built))))
    = [Inputs.settings_guess; Inputs.settings_main;
       Inputs.settings_guess; Inputs.settings_main].
Proof. eexists _, _. repeat split. Qed.

Lemma never_converging_job_witness :
  let w := Inputs.world_with (Inputs.config_with (Some []) true) ∅
             Inputs.disk_without_log in
  let d := Inputs.input_0 in
  never_converges Inputs.cp2k_never_converges /\
  prints_orbitals Inputs.cp2k_never_converges (refresh_job_files d) /\
  ignore_warnings (config w) = false /\
  exists p w1 first g1 rg r2 w2,
    compute_orbitals d None w = (inr p, w1) /\
    run Inputs.cp2k_never_converges (checked p d) w1 = (inr r2, w2) /\
    must_recompute (config w2) (warnings r2) = true /\
    submitted w2
    = submitted w ++ first
        ++ [mkSubmission Inputs.settings_main d g1;
            mkSubmission Inputs.settings_guess d None;
            mkSubmission Inputs.settings_main d (Some rg)] /\
    (first = [] \/ first = [mkSubmission Inputs.settings_guess d None]) /\
    calc_new_wf_guess_on_points (config w2) = Some [0].
Proof.
  intros w d.
  split; [exact cp2k_never_converges_never_converges|].
  split; [exact cp2k_never_converges_prints_orbitals|].
  split; [reflexivity|].
  exact (never_converging_job_runs_twice_and_is_accepted
           Inputs.cp2k_never_converges d None w []
           cp2k_never_converges_never_converges
           cp2k_never_converges_prints_orbitals eq_refl eq_refl).
Defined.

(** ** [calculate_mos] returns *)

Lemma getitem_in_range {X} (xs : list X) j :
  0 <= j < Z.of_nat (length xs) -> exists x, getitem xs j = inr x.
Proof.
  intros Hj. unfold getitem. cbv zeta.
  assert (Hlt : (j <? 0) = false) by (apply Z.ltb_ge; lia).
  rewrite Hlt, Hlt.
  destruct (nth_error xs (Z.to_nat j)) as [x|] eqn:E.
  - exists x. reflexivity.
  - apply nth_error_None in E. lia.
Qed.

Lemma calculate_mos_point_returns acc j gs w :
  calc_new_wf_guess_on_points (config w) <> None ->
  0 <= j < Z.of_nat (length (folders (config w))) ->
  exists acc' w', calculate_mos_point None acc (j, gs) w = (inr acc', w').
Proof.
  intros Hp Hj.
  destruct (is_stored w (j + enumerate_from (config w))) eqn:E.
  - rewrite (calculate_mos_point_cached _ _ _ _ _ E). eauto.
  - rewrite (calculate_mos_point_scheduled _ _ _ _ _ E). cbv zeta.
    unfold cell_step. mred.
    destruct (getitem_in_range _ _ Hj) as [pd ->].
    destruct (calc_new_wf_guess_on_points (config w)) as [points|] eqn:Ep; [|easy].
    match goal with
    | |- context [compute_orbitals ?d ?g ?x] =>
        rewrite (compute_orbitals_eq d g x points Ep)
    end.
    cbv zeta. destruct (_ || _); eauto.
Qed.

Lemma for_each_returns xs :
  forall acc w,
    calc_new_wf_guess_on_points (config w) <> None ->
    (forall j gs, In (j, gs) xs -> 0 <= j < Z.of_nat (length (folders (config w)))) ->
    exists acc' w', for_each xs (calculate_mos_point None) acc w = (inr acc', w').
Proof.
  induction xs as [|[j gs] xs IH]; intros acc w Hp Hj.
  - cbn [for_each]. unfold ret. eauto.
  - cbn [for_each]. unfold bind.
    destruct (calculate_mos_point_returns acc j gs w Hp) as (acc1 & w1 & E);
      [apply (Hj j gs); now left|].
    rewrite E. apply calculate_mos_point_static in E. destruct E as (Hc & _).
    apply static_fields in Hc.
    destruct Hc as (_ & _ & _ & Hf & Hp1 & _).
    apply IH.
    + now rewrite Hp1.
    + intros j' gs' Hin. rewrite Hf. apply (Hj j' gs'). now right.
Qed.

(** With a list of restart points, no file of cell parameters and a folder
    for each geometry, [calculate_mos] raises nothing. *)
Lemma calculate_mos_returns (read : Reader) w :
  calc_new_wf_guess_on_points (config w) <> None ->
  file_cell_parameters (cp2k_general_settings (config w)) = None ->
  (length (geometries (config w)) <= length (folders (config w)))%nat ->
  exists orbitals energies w', calculate_mos read w = (inr (orbitals, energies), w').
Proof.
  intros Hp Hcell Hlen. rewrite calculate_mos_eq.
  unfold cell_parameters_read. rewrite Hcell.
  destruct (for_each_returns (enumerate (geometries (config w)))
              (mkLocals [] [] None) w Hp) as (acc & w' & E).
  - intros j gs Hin. apply enumerate_at_bounds in Hin. lia.
  - rewrite E. eauto.
Qed.

(** ** The loop of [Nac.calculate_mos] *)

(** A stored point is skipped: its node paths go to the result, no job is
    prepared and the guess is kept. *)
Lemma nac_calculate_mos_point_stored a f5 acc j gs calls paths :
  Nac.search_data_in_hdf5 a f5 (j + Nac.enumerate_from a) = Some paths ->
  Nac.calculate_mos_point a f5 acc (j, gs) calls
  = (inr (Nac.mkLocals (Nac.path_to_orbitals acc ++ [Nac.node_paths paths])
            (Nac.current_guess_job acc)), calls) /\
  forall path, In path paths -> is_Some (f5 !! path).
Proof.
  intros H. split.
  - unfold Nac.calculate_mos_point. now rewrite H.
  - apply nac_search_data_in_hdf5_Some in H. destruct H as [-> H]. exact H.
Qed.

(** At a listed point the guess job gets the current guess and the main job
    gets the guess job; elsewhere the main job gets the current guess. *)
Lemma nac_calculate_mos_point_jobs a f5 acc j gs calls point_dir points :
  Nac.search_data_in_hdf5 a f5 (j + Nac.enumerate_from a) = None ->
  Nac.package_name a = "cp2k"%string ->
  getitem (Nac.folders a) j = inr point_dir ->
  Nac.calc_new_wf_guess_on_points a = Some points ->
  let k := j + Nac.enumerate_from a in
  let prepare args guess store :=
    Nac.prepare_job_cp2k gs (Nac.create_file_names point_dir k) args k point_dir
      (Nac.project_name a) (Nac.path_hdf5 a) guess store
      (Nac.nHOMOS a) (Nac.nLUMOS a) (Nac.package_config a) in
  let guess := prepare (Nac.guess_args a) (Nac.current_guess_job acc) false in
  let main := if Nac.mem_int k points
              then prepare (Nac.package_args a) (Some guess) true
              else prepare (Nac.package_args a) (Nac.current_guess_job acc) true in
  Nac.calculate_mos_point a f5 acc (j, gs) calls
  = (inr (Nac.mkLocals (Nac.path_to_orbitals acc ++ [Nac.orbitals_of main]) (Some main)),
     calls ++ (if Nac.mem_int k points then [guess; main] else [main])).
Proof.
  intros Hs Hp Hf Hc. cbv zeta. unfold Nac.calculate_mos_point. rewrite Hs. mred.
  rewrite Hf, Hc. unfold Nac.call_schedule_qm. rewrite Hp. simpl. mred.
  destruct (Nac.mem_int _ points); simpl; [|reflexivity].
  now rewrite <- app_assoc.
Qed.

(** ** The outcome of [calculate_mos] *)

Lemma enumerate_at_points {X} (xs : list X) j0 e :
  map (fun jgs => fst jgs + e) (enumerate_at j0 xs)
  = map (fun j => j + e) (range j0 (j0 + Z.of_nat (length xs))).
Proof.
  revert j0. induction xs as [|x xs IH]; intros j0.
  - unfold range. replace (j0 + Z.of_nat (length (@nil X)) - j0) with 0 by (simpl; lia).
    reflexivity.
  - cbn [enumerate_at map fst]. rewrite IH. unfold range.
    replace (j0 + 1 + Z.of_nat (length xs) - (j0 + 1)) with (Z.of_nat (length xs)) by lia.
    replace (j0 + Z.of_nat (length (x :: xs)) - j0) with (Z.of_nat (S (length xs)))
      by (simpl length; lia).
    rewrite !Nat2Z.id. cbn [seq map]. f_equal; [f_equal; lia|].
    rewrite <- seq_shift, !map_map. apply map_ext. intros i. lia.
Qed.

Lemma points_of_enumerate cfg :
  map (fun jgs : Z * string => fst jgs + enumerate_from cfg) (enumerate (geometries cfg))
  = points_of cfg.
Proof. unfold enumerate, points_of. now rewrite enumerate_at_points. Qed.

Lemma points_of_static c c' : static c' = static c -> points_of c' = points_of c.
Proof.
  intros H. apply static_fields in H. destruct H as (Hg & _ & _ & _ & _ & He & _).
  unfold points_of. now rewrite Hg, He.
Qed.

Lemma orbital_entry_static w w' k0 item :
  static (config w') = static (config w) -> hdf5 w' = hdf5 w ->
  orbital_entry w' k0 item <-> orbital_entry w k0 item.
Proof.
  intros Hc Hh. unfold orbital_entry. rewrite (is_stored_static _ _ _ Hc Hh).
  apply static_fields in Hc. destruct Hc as (_ & Hp & Hk & _ & _ & _ & Ho & _).
  unfold node_MOs_of, root_of. now rewrite Hp, Hk, Ho.
Qed.

(** One round of the loop: the entry the point gets in [orbitals], and the
    entry it gets in [energies] when it is not stored. *)
Lemma calculate_mos_point_entries arr acc j gs w acc' w' :
  calculate_mos_point arr acc (j, gs) w = (inr acc', w') ->
  let k0 := j + enumerate_from (config w) in
  exists item,
    orbitals_list acc' = orbitals_list acc ++ [item] /\
    orbital_entry w k0 item /\
    exists es,
      energies_list acc' = energies_list acc ++ es /\
      map point_of_energy es = if is_stored w k0 then [] else [k0].
Proof.
  intros H k0. unfold orbital_entry. fold k0.
  destruct (is_stored w k0) eqn:E.
  - rewrite (calculate_mos_point_cached _ _ _ _ _ E) in H. injection H as <- <-.
    eexists. split; [reflexivity|]. split; [reflexivity|].
    exists []. split; [now rewrite app_nil_r|reflexivity].
  - rewrite (calculate_mos_point_scheduled _ _ _ _ _ E) in H. cbv zeta in H.
    destruct (cell_step _ _ _) as [[e|[]] w2] eqn:E2; [discriminate|].
    apply cell_step_static in E2. destruct E2 as (Hc & _).
    destruct (getitem _ j) as [e|pd]; [discriminate|].
    destruct (compute_orbitals _ _ w2) as [[e|p] w3] eqn:E3; [discriminate|].
    apply compute_orbitals_frame in E3. destruct E3 as (Hc3 & _).
    injection H as <- <-. cbn [orbitals_list energies_list].
    eexists. split; [reflexivity|]. split.
    + rewrite Hc3. apply static_fields in Hc.
      destruct Hc as (_ & _ & _ & _ & _ & _ & Ho & _).
      change (config (set_logged ?x w)) with (config w) in Ho. rewrite Ho.
      destruct (config_compute_orbitals (config w)); [|reflexivity].
      eexists _, _. split; reflexivity.
    + eexists [_]. split; reflexivity.
Qed.

Lemma for_each_entries arr xs :
  forall acc w acc' w',
    for_each xs (calculate_mos_point arr) acc w = (inr acc', w') ->
    let ks := map (fun jgs : Z * string => fst jgs + enumerate_from (config w)) xs in
    exists items es,
      orbitals_list acc' = orbitals_list acc ++ items /\
      Forall2 (orbital_entry w) ks items /\
      energies_list acc' = energies_list acc ++ es /\
      map point_of_energy es = List.filter (fun k0 => negb (is_stored w k0)) ks.
Proof.
  induction xs as [|[j gs] xs IH]; intros acc w acc' w' H; cbv zeta.
  - injection H as <- <-. exists [], []. rewrite !app_nil_r. repeat split. constructor.
  - cbn [for_each] in H. apply bind_inv in H. destruct H as (acc1 & w1 & H1 & H).
    pose proof (calculate_mos_point_static _ _ _ _ _ _ H1) as (Hc & Hh).
    pose proof (static_fields _ _ Hc) as (_ & _ & _ & _ & _ & He & _).
    apply calculate_mos_point_entries in H1. cbv zeta in H1.
    destruct H1 as (item & Ho & Hitem & es1 & He1 & Hk1).
    apply IH in H. cbv zeta in H. destruct H as (items & es & Ho' & Hitems & He' & Hk).
    exists (item :: items), (es1 ++ es). cbn [map fst List.filter].
    split; [rewrite Ho', Ho; now rewrite <- app_assoc|].
    split; [|split; [rewrite He', He1; now rewrite <- app_assoc|]].
    + constructor; [exact Hitem|]. rewrite He in Hitems.
      eapply Forall2_impl; [exact Hitems|].
      intros k0 it. apply (orbital_entry_static w w1 k0 it Hc Hh).
    + rewrite map_app, Hk1, Hk, He.
      rewrite (List.filter_ext _ (fun k0 => negb (is_stored w k0)))
        by (intros k0; now rewrite (is_stored_static _ _ _ Hc Hh)).
      now destruct (is_stored w (j + enumerate_from (config w))).
Qed.

(** X1.  When [calculate_mos] returns, [orbitals] has one entry for each
    point of the trajectory, in the order of the points: the node paths of
    the orbitals for a stored point and, for a point that is not stored, the
    scheduled storage of its orbitals, or [None] when the orbitals are not
    asked for.  [energies] has an entry for the points that are not stored
    and for no other, in the order of the points. *)
Theorem calculate_mos_entries
    (read : Reader)
    (w w' : World) (orbitals : list OrbitalItem) (energies : list EnergyItem) :
  calculate_mos read w = (inr (orbitals, energies), w') ->
  Forall2 (orbital_entry w) (points_of (config w)) orbitals /\
  map point_of_energy energies
  = List.filter (fun k0 => negb (is_stored w k0)) (points_of (config w)).
Proof.
  intros H. apply calculate_mos_inv in H.
  destruct H as (arr & acc & _ & Hloop & -> & ->).
  apply for_each_entries in Hloop. cbv zeta in Hloop.
  destruct Hloop as (items & es & -> & Hitems & -> & Hk).
  rewrite points_of_enumerate in Hitems, Hk. split; [exact Hitems|exact Hk].
Qed.

Lemma calculate_mos_entries_witness :
  let w := Inputs.world_with (Inputs.config_with (Some []) true) Inputs.orbitals_0_only [] in
  exists orbitals energies,
    fst (calculate_mos Inputs.read_cells w) = inr (orbitals, energies) /\
    Forall2 (orbital_entry w) [0; 1] orbitals /\
    map point_of_energy energies = [1].
Proof.
  intros w.
  destruct (calculate_mos Inputs.read_cells w) as [r w'] eqn:E.
  assert (Hr : exists a b, r = inr (a, b)).
  { apply (f_equal fst) in E. simpl in E. subst r. vm_compute. eauto. }
  destruct Hr as (orbitals & energies & ->).
  destruct (calculate_mos_entries Inputs.read_cells w w' orbitals energies E)
    as (Ho & He).
  exists orbitals, energies. split; [reflexivity|]. split; [exact Ho|exact He].
Defined.

Lemma set_logged_twice l l' w :
  set_logged (logged (set_logged (logged w ++ l) w) ++ l') (set_logged (logged w ++ l) w)
  = set_logged (logged w ++ l ++ l') w.
Proof. unfold set_logged. cbn. now rewrite <- app_assoc. Qed.

Lemma for_each_stored arr xs :
  forall acc w,
    (forall j gs, In (j, gs) xs -> is_stored w (j + enumerate_from (config w)) = true) ->
    let ks := map (fun jgs : Z * string => fst jgs + enumerate_from (config w)) xs in
    for_each xs (calculate_mos_point arr) acc w
    = (inr (mkLocals
              (orbitals_list acc ++ map (fun k0 => node_paths (node_MOs_of (config w) k0)) ks)
              (energies_list acc) (current_guess_job acc)),
       set_logged (logged w ++ map (fun k0 => (INFO, msg_already_calculated k0)) ks) w).
Proof.
  induction xs as [|[j gs] xs IH]; intros acc w Hs; cbv zeta.
  - cbn [for_each map]. unfold ret. rewrite !app_nil_r.
    destruct acc, w; reflexivity.
  - cbn [for_each]. unfold bind.
    rewrite calculate_mos_point_cached by (apply (Hs j gs); now left).
    set (w1 := set_logged _ w).
    rewrite (IH _ w1) by (intros j' gs' Hin; apply (Hs j' gs'); now right).
    cbv zeta. cbn [orbitals_list energies_list current_guess_job map fst].
    change (config w1) with (config w). unfold w1. rewrite set_logged_twice.
    now rewrite <- app_assoc.
Qed.

(** X2.  When every point of the trajectory is stored, [calculate_mos]
    still reads the file of cell parameters when one is given.  When that
    read raises, the exception is passed on, nothing is logged and nothing
    is changed.  Otherwise [calculate_mos] returns the node paths of the
    orbitals of each point and an empty list of energies; it logs one
    message for each point and changes nothing else: no job is prepared, and
    the configuration, the HDF5 file and the disk are as they were.  Neither
    the folders nor the list of restart points nor the rows of the array
    that was read are looked at. *)
Theorem calculate_mos_of_stored_points
    (read : Reader) (w : World) :
  (forall k0, In k0 (points_of (config w)) -> is_stored w k0 = true) ->
  calculate_mos read w
  = match cell_parameters_read read w with
    | inl e => (inl e, w)
    | inr _ =>
        (inr (map (fun k0 => node_paths (node_MOs_of (config w) k0)) (points_of (config w)),
              []),
         set_logged
           (logged w
              ++ map (fun k0 => (INFO, msg_already_calculated k0)) (points_of (config w)))
           w)
    end.
Proof.
  intros Hs. rewrite calculate_mos_eq.
  destruct (cell_parameters_read read w) as [e|arr]; [reflexivity|].
  rewrite for_each_stored.
  - cbv zeta. rewrite points_of_enumerate. reflexivity.
  - intros j gs Hin. apply Hs. rewrite <- points_of_enumerate.
    apply in_map_iff. now exists (j, gs).
Qed.

Lemma calculate_mos_of_stored_points_witness :
  let cfg := mkDictConfig ["geometry 0"]%string "proj" "cp2k" "quantum.hdf5" [] None 0
               true false Inputs.general_with_cells in
  let w := Inputs.world_with cfg Inputs.orbitals_0_only Inputs.disk_with_cells in
  let w_without := Inputs.world_with cfg Inputs.orbitals_0_only Inputs.disk_with_old_data in
  calculate_mos Inputs.read_cells w
  = (inr ([node_paths ["proj/point_0/cp2k/mo/eigenvalues";
                       "proj/point_0/cp2k/mo/coefficients"]%string], []),
     set_logged [(INFO, msg_already_calculated 0)] w) /\
  calculate_mos Inputs.read_cells w_without = (inl FileNotFoundError, w_without).
Proof.
  intros cfg w w_without. split.
  - apply (calculate_mos_of_stored_points Inputs.read_cells w).
    intros k0 [<-|[]]. reflexivity.
  - apply (calculate_mos_of_stored_points Inputs.read_cells w_without).
    intros k0 [<-|[]]. reflexivity.
Defined.

Lemma reshape_3_3_returns a :
  (exists cell, reshape_3_3 a = inr cell) <-> length a = 9%nat.
Proof.
  split.
  - intros [cell H]. unfold reshape_3_3 in H.
    repeat (destruct a as [|? a]; [discriminate|]).
    destruct a; [reflexivity|discriminate].
  - intros H. do 9 (destruct a as [|? a]; [simpl in H; lia|]).
    destruct a; [simpl; eauto|simpl in H; lia].
Qed.

Lemma cell_step_returns arr j w :
  (exists w', cell_step arr j w = (inr tt, w')) <-> has_cell_row arr j.
Proof.
  unfold cell_step, has_cell_row.
  destruct arr as [array|]; [|split; [easy|unfold ret; eauto]].
  rewrite adjust_cell_parameters_eq.
  destruct (getitem array j) as [e|row].
  - split; [intros [? ?]; discriminate|intros (? & ? & _); discriminate].
  - assert (Hlen : length (firstn 9 (skipn 2 row)) = 9%nat <-> (11 <= length row)%nat).
    { rewrite length_firstn, length_skipn. lia. }
    split.
    + intros [w' H]. exists row. split; [reflexivity|].
      apply Hlen, reshape_3_3_returns.
      destruct (reshape_3_3 _) as [e|cell]; [discriminate|eauto].
    + intros (row' & [= <-] & Hr). apply Hlen, reshape_3_3_returns in Hr.
      destruct Hr as [cell ->]. eauto.
Qed.

Lemma getitem_returns {X} (xs : list X) j :
  0 <= j -> (exists x, getitem xs j = inr x) <-> j < Z.of_nat (length xs).
Proof.
  intros Hj. split.
  - intros [x Hx]. unfold getitem in Hx. cbv zeta in Hx.
    assert (Hlt : (j <? 0) = false) by (apply Z.ltb_ge; lia).
    rewrite Hlt, Hlt in Hx.
    destruct (nth_error xs (Z.to_nat j)) eqn:E; [|discriminate].
    assert (Z.to_nat j < length xs)%nat by (apply nth_error_Some; congruence). lia.
  - intros Hlt. apply getitem_in_range. lia.
Qed.

Lemma can_be_scheduled_static c c' arr j :
  static c' = static c -> can_be_scheduled c' arr j <-> can_be_scheduled c arr j.
Proof.
  intros H. apply static_fields in H.
  destruct H as (_ & _ & _ & Hf & Hp & _).
  unfold can_be_scheduled. now rewrite Hf, Hp.
Qed.

Lemma calculate_mos_point_returns_iff arr acc j gs w :
  0 <= j ->
  (exists acc' w', calculate_mos_point arr acc (j, gs) w = (inr acc', w')) <->
  (is_stored w (j + enumerate_from (config w)) = false ->
   can_be_scheduled (config w) arr j).
Proof.
  intros Hj. destruct (is_stored w (j + enumerate_from (config w))) eqn:E.
  - rewrite (calculate_mos_point_cached _ _ _ _ _ E). split; [discriminate|eauto].
  - rewrite (calculate_mos_point_scheduled _ _ _ _ _ E). cbv zeta.
    set (w0 := set_logged _ w).
    pose proof (cell_step_returns arr j w0) as Hcell.
    pose proof (getitem_returns (folders (config w)) j Hj) as Hfold.
    unfold can_be_scheduled.
    destruct (cell_step arr j w0) as [[e|[]] w2] eqn:E2.
    + split; [intros (? & ? & ?); discriminate|].
      intros H. destruct (H eq_refl) as (_ & _ & Hrow).
      apply Hcell in Hrow. destruct Hrow as [? ?]. discriminate.
    + apply cell_step_static in E2. destruct E2 as (Hc & _).
      apply static_fields in Hc. destruct Hc as (_ & _ & _ & _ & Hp & _).
      change (config w0) with (config w) in Hp.
      assert (Hrow : has_cell_row arr j) by (apply Hcell; eauto).
      destruct (getitem (folders (config w)) j) as [e|pd].
      * split; [intros (? & ? & ?); discriminate|].
        intros H. destruct (H eq_refl) as (Hlt & _).
        apply Hfold in Hlt. destruct Hlt as [? ?]. discriminate.
      * assert (Hlt : j < Z.of_nat (length (folders (config w)))) by (apply Hfold; eauto).
        destruct (calc_new_wf_guess_on_points (config w)) as [points|] eqn:Ep.
        -- rewrite (compute_orbitals_eq _ _ w2 points) by (now rewrite Hp).
           cbv zeta. split; [intros _ _; repeat split; [exact Hlt|discriminate|exact Hrow]|].
           intros _. destruct (_ || _); eauto.
        -- rewrite (compute_orbitals_no_points _ _ w2) by (now rewrite Hp).
           split; [intros (? & ? & ?); discriminate|].
           intros H. now destruct (H eq_refl) as (_ & Hn & _).
Qed.

Lemma for_each_returns_iff arr xs :
  forall acc w,
    (forall j gs, In (j, gs) xs -> 0 <= j) ->
    (exists acc' w', for_each xs (calculate_mos_point arr) acc w = (inr acc', w')) <->
    (forall j gs, In (j, gs) xs ->
       is_stored w (j + enumerate_from (config w)) = false ->
       can_be_scheduled (config w) arr j).
Proof.
  induction xs as [|[j gs] xs IH]; intros acc w Hpos.
  - cbn [for_each]. unfold ret. split; [intros _ ? ? []|eauto].
  - cbn [for_each]. unfold bind.
    pose proof (calculate_mos_point_returns_iff arr acc j gs w) as Hpoint.
    destruct (calculate_mos_point arr acc (j, gs) w) as [[e|acc1] w1] eqn:E.
    + split; [intros (? & ? & ?); discriminate|].
      intros H. destruct Hpoint as [_ Hpoint]; [apply (Hpos j gs); now left|].
      destruct Hpoint as (? & ? & ?); [apply (H j gs); now left|discriminate].
    + pose proof (calculate_mos_point_static _ _ _ _ _ _ E) as (Hc & Hh).
      pose proof (static_fields _ _ Hc) as (_ & _ & _ & _ & _ & He & _).
      rewrite (IH acc1 w1) by (intros j' gs' Hin; apply (Hpos j' gs'); now right).
      split.
      * intros H j' gs' [[= <- <-]|Hin].
        -- apply Hpoint; [apply (Hpos j gs); now left|eauto].
        -- intros Hs. apply (can_be_scheduled_static _ _ _ _ Hc).
           apply (H j' gs' Hin). now rewrite (is_stored_static _ _ _ Hc Hh), He.
      * intros H j' gs' Hin Hs. apply (can_be_scheduled_static _ _ _ _ Hc).
        apply (H j' gs'); [now right|].
        now rewrite (is_stored_static _ _ _ Hc Hh), He in Hs.
Qed.

Lemma enumerate_at_In {X} (xs : list X) j0 j :
  j0 <= j < j0 + Z.of_nat (length xs) -> exists x, In (j, x) (enumerate_at j0 xs).
Proof.
  revert j0. induction xs as [|x xs IH]; intros j0 Hj; [simpl in Hj; lia|].
  destruct (Z.eq_dec j j0) as [->|Hne].
  - exists x. now left.
  - destruct (IH (j0 + 1)) as [y Hy]; [simpl length in Hj; lia|].
    exists y. now right.
Qed.

(** X3.  [calculate_mos] returns, rather than raises, if and only if the
    file of cell parameters, when one is given, is read without an exception
    and every geometry whose point is not stored has a folder, the list of
    restart points is not [None], and, when a file of cell parameters is
    given, the array read from it has a row for the geometry with the
    columns 2 to 10.  Geometries whose point is stored need none of these,
    but the file is read whether or not a point is stored. *)
Theorem calculate_mos_returns_iff (read : Reader) (w : World) :
  (exists orbitals energies w',
      calculate_mos read w = (inr (orbitals, energies), w')) <->
  (exists array_cell_parameters,
      cell_parameters_read read w = inr array_cell_parameters /\
      forall j, 0 <= j < Z.of_nat (length (geometries (config w))) ->
        is_stored w (j + enumerate_from (config w)) = false ->
        can_be_scheduled (config w) array_cell_parameters j).
Proof.
  rewrite calculate_mos_eq.
  destruct (cell_parameters_read read w) as [e|arr].
  { split; [intros (? & ? & ? & ?); discriminate|intros (? & ? & _); discriminate]. }
  pose proof (for_each_returns_iff arr (enumerate (geometries (config w)))
                (mkLocals [] [] None) w) as H.
  split.
  - intros Hret. exists arr. split; [reflexivity|]. intros j Hj.
    destruct (enumerate_at_In (geometries (config w)) 0 j) as [gs Hin]; [lia|].
    apply (proj1 (H (fun j gs Hin => proj1 (enumerate_at_bounds _ _ _ _ Hin))))
      with (gs := gs); [|exact Hin].
    destruct (for_each _ _ _ w) as [[e|acc] w1]; [|eauto].
    destruct Hret as (? & ? & ? & ?). discriminate.
  - intros (arr' & [= <-] & Hall).
    destruct (proj2 (H (fun j gs Hin => proj1 (enumerate_at_bounds _ _ _ _ Hin))))
      as (acc & w1 & ->); [|eauto].
    intros j gs Hin. apply Hall. apply enumerate_at_bounds in Hin. lia.
Qed.

(** ** What [calculate_mos] leaves alone *)

Lemma calculate_mos_point_frame arr acc x w r w' :
  calculate_mos_point arr acc x w = (r, w') ->
  static (config w') = static (config w) /\ hdf5 w' = hdf5 w /\
  disk w' = disk w /\ submitted w' = submitted w.
Proof.
  destruct x as [j gs].
  destruct (is_stored w (j + enumerate_from (config w))) eqn:E.
  - rewrite (calculate_mos_point_cached _ _ _ _ _ E). intros [= <- <-]. auto.
  - rewrite (calculate_mos_point_scheduled _ _ _ _ _ E). cbv zeta.
    destruct (cell_step _ _ _) as [[e|[]] w2] eqn:E2;
      apply cell_step_static in E2; destruct E2 as (Hc & Hh & _ & _ & Hd & Hs).
    + intros [= <- <-]. auto.
    + destruct (getitem _ j) as [e|pd]; [intros [= <- <-]; auto|].
      destruct (compute_orbitals _ _ w2) as [[e|p] w3] eqn:E3;
        apply compute_orbitals_frame in E3; destruct E3 as (Hc3 & Hh3 & _ & Hd3 & Hs3);
        intros [= <- <-]; rewrite Hc3, Hh3, Hd3, Hs3; auto.
Qed.

Lemma for_each_frame arr xs :
  forall acc w r w',
    for_each xs (calculate_mos_point arr) acc w = (r, w') ->
    static (config w') = static (config w) /\ hdf5 w' = hdf5 w /\
    disk w' = disk w /\ submitted w' = submitted w.
Proof.
  induction xs as [|x xs IH]; intros acc w r w' H.
  - injection H as <- <-. auto.
  - cbn [for_each] in H. unfold bind in H.
    destruct (calculate_mos_point arr acc x w) as [[e|acc1] w1] eqn:E1;
      apply calculate_mos_point_frame in E1; destruct E1 as (Hc & Hh & Hd & Hs).
    + injection H as <- <-. auto.
    + apply IH in H. destruct H as (Hc' & Hh' & Hd' & Hs').
      rewrite Hc', Hh', Hd', Hs'. auto.
Qed.

(** X4.  [calculate_mos] only builds the workflow.  Whether it returns or
    raises, the HDF5 file and the disk are as they were and the solver has
    not been invoked; of the configuration nothing has changed but the cell
    of the two settings objects.  In particular the list of restart points
    and the set of stored points are the same after the call. *)
Theorem calculate_mos_only_builds
    (read : Reader)
    (w w' : World) (r : Exn + list OrbitalItem * list EnergyItem) :
  calculate_mos read w = (r, w') ->
  hdf5 w' = hdf5 w /\ disk w' = disk w /\ submitted w' = submitted w /\
  static (config w') = static (config w) /\
  calc_new_wf_guess_on_points (config w') = calc_new_wf_guess_on_points (config w) /\
  forall k0, is_stored w' k0 = is_stored w k0.
Proof.
  intros H. rewrite calculate_mos_eq in H.
  destruct (cell_parameters_read read w) as [e|arr].
  { injection H as <- <-. repeat split. }
  destruct (for_each (enumerate (geometries (config w))) (calculate_mos_point arr)
              (mkLocals [] [] None) w) as [[e|acc] w1] eqn:E;
    apply for_each_frame in E; destruct E as (Hc & Hh & Hd & Hs);
    injection H as <- <-;
    (split; [exact Hh|]; split; [exact Hd|]; split; [exact Hs|]; split; [exact Hc|];
     split; [now apply static_fields in Hc|]; intros k0; now apply is_stored_static).
Qed.

Lemma calculate_mos_only_builds_witness :
  let w := Inputs.world_with (Inputs.config_with None true) Inputs.orbitals_0_only
             Inputs.disk_with_old_data in
  fst (calculate_mos Inputs.read_cells w) = inl TypeError /\
  hdf5 (snd (calculate_mos Inputs.read_cells w)) = hdf5 w /\
  disk (snd (calculate_mos Inputs.read_cells w)) = disk w /\
  submitted (snd (calculate_mos Inputs.read_cells w)) = submitted w.
Proof.
  intros w. split; [reflexivity|].
  destruct (calculate_mos Inputs.read_cells w) as [r w'] eqn:E.
  destruct (calculate_mos_only_builds Inputs.read_cells w w' r E) as (Hh & Hd & Hs & _).
  auto.
Defined.

(** ** Jobs, cells and stored nodes *)

Lemma append_nil_l b : (EmptyString +:+ b)%string = b.
Proof. reflexivity. Qed.

Lemma append_cons c a b : (String c a +:+ b)%string = String c (a +:+ b).
Proof. reflexivity. Qed.

Lemma string_app_assoc a b c : ((a +:+ b) +:+ c = a +:+ (b +:+ c))%string.
Proof.
  induction a as [|x a IH]; [reflexivity|].
  rewrite !append_cons. now rewrite IH.
Qed.

Lemma endswith_sep_app p c s :
  endswith_sep (p +:+ String c s) = endswith_sep (String c s).
Proof.
  induction p as [|x p IH]; [reflexivity|].
  rewrite append_cons. rewrite <- IH.
  destruct p as [|y p]; reflexivity.
Qed.

Lemma is_empty_app p c s : is_empty (p +:+ String c s) = false.
Proof. now destruct p. Qed.

(** A relative component of several names, joined at once, gives the same
    path as its names joined one by one. *)
Lemma join_step_names x c1 n1 c2 n2 :
  Ascii.eqb c1 sep = false -> Ascii.eqb c2 sep = false ->
  endswith_sep (String c1 n1) = false ->
  join_step (join_step x (String c1 n1)) (String c2 n2)
  = join_step x (String c1 n1 +:+ "/" +:+ String c2 n2).
Proof.
  intros H1 H2 He. unfold join_step at 1 3.
  cbn [startswith_sep]. rewrite H2.
  assert (Hs : startswith_sep (String c1 n1 +:+ "/" +:+ String c2 n2) = false)
    by (rewrite append_cons; exact H1).
  rewrite Hs. unfold join_step. cbn [startswith_sep]. rewrite H1.
  destruct (is_empty x || endswith_sep x).
  - rewrite is_empty_app, endswith_sep_app, He. cbn [orb].
    now rewrite !string_app_assoc.
  - change (x +:+ "/" +:+ String c1 n1) with (x +:+ String sep (String c1 n1)).
    rewrite is_empty_app.
    change (String sep (String c1 n1)) with ("/" +:+ String c1 n1)%string.
    rewrite <- string_app_assoc, endswith_sep_app, He. cbn [orb].
    now rewrite !string_app_assoc.
Qed.

(** For the package [cp2k], the nodes [dump_orbitals_to_hdf5] writes are
    the nodes [calculate_mos] looks for. *)
Lemma dumped_nodes_are_node_MOs cfg k0 :
  package_name cfg = "cp2k"%string ->
  [join (project_name cfg) ["point_" +:+ str_of_int k0; "cp2k/mo/eigenvalues"];
   join (project_name cfg) ["point_" +:+ str_of_int k0; "cp2k/mo/coefficients"]]%string
  = node_MOs_of cfg k0.
Proof.
  intros Hp. unfold node_MOs_of, root_of, join. rewrite Hp. cbn [fold_left].
  set (x := join_step (project_name cfg) ("point_" +:+ str_of_int k0)).
  rewrite !(join_step_names _ "c" "p2k" "m" "o") by reflexivity.
  change ("cp2k" +:+ "/" +:+ "mo")%string with (String "c" "p2k/mo").
  rewrite !(join_step_names _ "c" "p2k/mo") by reflexivity.
  reflexivity.
Qed.

Lemma persist_MOs_stores store d r w w1 :
  adds_the_node store ->
  persist_MOs store d r w = (inr tt, w1) ->
  config w1 = config w /\
  in_hdf5 (hdf5 w1)
    (join (project_name (config w)) [job_name d; "cp2k/mo/eigenvalues"]%string) = true /\
  in_hdf5 (hdf5 w1)
    (join (project_name (config w)) [job_name d; "cp2k/mo/coefficients"]%string) = true.
Proof.
  intros Hstore. unfold persist_MOs, dump_orbitals_to_hdf5, write_hdf5. mred.
  cbn [config].
  destruct (store (hdf5 w) _ _) as [e|f1] eqn:E1; [discriminate|].
  cbn [hdf5 set_hdf5].
  destruct (store f1 _ _) as [e|f2] eqn:E2; [discriminate|].
  intros [= <-]. cbn [config hdf5 set_hdf5].
  apply Hstore in E1, E2. destruct E1 as [H1 _], E2 as [H2 K2]. auto.
Qed.

(** X5.  With a store that adds the node it is given, and the package
    [cp2k], a point whose orbitals [store_MOs] has stored is a stored point
    for [calculate_mos]: the two nodes written for the job [point_k] are the
    two nodes the next run looks for, so the next run skips the point.
    [store_MOs] returns these two node paths and leaves the configuration
    as it was. *)
Theorem store_MOs_makes_the_point_stored
    (store : gmap string Data -> string -> Data -> Exn + gmap string Data)
    (j : Z) (gs point_dir : string) (r : Result) (w w' : World) (paths : list string) :
  adds_the_node store ->
  package_name (config w) = "cp2k"%string ->
  config_compute_orbitals (config w) = true ->
  let d := dict_input_of (config w) j gs point_dir in
  store_MOs store d r w = (inr paths, w') ->
  paths = node_MOs_of (config w) (j + enumerate_from (config w)) /\
  config w' = config w /\
  is_stored w' (j + enumerate_from (config w)) = true.
Proof.
  intros Hstore Hp Ho d H. rewrite store_MOs_eq in H.
  destruct (persist_MOs store d r w) as [out w1] eqn:E1.
  pose proof (remove_first_match_config "mo_*MOLog" (work_dir r) w1) as (Hc & _ & _ & Hh).
  destruct (remove_first_match _ _ w1) as [[e|[]] w2]; [discriminate|].
  cbn [snd] in Hc, Hh. destruct out as [e|[]]; [discriminate|].
  injection H as <- <-.
  destruct (persist_MOs_stores _ _ _ _ _ Hstore E1) as (Hc1 & He & Hcoef).
  split; [reflexivity|]. split; [congruence|].
  unfold is_stored, predicate_of. rewrite Hc, Hc1, Ho, Hh.
  rewrite <- (dumped_nodes_are_node_MOs _ _ Hp).
  unfold is_data_in_hdf5. cbn [forallb].
  change (job_name d) with ("point_" +:+ str_of_int (j + enumerate_from (config w)))%string
    in He, Hcoef.
  now rewrite He, Hcoef.
Qed.

Lemma write_once_adds_the_node : adds_the_node Inputs.write_once.
Proof.
  intros f5 path x f5' [= <-]. destruct (in_hdf5 f5 path) eqn:E.
  - auto.
  - split.
    + apply in_hdf5_true. rewrite lookup_insert_eq. eauto.
    + intros p Hp. apply in_hdf5_true. apply in_hdf5_true in Hp.
      destruct (decide (path = p)) as [->|Hne].
      * rewrite lookup_insert_eq. eauto.
      * now rewrite lookup_insert_ne.
Qed.

Lemma store_MOs_makes_the_point_stored_witness :
  let w := Inputs.world_with (Inputs.config_with (Some []) true) ∅
             Inputs.disk_with_log in
  is_stored w 0 = false /\
  exists w',
    store_MOs Inputs.write_once Inputs.input_0 Inputs.warned_result w
    = (inr (node_MOs_of (config w) 0), w') /\
    is_stored w' 0 = true.
Proof.
  intros w. split; [reflexivity|].
  destruct (store_MOs Inputs.write_once Inputs.input_0 Inputs.warned_result w)
    as [out w'] eqn:E.
  assert (Hout : exists paths, out = inr paths).
  { apply (f_equal fst) in E. simpl in E. subst out. vm_compute. eauto. }
  destruct Hout as [paths ->].
  destruct (store_MOs_makes_the_point_stored Inputs.write_once 0 "geometry 0"
              "/scratch/point_0" Inputs.warned_result w w' paths
              write_once_adds_the_node eq_refl eq_refl E) as (-> & _ & Hs).
  exists w'. split; [reflexivity|exact Hs].
Defined.

(** X6.  With a store that adds the node it is given, a point whose energy
    [store_enery] has stored is a stored point for a run of [calculate_mos]
    that does not ask for the orbitals.  [store_enery] returns the node path
    of the energy, logs the energy of the point, and leaves the
    configuration, the disk and the prepared jobs as they were; when the
    store raises, that exception is raised and nothing is logged. *)
Theorem store_enery_makes_the_point_stored
    (store : gmap string Data -> string -> Data -> Exn + gmap string Data)
    (j : Z) (gs point_dir : string) (r : Result) (w : World) :
  adds_the_node store ->
  config_compute_orbitals (config w) = false ->
  let d := dict_input_of (config w) j gs point_dir in
  let k0 := j + enumerate_from (config w) in
  (forall e, store (hdf5 w) (node_energy_of (config w) k0) (Scalar (energy r)) = inl e ->
     store_enery store d r w = (inl e, w)) /\
  (forall f5, store (hdf5 w) (node_energy_of (config w) k0) (Scalar (energy r)) = inr f5 ->
     let w' := set_logged (logged w ++ [(INFO, msg_total_energy k0 (energy r))])
                 (set_hdf5 f5 w) in
     store_enery store d r w = (inr (node_energy_of (config w) k0), w') /\
     is_stored w' k0 = true).
Proof.
  intros Hstore Ho d k0. unfold store_enery, write_hdf5. mred.
  change (node_energy d) with (node_energy_of (config w) k0).
  change (k d) with k0. split.
  - intros e ->. reflexivity.
  - intros f5 E. rewrite E. split; [reflexivity|].
    unfold is_stored, predicate_of. cbn [config hdf5 set_logged set_hdf5].
    rewrite Ho. unfold is_data_in_hdf5. now apply Hstore in E.
Qed.

Lemma store_enery_makes_the_point_stored_witness :
  let w := Inputs.world_with (Inputs.config_with (Some []) false) ∅ [] in
  is_stored w 0 = false /\
  exists w',
    store_enery Inputs.write_once Inputs.input_0 Inputs.warned_result w
    = (inr "proj/point_0/cp2k/mo/energy"%string, w') /\
    is_stored w' 0 = true.
Proof.
  intros w. split; [reflexivity|].
  destruct (store_enery_makes_the_point_stored Inputs.write_once 0 "geometry 0"
              "/scratch/point_0" Inputs.warned_result w
              write_once_adds_the_node eq_refl) as (_ & H).
  destruct (H _ eq_refl) as (Heq & Hs).
  eexists. split; [exact Heq|exact Hs].
Defined.

(** X7.  A main job is never prepared without a guess.  When the list of
    restart points is [None], [compute_orbitals] raises [TypeError] and
    prepares nothing.  Otherwise it returns a job with the main settings
    whose guess is either the guess it was given, or a job with the guess
    settings, prepared just before, whose own guess is the guess it was
    given; the latter always when no guess was given.  Both jobs are for
    the input with the names of its files computed anew. *)
Theorem compute_orbitals_main_job_has_a_guess
    (d : DictInput) (g : option Promise) (w : World) :
  let general := cp2k_general_settings (config w) in
  let d' := refresh_job_files d in
  (calc_new_wf_guess_on_points (config w) = None ->
   compute_orbitals d g w = (inl TypeError, w)) /\
  (calc_new_wf_guess_on_points (config w) <> None ->
   exists guess w',
     let main := job (cp2k_settings_main general) d' (Some guess) in
     compute_orbitals d g w = (inr main, w') /\
     (g = Some guess /\ w' = set_prepared (prepared w ++ [main]) w \/
      guess = job (cp2k_settings_guess general) d' g /\
      w' = set_prepared (prepared w ++ [guess; main]) w) /\
     (g = None -> guess = job (cp2k_settings_guess general) d' None)).
Proof.
  intros general d'. split.
  - apply compute_orbitals_no_points.
  - destruct (calc_new_wf_guess_on_points (config w)) as [points|] eqn:E; [|easy].
    intros _. rewrite (compute_orbitals_eq _ _ _ _ E). cbv zeta. fold general d'.
    destruct (mem_int (k d) points || is_None g) eqn:Epred.
    + eexists _, _. split; [reflexivity|]. split; [right; split; reflexivity|].
      now intros ->.
    + apply orb_false_elim in Epred. destruct Epred as [_ Eg].
      destruct g as [h|]; [|discriminate].
      eexists _, _. split; [reflexivity|]. split; [left; split; reflexivity|].
      discriminate.
Qed.

Lemma firstn_9_skipn_2 (row : list Q) :
  (11 <= length row)%nat -> reshape_3_3 (firstn 9 (skipn 2 row)) = inr (cell_of_row row).
Proof.
  intros H. do 11 (destruct row as [|? row]; [simpl in H; lia|]). reflexivity.
Qed.

Lemma firstn_9_skipn_2_short (row : list Q) :
  (length row < 11)%nat -> reshape_3_3 (firstn 9 (skipn 2 row)) = inl ValueError.
Proof.
  intros H. do 11 (destruct row as [|? row]; [reflexivity|]). simpl in H. lia.
Qed.

(** X8.  [adjust_cell_parameters] either gives both settings objects the
    same cell, or changes nothing.  With row [j] of the array (a negative
    [j] counts from the end) of eleven columns or more, the cell of the main
    and of the guess settings becomes the columns 2 to 10 of the row, three
    by three, and the cell angles of both become [None]; nothing else
    changes.  Without a row [j] it raises [IndexError], with a shorter row
    [ValueError], and in both cases the settings are as they were. *)
Theorem adjust_cell_parameters_sets_both_cells
    (array : list (list Q)) (j : Z) (w : World) :
  (forall e, getitem array j = inl e -> adjust_cell_parameters array j w = (inl e, w)) /\
  (forall row, getitem array j = inr row ->
     ((length row < 11)%nat -> adjust_cell_parameters array j w = (inl ValueError, w)) /\
     ((11 <= length row)%nat ->
      exists w',
        adjust_cell_parameters array j w = (inr tt, w') /\
        let general := cp2k_general_settings (config w) in
        let general' := cp2k_general_settings (config w') in
        cp2k_settings_main general'
        = mkSettings (specific (cp2k_settings_main general)) (Some (cell_of_row row)) None /\
        cp2k_settings_guess general'
        = mkSettings (specific (cp2k_settings_guess general)) (Some (cell_of_row row)) None /\
        static (config w') = static (config w) /\
        hdf5 w' = hdf5 w /\ disk w' = disk w /\ prepared w' = prepared w /\
        submitted w' = submitted w /\ logged w' = logged w)).
Proof.
  rewrite adjust_cell_parameters_eq. split.
  - intros e ->. reflexivity.
  - intros row ->. split.
    + intros H. now rewrite firstn_9_skipn_2_short.
    + intros H. rewrite firstn_9_skipn_2 by exact H.
      eexists. split; [reflexivity|]. cbv zeta. repeat split.
Qed.

(** ** The outcome of [Nac.calculate_mos] *)

Lemma nac_points_of_enumerate a :
  map (fun jgs : Z * string => fst jgs + Nac.enumerate_from a)
    (enumerate (Nac.all_geometries a))
  = nac_points_of a.
Proof. unfold enumerate, nac_points_of. now rewrite enumerate_at_points. Qed.

Lemma nac_calculate_mos_point_eq a f5 acc j gs calls :
  Nac.search_data_in_hdf5 a f5 (j + Nac.enumerate_from a) = None ->
  Nac.calculate_mos_point a f5 acc (j, gs) calls =
  match getitem (Nac.folders a) j with
  | inl e => (inl e, calls)
  | inr point_dir =>
      match Nac.calc_new_wf_guess_on_points a with
      | None => (inl TypeError, calls)
      | Some points =>
          if String.eqb (Nac.package_name a) "cp2k" then
            let k0 := j + Nac.enumerate_from a in
            let prepare args guess store :=
              Nac.prepare_job_cp2k gs (Nac.create_file_names point_dir k0) args k0
                point_dir (Nac.project_name a) (Nac.path_hdf5 a) guess store
                (Nac.nHOMOS a) (Nac.nLUMOS a) (Nac.package_config a) in
            let guess := prepare (Nac.guess_args a) (Nac.current_guess_job acc) false in
            let main := if Nac.mem_int k0 points
                        then prepare (Nac.package_args a) (Some guess) true
                        else prepare (Nac.package_args a) (Nac.current_guess_job acc) true in
            (inr (Nac.mkLocals (Nac.path_to_orbitals acc ++ [Nac.orbitals_of main])
                    (Some main)),
             calls ++ (if Nac.mem_int k0 points then [guess; main] else [main]))
          else (inl KeyError, calls)
      end
  end.
Proof.
  intros Hs. unfold Nac.calculate_mos_point. rewrite Hs. mred.
  destruct (getitem (Nac.folders a) j) as [e|pd]; [reflexivity|].
  destruct (Nac.calc_new_wf_guess_on_points a) as [points|]; [|reflexivity].
  unfold Nac.call_schedule_qm.
  destruct (String.eqb (Nac.package_name a) "cp2k"); mred.
  - cbv zeta. destruct (Nac.mem_int _ points); simpl; [|reflexivity].
    now rewrite <- app_assoc.
  - now destruct (Nac.mem_int _ points).
Qed.

Lemma nac_calculate_mos_point_entry a f5 acc j gs calls acc' calls' :
  Nac.calculate_mos_point a f5 acc (j, gs) calls = (inr acc', calls') ->
  exists item,
    Nac.path_to_orbitals acc' = Nac.path_to_orbitals acc ++ [item] /\
    nac_entry a f5 (j + Nac.enumerate_from a) item.
Proof.
  unfold nac_entry.
  destruct (Nac.search_data_in_hdf5 a f5 (j + Nac.enumerate_from a)) as [paths|] eqn:E.
  - unfold Nac.calculate_mos_point. rewrite E. intros [= <- <-]. eauto.
  - rewrite (nac_calculate_mos_point_eq _ _ _ _ _ _ E).
    destruct (getitem _ j) as [e|pd]; [discriminate|].
    destruct (Nac.calc_new_wf_guess_on_points a) as [points|]; [|discriminate].
    destruct (String.eqb _ _); [|discriminate].
    cbv zeta. intros [= <- <-]. eexists. split; [reflexivity|].
    eexists. split; [reflexivity|]. now destruct (Nac.mem_int _ points).
Qed.

Lemma nac_for_each_entries a f5 xs :
  forall acc calls acc' calls',
    for_each xs (Nac.calculate_mos_point a f5) acc calls = (inr acc', calls') ->
    exists items,
      Nac.path_to_orbitals acc' = Nac.path_to_orbitals acc ++ items /\
      Forall2 (nac_entry a f5)
        (map (fun jgs : Z * string => fst jgs + Nac.enumerate_from a) xs) items.
Proof.
  induction xs as [|[j gs] xs IH]; intros acc calls acc' calls' H.
  - injection H as <- <-. exists []. rewrite app_nil_r. split; [reflexivity|constructor].
  - cbn [for_each] in H. apply bind_inv in H. destruct H as (acc1 & calls1 & H1 & H).
    apply nac_calculate_mos_point_entry in H1. destruct H1 as (item & Ho & Hitem).
    apply IH in H. destruct H as (items & Ho' & Hitems).
    exists (item :: items). split; [rewrite Ho', Ho; now rewrite <- app_assoc|].
    cbn [map fst]. now constructor.
Qed.

(** X9.  When [Nac.calculate_mos] returns, the list it returns has one
    entry for each point of the trajectory, in the order of the points: the
    node paths of a stored point, and for a point that is not stored the
    promised orbitals of a job of that point that stores its result. *)
Theorem nac_calculate_mos_entries
    (a : Nac.Args) (f5 : gmap string Data) (calls calls' : list Nac.Promise)
    (items : list Nac.Item) :
  Nac.calculate_mos a f5 calls = (inr items, calls') ->
  Forall2 (nac_entry a f5) (nac_points_of a) items.
Proof.
  intros H. unfold Nac.calculate_mos in H. apply bind_inv in H.
  destruct H as (acc & calls1 & Hloop & H). injection H as <- <-.
  apply nac_for_each_entries in Hloop. destruct Hloop as (items & -> & Hitems).
  now rewrite nac_points_of_enumerate in Hitems.
Qed.

Lemma nac_calculate_mos_entries_witness :
  exists items calls',
    Nac.calculate_mos Inputs.nac_args Inputs.orbitals_0_only [] = (inr items, calls') /\
    Forall2 (nac_entry Inputs.nac_args Inputs.orbitals_0_only) [0; 1] items /\
    nth_error items 0
    = Some (Nac.node_paths ["proj/point_0/cp2k/mo/eigenvalues";
                            "proj/point_0/cp2k/mo/coefficients"]%string).
Proof.
  destruct (Nac.calculate_mos Inputs.nac_args Inputs.orbitals_0_only []) as [r calls'] eqn:E.
  assert (Hr : exists x xs, r = inr (Nac.node_paths x :: xs) /\
                 x = ["proj/point_0/cp2k/mo/eigenvalues";
                      "proj/point_0/cp2k/mo/coefficients"]%string).
  { apply (f_equal fst) in E. simpl in E. subst r. vm_compute. eauto. }
  destruct Hr as (x & xs & -> & ->).
  pose proof (nac_calculate_mos_entries _ _ _ _ _ E) as H.
  eexists _, calls'. split; [reflexivity|]. split; [exact H|reflexivity].
Defined.

Lemma nac_calculate_mos_point_returns_iff a f5 acc j gs calls :
  0 <= j ->
  (exists acc' calls', Nac.calculate_mos_point a f5 acc (j, gs) calls = (inr acc', calls')) <->
  (Nac.search_data_in_hdf5 a f5 (j + Nac.enumerate_from a) = None ->
   nac_can_be_scheduled a j).
Proof.
  intros Hj. unfold nac_can_be_scheduled.
  destruct (Nac.search_data_in_hdf5 a f5 (j + Nac.enumerate_from a)) as [paths|] eqn:E.
  - unfold Nac.calculate_mos_point. rewrite E. unfold ret. split; [discriminate|eauto].
  - rewrite (nac_calculate_mos_point_eq _ _ _ _ _ _ E).
    pose proof (getitem_returns (Nac.folders a) j Hj) as Hfold.
    destruct (getitem _ j) as [e|pd].
    + split; [intros (? & ? & ?); discriminate|].
      intros H. destruct (H eq_refl) as (Hlt & _).
      apply Hfold in Hlt. destruct Hlt as [? ?]. discriminate.
    + assert (Hlt : j < Z.of_nat (length (Nac.folders a))) by (apply Hfold; eauto).
      destruct (Nac.calc_new_wf_guess_on_points a) as [points|].
      * destruct (String.eqb_spec (Nac.package_name a) "cp2k") as [Hp|Hp].
        -- cbv zeta. split; [intros _ _; repeat split; [exact Hlt|discriminate|exact Hp]|eauto].
        -- split; [intros (? & ? & ?); discriminate|].
           intros H. now destruct (H eq_refl) as (_ & _ & Hn).
      * split; [intros (? & ? & ?); discriminate|].
        intros H. now destruct (H eq_refl) as (_ & Hn & _).
Qed.

Lemma nac_for_each_returns_iff a f5 xs :
  forall acc calls,
    (forall j gs, In (j, gs) xs -> 0 <= j) ->
    (exists acc' calls',
        for_each xs (Nac.calculate_mos_point a f5) acc calls = (inr acc', calls')) <->
    (forall j gs, In (j, gs) xs ->
       Nac.search_data_in_hdf5 a f5 (j + Nac.enumerate_from a) = None ->
       nac_can_be_scheduled a j).
Proof.
  induction xs as [|[j gs] xs IH]; intros acc calls Hpos.
  - cbn [for_each]. unfold ret. split; [intros _ ? ? []|eauto].
  - cbn [for_each]. unfold bind.
    pose proof (nac_calculate_mos_point_returns_iff a f5 acc j gs calls) as Hpoint.
    destruct (Nac.calculate_mos_point a f5 acc (j, gs) calls) as [[e|acc1] calls1] eqn:E.
    + split; [intros (? & ? & ?); discriminate|].
      intros H. destruct Hpoint as [_ Hpoint]; [apply (Hpos j gs); now left|].
      destruct Hpoint as (? & ? & ?); [apply (H j gs); now left|discriminate].
    + rewrite (IH acc1 calls1) by (intros j' gs' Hin; apply (Hpos j' gs'); now right).
      split.
      * intros H j' gs' [[= <- <-]|Hin].
        -- apply Hpoint; [apply (Hpos j gs); now left|eauto].
        -- now apply (H j' gs').
      * intros H j' gs' Hin. apply (H j' gs'). now right.
Qed.

(** X10.  [Nac.calculate_mos] returns, rather than raises, if and only if
    every geometry whose point is not stored has a folder, the list of
    restart points is not [None], and the package is [cp2k].  With every
    point stored it returns whatever the folders, the list and the package
    are. *)
Theorem nac_calculate_mos_returns_iff
    (a : Nac.Args) (f5 : gmap string Data) (calls : list Nac.Promise) :
  (exists items calls', Nac.calculate_mos a f5 calls = (inr items, calls')) <->
  (forall j, 0 <= j < Z.of_nat (length (Nac.all_geometries a)) ->
     Nac.search_data_in_hdf5 a f5 (j + Nac.enumerate_from a) = None ->
     nac_can_be_scheduled a j).
Proof.
  pose proof (nac_for_each_returns_iff a f5 (enumerate (Nac.all_geometries a))
                (Nac.mkLocals [] None) calls) as H.
  unfold Nac.calculate_mos. mred. split.
  - intros Hret j Hj.
    destruct (enumerate_at_In (Nac.all_geometries a) 0 j) as [gs Hin]; [lia|].
    apply (proj1 (H (fun j gs Hin => proj1 (enumerate_at_bounds _ _ _ _ Hin))))
      with (gs := gs); [|exact Hin].
    destruct (for_each _ _ _ calls) as [[e|acc] calls1]; [|eauto].
    destruct Hret as (? & ? & ?). discriminate.
  - intros Hall.
    destruct (proj2 (H (fun j gs Hin => proj1 (enumerate_at_bounds _ _ _ _ Hin))))
      as (acc & calls1 & ->); [|eauto].
    intros j gs Hin. apply Hall. apply enumerate_at_bounds in Hin. lia.
Qed.

Lemma nac_for_each_without_points a f5 xs :
  forall acc calls,
    Nac.calc_new_wf_guess_on_points a = None ->
    (forall j gs, In (j, gs) xs -> 0 <= j < Z.of_nat (length (Nac.folders a))) ->
    (exists j gs, In (j, gs) xs /\
       Nac.search_data_in_hdf5 a f5 (j + Nac.enumerate_from a) = None) ->
    for_each xs (Nac.calculate_mos_point a f5) acc calls = (inl TypeError, calls).
Proof.
  induction xs as [|[j gs] xs IH]; intros acc calls Hp Hf (j' & gs' & Hin & Hs);
    [destruct Hin|].
  cbn [for_each]. unfold bind.
  destruct (Nac.search_data_in_hdf5 a f5 (j + Nac.enumerate_from a)) as [paths|] eqn:E.
  - unfold Nac.calculate_mos_point at 1. rewrite E. unfold ret.
    apply IH; [exact Hp|intros j0 gs0 H0; apply (Hf j0 gs0); now right|].
    destruct Hin as [[= <- <-]|Hin]; [congruence|eauto].
  - rewrite (nac_calculate_mos_point_eq _ _ _ _ _ _ E).
    destruct (getitem_in_range (Nac.folders a) j) as [pd ->];
      [apply (Hf j gs); now left|].
    now rewrite Hp.
Qed.

(** X11.  [calculate_ETR] passes its [calc_new_wf_guess_on_points], which
    is [None] unless the caller gives it, on to [Nac.calculate_mos].  With
    [None], and a folder for every geometry, [Nac.calculate_mos] raises
    [TypeError] as soon as one point of the trajectory is not stored, and
    prepares no job; with every point stored it returns. *)
Theorem nac_calculate_mos_without_restart_points
    (a : Nac.Args) (f5 : gmap string Data) (calls : list Nac.Promise) :
  Nac.calc_new_wf_guess_on_points a = None ->
  (length (Nac.all_geometries a) <= length (Nac.folders a))%nat ->
  ((exists k0, In k0 (nac_points_of a) /\ Nac.search_data_in_hdf5 a f5 k0 = None) ->
   Nac.calculate_mos a f5 calls = (inl TypeError, calls)) /\
  ((forall k0, In k0 (nac_points_of a) -> Nac.search_data_in_hdf5 a f5 k0 <> None) ->
   exists items, Nac.calculate_mos a f5 calls = (inr items, calls)).
Proof.
  intros Hp Hlen. unfold Nac.calculate_mos. mred. split.
  - intros (k0 & Hin & Hs). rewrite <- nac_points_of_enumerate in Hin.
    apply in_map_iff in Hin. destruct Hin as ([j gs] & <- & Hin). cbn [fst] in Hs.
    rewrite (nac_for_each_without_points a f5); [reflexivity|exact Hp| |eauto].
    intros j0 gs0 H0. apply enumerate_at_bounds in H0. lia.
  - intros Hall.
    assert (Hloop : forall xs acc,
      (forall j gs, In (j, gs) xs ->
         Nac.search_data_in_hdf5 a f5 (j + Nac.enumerate_from a) <> None) ->
      exists acc', for_each xs (Nac.calculate_mos_point a f5) acc calls = (inr acc', calls)).
    { induction xs as [|[j gs] xs IH]; intros acc Hs; [cbn; unfold ret; eauto|].
      cbn [for_each]. unfold bind. unfold Nac.calculate_mos_point at 1.
      destruct (Nac.search_data_in_hdf5 a f5 (j + Nac.enumerate_from a)) as [paths|] eqn:E.
      - unfold ret. apply IH. intros j0 gs0 H0. apply (Hs j0 gs0). now right.
      - exfalso. apply (Hs j gs); [now left|exact E]. }
    destruct (Hloop (enumerate (Nac.all_geometries a)) (Nac.mkLocals [] None))
      as [acc' ->]; [|eauto].
    intros j gs Hin. apply Hall. rewrite <- nac_points_of_enumerate.
    apply in_map_iff. now exists (j, gs).
Qed.

Lemma nac_calculate_mos_without_restart_points_witness :
  Nac.calculate_mos Inputs.nac_args_of_ETR Inputs.orbitals_0_only []
  = (inl TypeError, []).
Proof.
  destruct (nac_calculate_mos_without_restart_points Inputs.nac_args_of_ETR
              Inputs.orbitals_0_only [] eq_refl) as [H _].
  - simpl. lia.
  - apply H. exists 1. split; [right; now left|reflexivity].
Defined.

(** ** The chain of guesses *)

Lemma chain_static c c' points prev es :
  static c' = static c -> chain c points prev es -> chain c' points prev es.
Proof.
  intros H. apply static_fields in H.
  destruct H as (_ & _ & _ & _ & _ & _ & _ & _ & _ & Hm & Hg).
  revert prev. induction es as [|[d p] es IH]; intros prev; [easy|].
  cbn [chain chained]. rewrite Hm, Hg. intros [H1 H2]. split; [exact H1|now apply IH].
Qed.

Lemma calculate_mos_point_chained arr acc j gs w acc' w' points :
  calc_new_wf_guess_on_points (config w) = Some points ->
  calculate_mos_point arr acc (j, gs) w = (inr acc', w') ->
  (energies_list acc' = energies_list acc /\
   current_guess_job acc' = current_guess_job acc) \/
  (exists e,
      energies_list acc' = energies_list acc ++ [e] /\
      chained (config w) points (current_guess_job acc) e /\
      current_guess_job acc' = Some (handle_of e)).
Proof.
  intros Hp H.
  destruct (is_stored w (j + enumerate_from (config w))) eqn:E.
  - rewrite (calculate_mos_point_cached _ _ _ _ _ E) in H. injection H as <- <-. now left.
  - rewrite (calculate_mos_point_scheduled _ _ _ _ _ E) in H. cbv zeta in H.
    destruct (cell_step _ _ _) as [[e|[]] w2] eqn:E2; [discriminate|].
    apply cell_step_static in E2. destruct E2 as (Hc & _).
    apply static_fields in Hc.
    destruct Hc as (_ & _ & _ & _ & Hp2 & _ & _ & _ & _ & Hm & Hg).
    change (config (set_logged ?x w)) with (config w) in Hp2, Hm, Hg.
    destruct (getitem _ j) as [e|pd]; [discriminate|].
    rewrite (compute_orbitals_eq _ _ w2 points) in H by (rewrite Hp2; exact Hp).
    cbv zeta in H. right.
    set (d := dict_input_of (config w) j gs pd) in *.
    change (refresh_job_files d) with d in H.
    destruct (mem_int (k d) points || is_None (current_guess_job acc)) eqn:Epred;
      injection H as <- <-; cbn [energies_list current_guess_job].
    + eexists. split; [reflexivity|]. split; [|reflexivity].
      cbn [chained]. eexists _, _. split; [reflexivity|]. split; [exact Hm|].
      rewrite Epred. eexists. split; [reflexivity|exact Hg].
    + destruct (current_guess_job acc) as [h|] eqn:Eh;
        [|rewrite orb_true_r in Epred; discriminate].
      eexists. split; [reflexivity|]. split; [|reflexivity].
      cbn [chained]. eexists _, h. split; [reflexivity|]. split; [exact Hm|].
      now rewrite Epred.
Qed.

Lemma chain_app cfg points prev es es' :
  chain cfg points prev es ->
  chain cfg points (match last es with
                    | Some e => Some (handle_of e)
                    | None => prev
                    end) es' ->
  chain cfg points prev (es ++ es').
Proof.
  revert prev. induction es as [|e es IH]; intros prev H H'; [exact H'|].
  destruct H as [H1 H2]. split; [exact H1|]. apply IH; [exact H2|].
  destruct es as [|e2 es]; [exact H'|].
  change (last (e :: e2 :: es)) with (last (e2 :: es)) in H'.
  destruct (last (e2 :: es)) eqn:El; [exact H'|].
  apply last_None in El. discriminate.
Qed.

Lemma for_each_chain arr xs :
  forall acc w acc' w' points,
    calc_new_wf_guess_on_points (config w) = Some points ->
    for_each xs (calculate_mos_point arr) acc w = (inr acc', w') ->
    exists es,
      energies_list acc' = energies_list acc ++ es /\
      chain (config w) points (current_guess_job acc) es /\
      current_guess_job acc' = match last es with
                               | Some e => Some (handle_of e)
                               | None => current_guess_job acc
                               end.
Proof.
  induction xs as [|[j gs] xs IH]; intros acc w acc' w' points Hp H.
  - injection H as <- <-. exists []. rewrite app_nil_r. repeat split.
  - cbn [for_each] in H. apply bind_inv in H. destruct H as (acc1 & w1 & H1 & H).
    pose proof (calculate_mos_point_static _ _ _ _ _ _ H1) as (Hc & _).
    pose proof (static_fields _ _ Hc) as (_ & _ & _ & _ & Hp1 & _).
    apply (IH _ _ _ _ points) in H; [|now rewrite Hp1].
    destruct H as (es & He & Hchain & Hg).
    apply (chain_static _ _ _ _ _ (eq_sym Hc)) in Hchain.
    destruct (calculate_mos_point_chained _ _ _ _ _ _ _ _ Hp H1)
      as [[He1 Hg1]|(e & He1 & Hch1 & Hg1)].
    + exists es. rewrite He, He1, Hg, Hg1. rewrite Hg1 in Hchain. auto.
    + exists (e :: es). rewrite He, He1, <- app_assoc. split; [reflexivity|].
      rewrite Hg1 in Hchain, Hg. split; [split; assumption|].
      rewrite Hg. destruct es as [|e2 es']; [reflexivity|].
      change (last (e :: e2 :: es')) with (last (e2 :: es')).
      destruct (last (e2 :: es')) eqn:El; [reflexivity|].
      apply last_None in El. discriminate.
Qed.

(** X12.  The entries of [energies] form a chain of guesses that passes
    over the stored points.  In a run of [calculate_mos] with the list
    [points] of restart points, the job of each entry is a checked job with
    the main settings, and its guess is: the promise of the entry before it,
    when the point is not in [points]; a job with the guess settings, whose
    own guess is the promise of the entry before it, when the point is in
    [points]; and for the first entry always a job with the guess settings
    and no guess.  Points that are stored make no entry and leave the guess
    where it was. *)
Theorem calculate_mos_chains_the_guesses
    (read : Reader)
    (w w' : World) (points : list Z)
    (orbitals : list OrbitalItem) (energies : list EnergyItem) :
  calc_new_wf_guess_on_points (config w) = Some points ->
  calculate_mos read w = (inr (orbitals, energies), w') ->
  chain (config w) points None energies.
Proof.
  intros Hp H. apply calculate_mos_inv in H.
  destruct H as (arr & acc & _ & Hloop & -> & ->).
  apply (for_each_chain _ _ _ _ _ _ points Hp) in Hloop.
  destruct Hloop as (es & -> & Hchain & _). exact Hchain.
Qed.

Lemma calculate_mos_chains_the_guesses_witness :
  let cfg := mkDictConfig ["geometry 0"; "geometry 1"; "geometry 2"]%string "proj" "cp2k"
               "quantum.hdf5" ["/p0"; "/p1"; "/p2"]%string (Some [7]) (-1)
               true false Inputs.general in
  let w := Inputs.world_with cfg Inputs.orbitals_0_only [] in
  is_stored w 0 = true /\
  exists orbitals energies,
    fst (calculate_mos Inputs.read_cells w) = inr (orbitals, energies) /\
    map point_of_energy energies = [-1; 1] /\
    chain cfg [7] None energies.
Proof.
  intros cfg w. split; [reflexivity|].
  destruct (calculate_mos Inputs.read_cells w) as [r w'] eqn:E.
  assert (Hr : exists a b, r = inr (a, b) /\ map point_of_energy b = [-1; 1]).
  { apply (f_equal fst) in E. cbn [fst] in E. subst r.
    eexists _, _. split; vm_compute; reflexivity. }
  destruct Hr as (orbitals & energies & -> & Hk).
  pose proof (calculate_mos_chains_the_guesses Inputs.read_cells w w' [7] orbitals
                energies eq_refl E) as H.
  exists orbitals, energies. split; [reflexivity|]. split; [exact Hk|exact H].
Defined.

Lemma nac_for_each_chain a f5 xs :
  forall acc calls acc' calls' points,
    Nac.calc_new_wf_guess_on_points a = Some points ->
    for_each xs (Nac.calculate_mos_point a f5) acc calls = (inr acc', calls') ->
    exists items,
      Nac.path_to_orbitals acc' = Nac.path_to_orbitals acc ++ items /\
      nac_chain points (Nac.current_guess_job acc) items.
Proof.
  induction xs as [|[j gs] xs IH]; intros acc calls acc' calls' points Hp H.
  - injection H as <- <-. exists []. rewrite app_nil_r. split; [reflexivity|exact I].
  - cbn [for_each] in H. apply bind_inv in H. destruct H as (acc1 & calls1 & H1 & H).
    apply (IH _ _ _ _ points Hp) in H. destruct H as (items & Ho & Hchain).
    destruct (Nac.search_data_in_hdf5 a f5 (j + Nac.enumerate_from a)) as [paths|] eqn:E.
    + unfold Nac.calculate_mos_point in H1. rewrite E in H1. injection H1 as <- <-.
      cbn [Nac.path_to_orbitals Nac.current_guess_job] in *.
      exists (Nac.node_paths paths :: items). rewrite Ho, <- app_assoc.
      split; [reflexivity|exact Hchain].
    + rewrite (nac_calculate_mos_point_eq _ _ _ _ _ _ E) in H1.
      destruct (getitem _ j) as [e|pd]; [discriminate|].
      rewrite Hp in H1. destruct (String.eqb _ _); [|discriminate].
      cbv zeta in H1. injection H1 as <- <-.
      cbn [Nac.path_to_orbitals Nac.current_guess_job] in *.
      eexists (_ :: items). rewrite Ho, <- app_assoc. split; [reflexivity|].
      split; [|exact Hchain].
      unfold nac_chained.
      destruct (Nac.mem_int (j + Nac.enumerate_from a) points) eqn:Em;
        cbn [Nac.k_of]; rewrite Em; [|reflexivity].
      eexists. repeat split.
Qed.

(** X13.  The jobs [Nac.calculate_mos] prepares form a chain of restarts
    that passes over the stored points.  With the list [points] of restart
    points, the job of a point that is not stored restarts from the job of
    the last point before it that was not stored; at a point of [points] a
    job that does not store its result is put in between.  The job of the
    first point that is not stored restarts from nothing, and, unlike in the
    version of [nanoqm], has no job before it unless the point is in
    [points]. *)
Theorem nac_calculate_mos_chains_the_restarts
    (a : Nac.Args) (f5 : gmap string Data) (calls calls' : list Nac.Promise)
    (points : list Z) (items : list Nac.Item) :
  Nac.calc_new_wf_guess_on_points a = Some points ->
  Nac.calculate_mos a f5 calls = (inr items, calls') ->
  nac_chain points None items.
Proof.
  intros Hp H. unfold Nac.calculate_mos in H. apply bind_inv in H.
  destruct H as (acc & calls1 & Hloop & H). injection H as <- <-.
  apply (nac_for_each_chain _ _ _ _ _ _ _ points Hp) in Hloop.
  destruct Hloop as (items & -> & Hchain). exact Hchain.
Qed.

Lemma nac_calculate_mos_chains_the_restarts_witness :
  exists paths main calls',
    Nac.calculate_mos Inputs.nac_args Inputs.orbitals_0_only [] 
    = (inr [Nac.node_paths paths; Nac.orbitals_of main], calls') /\
    Nac.k_of main = 1 /\
    Nac.wfn_restart_job_of main = None /\
    calls' = [main].
Proof.
  destruct (Nac.calculate_mos Inputs.nac_args Inputs.orbitals_0_only []) as [r calls'] eqn:E.
  assert (Hr : exists paths main, r = inr [Nac.node_paths paths; Nac.orbitals_of main] /\
                 Nac.k_of main = 1 /\ calls' = [main]).
  { apply (f_equal (fun x => (fst x, snd x))) in E. cbn [fst snd] in E.
    injection E as <- <-. eexists _, _. repeat split; vm_compute; reflexivity. }
  destruct Hr as (paths & main & -> & Hk & ->).
  pose proof (nac_calculate_mos_chains_the_restarts Inputs.nac_args
                Inputs.orbitals_0_only [] [main] [0] _ eq_refl E) as H.
  cbn [nac_chain] in H. destruct H as [H _]. unfold nac_chained in H.
  rewrite Hk in H. cbn in H.
  exists paths, main, [main]. auto.
Defined.

(** ** More on the folders of the points *)

Lemma range_empty lo hi : hi <= lo -> range lo hi = [].
Proof. intros H. unfold range. now replace (Z.to_nat (hi - lo)) with 0%nat by lia. Qed.

(** X14.  Asked for no point, or for a negative number of points, both
    versions of [create_point_folder] return the empty list and leave the
    disk as it was, whatever the working directory is: the directory is not
    created, and it is not an error if it cannot be. *)
Theorem create_point_folder_of_no_point
    (work_dir : string) (n enumerate_from : Z) (fs : os.FS) :
  n <= 0 ->
  Nanoqm.create_point_folder work_dir n enumerate_from fs = (inr [], fs) /\
  Nac.create_point_folder work_dir n enumerate_from fs = (inr [], fs).
Proof.
  intros H. unfold Nanoqm.create_point_folder, Nac.create_point_folder.
  rewrite range_empty by lia. split; reflexivity.
Qed.

Lemma create_point_folder_of_no_point_witness :
  Nanoqm.create_point_folder "/scratch/point_0/old.dat" (-3) 0 Inputs.disk_with_old_data
  = (inr [], Inputs.disk_with_old_data) /\
  Nac.create_point_folder "/scratch/point_0/old.dat" (-3) 0 Inputs.disk_with_old_data
  = (inr [], Inputs.disk_with_old_data).
Proof.
  apply (create_point_folder_of_no_point "/scratch/point_0/old.dat" (-3) 0
           Inputs.disk_with_old_data).
  lia.
Defined.

Lemma nac_folders_loop_exist work_dir ks :
  forall folders fs,
    can_hold_folders fs work_dir ->
    exists fs',
      for_each ks (nac_folder_step work_dir) folders fs
      = (inr (folders ++ map (fun k => join work_dir [point_name k]) ks), fs') /\
      can_hold_folders fs' work_dir /\
      (forall r n, os.stat fs r = Some n -> os.stat fs' r = Some n) /\
      (forall k, In k ks -> os.missing fs' (point_path work_dir k) = false).
Proof.
  induction ks as [|k ks IH]; intros folders fs Hhold.
  - exists fs. cbn [for_each map]. rewrite app_nil_r. repeat split; easy.
  - cbn [for_each]. unfold bind. rewrite nac_folder_step_eq by exact Hhold.
    set (q := point_path work_dir k).
    set (fs2 := if os.missing fs q then created fs q else fs).
    assert (Hkeep : forall r n, os.stat fs r = Some n -> os.stat fs2 r = Some n).
    { intros r n Hr. unfold fs2. destruct (os.missing fs q); [|exact Hr].
      now apply stat_created_old. }
    assert (Hq : exists n, os.stat fs2 q = Some n).
    { unfold fs2. destruct (os.missing fs q) eqn:Em.
      - exists os.Dir. apply stat_created_self; [apply point_path_not_root|].
        now apply missing_true.
      - unfold os.missing in Em. destruct (os.stat fs q); [eauto|discriminate]. }
    destruct (IH (folders ++ [join work_dir [point_name k]]) fs2)
      as (fs' & Hrun & Hhold' & Hkeep' & Hex).
    + intros a Ha. unfold fs2. destruct (os.missing fs q); [|now apply Hhold].
      rewrite is_file_created. now apply Hhold.
    + exists fs'. split; [|split; [exact Hhold'|split]].
      * rewrite Hrun. now rewrite <- app_assoc.
      * intros r n Hr. apply Hkeep', Hkeep, Hr.
      * intros k' [<-|Hin]; [|now apply Hex].
        destruct Hq as [n Hn]. apply Hkeep' in Hn. fold q.
        unfold os.missing. now rewrite Hn.
Qed.




(** X16.  When the path of one of the point folders is a regular file, the
    version of [nanoqm] of [create_point_folder] raises
    [NotADirectoryError]: the path exists, so it is handed to
    [shutil.rmtree].  The version of [nac] only asks whether the path
    exists: it returns the path of the file among the folders, and the file
    is still a regular file afterwards. *)
Theorem create_point_folder_on_a_regular_file
    (work_dir : string) (n enumerate_from k0 : Z) (fs : os.FS) :
  can_hold_folders fs work_dir ->
  parents_exist fs ->
  In k0 (range enumerate_from (n + enumerate_from)) ->
  os.is_file fs (point_path work_dir k0) = true ->
  fst (Nanoqm.create_point_folder work_dir n enumerate_from fs) = inl NotADirectoryError /\
  exists fs',
    Nac.create_point_folder work_dir n enumerate_from fs
    = (inr (point_folders work_dir n enumerate_from), fs') /\
    In (join work_dir [point_name k0]) (point_folders work_dir n enumerate_from) /\
    os.is_file fs' (os.resolve (join work_dir [point_name k0])) = true.
Proof.
  intros Hhold Hparents Hin Hfile. split.
  - apply (nanoqm_folders_loop_file work_dir _ (range_NoDup _ _) [] fs Hhold).
    + intros k _ Hm r Hu.
      exact (no_orphans fs _ r Hparents (point_path_not_root _ _) Hm Hu).
    + eauto.
  - destruct (nac_folders_loop_exist work_dir (range enumerate_from (n + enumerate_from))
                [] fs Hhold) as (fs' & Hrun & _ & Hkeep & _).
    exists fs'. split; [exact Hrun|]. split.
    + unfold point_folders. apply in_map_iff. eauto.
    + rewrite resolve_point_folder. unfold os.is_file in *.
      destruct (os.stat fs (point_path work_dir k0)) as [[c|]|] eqn:E; try discriminate.
      now rewrite (Hkeep _ _ E).
Qed.

Lemma create_point_folder_on_a_regular_file_witness :
  let fs := Inputs.disk_with_file_in_the_way in
  os.stat fs ["scratch"; "point_0"]%string = Some (os.File "not a folder") /\
  Nanoqm.create_point_folder "/scratch" 2 0 fs = (inl NotADirectoryError, fs) /\
  exists fs',
    Nac.create_point_folder "/scratch" 2 0 fs
    = (inr ["/scratch/point_0"; "/scratch/point_1"]%string, fs') /\
    os.is_file fs' ["scratch"; "point_0"]%string = true.
Proof.
  intros fs. split; [reflexivity|].
  destruct (create_point_folder_on_a_regular_file "/scratch" 2 0 0 fs)
    as (Hnanoqm & fs' & Hnac & _ & Hf).
  - intros a [<-|[]]. reflexivity.
  - apply parents_exist_checked. reflexivity.
  - now left.
  - reflexivity.
  - split; [|exists fs'; split; [exact Hnac|exact Hf]].
    destruct (Nanoqm.create_point_folder "/scratch" 2 0 fs) as [r fs1] eqn:E.
    cbn [fst] in Hnanoqm. subst r. f_equal.
    apply (f_equal snd) in E. cbn [snd] in E. subst fs1. reflexivity.
Defined.

(** ** The files of a point *)

Lemma string_of_uint_has_no_dot d : has_dot (NilEmpty.string_of_uint d) = false.
Proof. induction d; simpl; auto. Qed.

Lemma str_of_int_has_no_dot z : has_dot (str_of_int z) = false.
Proof.
  unfold str_of_int.
  destruct (Z.to_int z) as [d|d]; simpl; destruct d; simpl;
    auto using string_of_uint_has_no_dot.
Qed.

(** Two strings without a dot, each followed by a dot and an extension, are
    the same only when both parts are. *)
Lemma dot_inj a b x y :
  has_dot a = false -> has_dot b = false ->
  (a +:+ String "." x = b +:+ String "." y)%string -> a = b /\ x = y.
Proof.
  revert b. induction a as [|c a IH]; intros [|c' b] Ha Hb H.
  - rewrite !append_nil_l in H. injection H as <-. auto.
  - rewrite append_nil_l, append_cons in H. injection H as <- _.
    simpl in Hb. discriminate.
  - rewrite append_nil_l, append_cons in H. injection H as -> _.
    simpl in Ha. discriminate.
  - rewrite !append_cons in H. injection H as <- H.
    simpl in Ha, Hb. apply orb_false_elim in Ha, Hb.
    destruct (IH b (proj2 Ha) (proj2 Hb) H) as [-> ->]. auto.
Qed.

Lemma has_sep_app a b : has_sep (a +:+ b) = has_sep a || has_sep b.
Proof.
  induction a as [|c a IH]; [reflexivity|].
  rewrite append_cons. cbn [has_sep]. now rewrite IH, orb_assoc.
Qed.

Lemma job_file_names_are_names i name :
  In name (job_file_names i) -> has_sep name = false /\ os.is_name name = true.
Proof.
  unfold job_file_names. intros [<-|[<-|[<-|[<-|[]]]]];
    (split; [rewrite !has_sep_app, str_of_int_has_no_sep; reflexivity|
             rewrite ?append_cons; reflexivity]).
Qed.

Lemma job_file_names_inj i i' a b name :
  nth_error (job_file_names i) a = Some name ->
  nth_error (job_file_names i') b = Some name ->
  a = b /\ i = i'.
Proof.
  pose proof (str_of_int_has_no_dot i) as Hi.
  pose proof (str_of_int_has_no_dot i') as Hi'.
  unfold job_file_names.
  destruct a as [|[|[|[|a]]]]; cbn [nth_error]; try (destruct a; discriminate);
    intros [= <-];
    destruct b as [|[|[|[|b]]]]; cbn [nth_error]; try (destruct b; discriminate);
    intros [= H];
    apply dot_inj in H; try assumption;
    destruct H as [H1 H2]; try discriminate;
    apply str_of_int_inj in H1; auto.
Qed.

Lemma create_file_names_list work_dir i :
  job_file_list (create_file_names work_dir i)
  = map (fun name => join work_dir [name]) (job_file_names i) /\
  job_file_list (create_file_names work_dir i)
  = [Nac.get_xyz (Nac.create_file_names work_dir i);
     Nac.get_inp (Nac.create_file_names work_dir i);
     Nac.get_out (Nac.create_file_names work_dir i);
     Nac.get_MO (Nac.create_file_names work_dir i)].
Proof. split; reflexivity. Qed.

(** X17.  The four files [create_file_names] names for a point lie directly
    in the folder it is given, and no two of them are the same file; the
    files of two different points are different files, even in the same
    folder.  Both versions of [create_file_names] give the same four
    paths. *)
Theorem create_file_names_are_distinct_files
    (work_dir : string) (i i' : Z) (a b : nat) (p p' : string) :
  nth_error (job_file_list (create_file_names work_dir i)) a = Some p ->
  nth_error (job_file_list (create_file_names work_dir i')) b = Some p' ->
  (exists name, has_sep name = false /\ os.resolve p = os.resolve work_dir ++ [name]) /\
  (os.resolve p = os.resolve p' -> a = b /\ i = i') /\
  nth_error [Nac.get_xyz (Nac.create_file_names work_dir i);
             Nac.get_inp (Nac.create_file_names work_dir i);
             Nac.get_out (Nac.create_file_names work_dir i);
             Nac.get_MO (Nac.create_file_names work_dir i)] a = Some p.
Proof.
  destruct (create_file_names_list work_dir i) as [Hl Hn].
  destruct (create_file_names_list work_dir i') as [Hl' _].
  rewrite <- Hn. intros Hp Hp'. split; [|split; [|exact Hp]].
  - rewrite Hl, nth_error_map in Hp.
    destruct (nth_error (job_file_names i) a) as [name|] eqn:E; [|discriminate].
    injection Hp as <-. apply nth_error_In in E.
    destruct (job_file_names_are_names _ _ E) as [Hs Hname].
    exists name. split; [exact Hs|now apply resolve_join].
  - rewrite Hl, nth_error_map in Hp. rewrite Hl', nth_error_map in Hp'.
    destruct (nth_error (job_file_names i) a) as [name|] eqn:E; [|discriminate].
    destruct (nth_error (job_file_names i') b) as [name'|] eqn:E'; [|discriminate].
    injection Hp as <-. injection Hp' as <-.
    destruct (job_file_names_are_names _ _ (nth_error_In _ _ E)) as [Hs Hname].
    destruct (job_file_names_are_names _ _ (nth_error_In _ _ E')) as [Hs' Hname'].
    rewrite !resolve_join by assumption. intros H. apply app_inv_head in H.
    injection H as <-. exact (job_file_names_inj _ _ _ _ _ E E').
Qed.

Lemma create_file_names_are_distinct_files_witness :
  os.resolve (get_inp (create_file_names "/scratch/point_3/" 3))
  = ["scratch"; "point_3"; "point_3.inp"]%string /\
  os.resolve (get_inp (create_file_names "/scratch/point_3/" 3))
  <> os.resolve (get_out (create_file_names "/scratch/point_3/" 13)).
Proof.
  destruct (create_file_names_are_distinct_files "/scratch/point_3/" 3 13 1 2 _ _
              eq_refl eq_refl) as (_ & H & _).
  split; [reflexivity|]. intros Heq. destruct (H Heq) as [Hab _]. discriminate.
Defined.

(** ** Geometries read from a file *)

Lemma getitem_0 {X} (xs : list X) :
  getitem xs 0 = match xs with
                 | [] => inl IndexError
                 | x :: _ => inr x
                 end.
Proof. now destruct xs. Qed.

Lemma concat_no_sep_cons x l :
  String.concat "" (x :: l) = (x +:+ String.concat "" l)%string.
Proof.
  destruct l as [|y l]; cbn [String.concat].
  - induction x as [|c x IH]; [reflexivity|].
    change (String c x = String c (x +:+ "")). now rewrite <- IH.
  - reflexivity.
Qed.

Lemma concat_no_sep_app l l' :
  String.concat "" (l ++ l') = (String.concat "" l +:+ String.concat "" l')%string.
Proof.
  induction l as [|x l IH]; [reflexivity|].
  change ((x :: l) ++ l') with (x :: (l ++ l')).
  rewrite !concat_no_sep_cons, IH.
  induction x as [|c x IHx]; [reflexivity|].
  change (String c (x +:+ (String.concat "" l +:+ String.concat "" l'))
          = String c ((x +:+ String.concat "" l) +:+ String.concat "" l')).
  now rewrite IHx.
Qed.

(** The lines of a text, put together again, are the text. *)
Lemma lines_concat s : String.concat "" (builtins.lines s) = s.
Proof.
  induction s as [|c s IH]; [reflexivity|].
  cbn [builtins.lines].
  destruct (Ascii.eqb c builtins.LF).
  - rewrite concat_no_sep_cons, IH. reflexivity.
  - destruct (builtins.lines s) as [|l ls].
    + cbn [String.concat] in *. now subst s.
    + rewrite concat_no_sep_cons in *. rewrite <- IH. reflexivity.
Qed.

Lemma firstn_nil_inv {X} n (xs : list X) : (0 < n)%nat -> firstn n xs = [] -> xs = [].
Proof. destruct n; [lia|]. now destruct xs. Qed.

(** The [i]-th chunk is the [i]-th run of [n] elements, the last run as long
    as what is left. *)
Lemma take_chunks_nth {X} fuel n (xs : list X) i :
  (0 < n)%nat -> (length xs < fuel)%nat ->
  nth_error (more_itertools.take_chunks fuel n xs) i
  = if (i * n <? length xs)%nat then Some (firstn n (skipn (i * n) xs)) else None.
Proof.
  intros Hn. revert xs i. induction fuel as [|fuel IH]; intros xs i Hlen; [lia|].
  cbn [more_itertools.take_chunks].
  destruct (firstn n xs) as [|y ys] eqn:E.
  - apply (firstn_nil_inv _ _ Hn) in E. subst xs.
    destruct (Nat.ltb_spec (i * n) (length (@nil X))) as [H|_]; [simpl in H; lia|].
    now destruct i.
  - assert (Hne : xs <> []) by (intros ->; now rewrite firstn_nil in E).
    assert (Hpos : (0 < length xs)%nat) by (destruct xs; [easy|simpl; lia]).
    destruct i as [|i].
    + cbn [nth_error Nat.mul skipn].
      destruct (Nat.ltb_spec 0 (length xs)) as [_|H]; [|lia].
      change (skipn 0 xs) with xs. now rewrite E.
    + cbn [nth_error]. rewrite IH by (rewrite length_skipn; lia).
      rewrite length_skipn, skipn_skipn.
      replace (S i * n)%nat with (i * n + n)%nat by lia.
      destruct (Nat.ltb_spec (i * n) (length xs - n)), (Nat.ltb_spec (i * n + n) (length xs));
        try lia; reflexivity.
Qed.

Lemma take_chunks_length {X} fuel n (xs : list X) i :
  (0 < n)%nat -> (length xs < fuel)%nat ->
  (i < length (more_itertools.take_chunks fuel n xs))%nat <-> (i * n < length xs)%nat.
Proof.
  intros Hn Hlen. rewrite <- nth_error_Some, (take_chunks_nth _ _ _ _ Hn Hlen).
  destruct (Nat.ltb_spec (i * n) (length xs)); split; intros; try easy; lia.
Qed.

(** The chunks, put together again, are the list. *)
Lemma take_chunks_concat {X} fuel n (xs : list X) :
  (0 < n)%nat -> (length xs < fuel)%nat ->
  List.concat (more_itertools.take_chunks fuel n xs) = xs.
Proof.
  intros Hn. revert xs. induction fuel as [|fuel IH]; intros xs Hlen; [lia|].
  cbn [more_itertools.take_chunks].
  destruct (firstn n xs) as [|y ys] eqn:E.
  - apply (firstn_nil_inv _ _ Hn) in E. now subst xs.
  - assert (Hpos : (0 < length xs)%nat).
    { destruct xs; [now rewrite firstn_nil in E|simpl; lia]. }
    cbn [List.concat]. rewrite IH by (rewrite length_skipn; lia).
    rewrite <- E. apply firstn_skipn.
Qed.

Lemma take_chunks_zero {X} fuel (xs : list X) : more_itertools.take_chunks fuel 0 xs = [].
Proof. now destruct fuel. Qed.

Lemma concat_map_concat (ls : list (list string)) :
  String.concat "" (map (String.concat "") ls) = String.concat "" (List.concat ls).
Proof.
  induction ls as [|l ls IH]; [reflexivity|].
  cbn [map List.concat]. now rewrite concat_no_sep_cons, concat_no_sep_app, IH.
Qed.

(** What [split_file_geometries] does with a file it can open. *)
Lemma split_file_geometries_eq pathXYZ fs content :
  existsb (os.is_file fs) (os.ancestors (os.resolve pathXYZ)) = false ->
  os.stat fs (os.resolve pathXYZ) = Some (os.File content) ->
  split_file_geometries pathXYZ fs =
  let xss := builtins.lines (builtins.translate_newlines content) in
  match xss with
  | [] => (inl IndexError, fs)
  | line :: _ =>
      match builtins.str_split line with
      | [] => (inl IndexError, fs)
      | word :: _ =>
          match builtins.int_of_str word with
          | inl e => (inl e, fs)
          | inr numat =>
              if (numat + 2 <? 0) || (sys.maxsize <? numat + 2) then (inl ValueError, fs)
              else (inr (map (String.concat "")
                           (more_itertools.take_chunks (S (length xss))
                              (Z.to_nat (numat + 2)) xss)), fs)
          end
      end
  end.
Proof.
  intros Ha Hs. unfold split_file_geometries, builtins.open_readlines. mred.
  rewrite Ha, Hs. cbv zeta. rewrite getitem_0.
  destruct (builtins.lines _) as [|line xss]; [reflexivity|].
  rewrite getitem_0.
  destruct (builtins.str_split line) as [|word ws]; [reflexivity|].
  destruct (builtins.int_of_str word) as [e|numat]; [reflexivity|].
  unfold more_itertools.chunked.
  destruct ((numat + 2 <? 0) || (sys.maxsize <? numat + 2)); reflexivity.
Qed.

(** A file that cannot be opened: the exception of [open], the disk as it
    was. *)
Lemma split_file_geometries_inv pathXYZ fs gs fs' :
  split_file_geometries pathXYZ fs = (inr gs, fs') ->
  existsb (os.is_file fs) (os.ancestors (os.resolve pathXYZ)) = false /\
  exists content, os.stat fs (os.resolve pathXYZ) = Some (os.File content).
Proof.
  unfold split_file_geometries, builtins.open_readlines. mred.
  destruct (existsb _ _); [discriminate|].
  destruct (os.stat fs _) as [[content|]|]; try discriminate. eauto.
Qed.

Lemma lines_nil s : builtins.lines s = [] -> s = EmptyString.
Proof.
  destruct s as [|c s]; [reflexivity|]. cbn [builtins.lines].
  destruct (Ascii.eqb c builtins.LF); [discriminate|].
  destruct (builtins.lines s); discriminate.
Qed.

Lemma translate_newlines_nil s : builtins.translate_newlines s = EmptyString -> s = EmptyString.
Proof.
  destruct s as [|c s]; [reflexivity|]. cbn [builtins.translate_newlines].
  destruct (Ascii.eqb c builtins.CR); discriminate.
Qed.

(** X18.  When [split_file_geometries] returns, the disk is as it was, the
    first word of the first line of the file is a numeral [numat] with
    [0 <= numat + 2 <= sys.maxsize], and the geometries are the lines of the file taken
    [numat + 2] at a time, in order: geometry [i] is the concatenation of the
    lines [i * (numat + 2)] up to, and without, [(i + 1) * (numat + 2)], or up
    to the last line when the file ends before.  There is a geometry [i]
    exactly when [numat + 2] is positive and line [i * (numat + 2)] exists,
    so a last frame that is cut short is returned like the others. *)
Theorem split_file_geometries_frames
    (pathXYZ : string) (fs fs' : os.FS) (gs : list string) :
  split_file_geometries pathXYZ fs = (inr gs, fs') ->
  fs' = fs /\
  exists content line word numat,
    os.stat fs (os.resolve pathXYZ) = Some (os.File content) /\
    let xss := builtins.lines (builtins.translate_newlines content) in
    let n := Z.to_nat (numat + 2) in
    nth_error xss 0 = Some line /\
    nth_error (builtins.str_split line) 0 = Some word /\
    builtins.int_of_str word = inr numat /\
    0 <= numat + 2 <= sys.maxsize /\
    (forall i, (i < length gs)%nat <-> (0 < n)%nat /\ (i * n < length xss)%nat) /\
    (forall i, (i < length gs)%nat ->
       nth_error gs i = Some (String.concat "" (firstn n (skipn (i * n) xss)))).
Proof.
  intros H. destruct (split_file_geometries_inv _ _ _ _ H) as (Ha & content & Hs).
  rewrite (split_file_geometries_eq _ _ _ Ha Hs) in H. cbv zeta in H.
  destruct (builtins.lines _) as [|line xss] eqn:Ex; [discriminate|].
  destruct (builtins.str_split line) as [|word ws] eqn:Ew; [discriminate|].
  destruct (builtins.int_of_str word) as [e|numat] eqn:Ei; [discriminate|].
  destruct (Z.ltb_spec (numat + 2) 0) as [Hneg|Hpos]; [discriminate|].
  destruct (Z.ltb_spec sys.maxsize (numat + 2)) as [Hbig|Hmax]; [discriminate|].
  cbn [orb] in H.
  match type of H with
  | (inr ?x, _) = _ => assert (Hgs : gs = x /\ fs' = fs) by (split; congruence)
  end.
  clear H. destruct Hgs as [-> ->]. split; [reflexivity|].
  exists content, line, word, numat. split; [exact Hs|]. cbv zeta. rewrite Ex, Ew.
  split; [reflexivity|]. split; [reflexivity|]. split; [exact Ei|].
  split; [split; [exact Hpos|exact Hmax]|].
  destruct (Z.to_nat (numat + 2)) as [|m] eqn:En.
  - rewrite take_chunks_zero. cbn [map length].
    split; intros i; [split; [intros Hi|intros [Hi _]]; inversion Hi|intros Hi; inversion Hi].
  - set (n := S m). set (l := line :: xss).
    assert (H0 : (0 < n)%nat) by (unfold n; lia).
    assert (Hl : (length l < S (length l))%nat) by lia.
    rewrite length_map. split.
    + intros i. rewrite (take_chunks_length _ _ _ i H0 Hl). tauto.
    + intros i Hi. rewrite nth_error_map, (take_chunks_nth _ _ _ _ H0 Hl).
      apply (take_chunks_length _ _ _ _ H0 Hl) in Hi.
      destruct (Nat.ltb_spec (i * n) (length l)); [reflexivity|lia].
Qed.

Lemma split_file_geometries_frames_witness :
  exists gs,
    split_file_geometries "md/traj.xyz" Inputs.disk_with_trajectory
    = (inr gs, Inputs.disk_with_trajectory) /\
    length gs = 2%nat /\
    nth_error gs 1 = Some "2
frame 1
H 0.0 0.0 0.0
H 0.0 0.0 0.8
"%string.
Proof.
  destruct (split_file_geometries "md/traj.xyz" Inputs.disk_with_trajectory)
    as [r fs'] eqn:E.
  assert (Hr : exists gs, r = inr gs).
  { apply (f_equal fst) in E. simpl in E. subst r. vm_compute. eauto. }
  destruct Hr as [gs ->].
  destruct (split_file_geometries_frames _ _ _ _ E)
    as (-> & content & line & word & numat & Hs & H).
  cbv zeta in H. destruct H as (Hl & Hw & Hi & _ & Hlen & Hnth).
  injection Hs as <-.
  assert (Hn : numat = 2).
  { vm_compute in Hl. injection Hl as <-. vm_compute in Hw. injection Hw as <-.
    vm_compute in Hi. now injection Hi as <-. }
  subst numat.
  assert (H2 : length gs = 2%nat).
  { pose proof (proj2 (Hlen 1%nat)) as H1. pose proof (proj1 (Hlen 2%nat)) as H2.
    vm_compute in H1, H2.
    destruct (Nat.lt_ge_cases 2 (length gs)) as [Hlt|Hge]; [specialize (H2 Hlt); lia|].
    assert (1 < length gs)%nat; [apply H1; lia|lia]. }
  exists gs. split; [reflexivity|]. split; [exact H2|].
  rewrite (Hnth 1%nat) by lia. reflexivity.
Defined.

(** X19.  The geometries [split_file_geometries] returns, put together again,
    are the text of the file (its ends of line read as [\n]): no line is
    lost, added or moved.  The one exception is a file that announces -2
    atoms, for which nothing is returned. *)
Theorem split_file_geometries_keeps_the_text
    (pathXYZ : string) (fs fs' : os.FS) (gs : list string) :
  split_file_geometries pathXYZ fs = (inr gs, fs') ->
  gs <> [] ->
  exists content,
    os.stat fs (os.resolve pathXYZ) = Some (os.File content) /\
    String.concat "" gs = builtins.translate_newlines content.
Proof.
  intros H Hgs. destruct (split_file_geometries_inv _ _ _ _ H) as (Ha & content & Hs).
  rewrite (split_file_geometries_eq _ _ _ Ha Hs) in H. cbv zeta in H.
  exists content. split; [exact Hs|].
  rewrite <- (lines_concat (builtins.translate_newlines content)).
  destruct (builtins.lines _) as [|line xss]; [discriminate|].
  destruct (builtins.str_split line) as [|word ws]; [discriminate|].
  destruct (builtins.int_of_str word) as [e|numat]; [discriminate|].
  destruct (Z.ltb_spec (numat + 2) 0) as [Hneg|Hpos]; [discriminate|].
  destruct (Z.ltb_spec sys.maxsize (numat + 2)) as [Hbig|Hmax]; [discriminate|].
  cbn [orb] in H.
  match type of H with
  | (inr ?x, _) = _ => assert (Hx : gs = x) by congruence
  end.
  clear H. subst gs.
  destruct (Z.to_nat (numat + 2)) as [|m] eqn:En.
  - rewrite take_chunks_zero in Hgs. now contradict Hgs.
  - rewrite concat_map_concat, take_chunks_concat; [reflexivity|lia|lia].
Qed.

Lemma split_file_geometries_keeps_the_text_witness :
  exists gs,
    split_file_geometries "md/traj.xyz" Inputs.disk_with_trajectory
    = (inr gs, Inputs.disk_with_trajectory) /\
    gs <> [] /\
    String.concat "" gs = Inputs.trajectory.
Proof.
  destruct (split_file_geometries "md/traj.xyz" Inputs.disk_with_trajectory)
    as [r fs'] eqn:E.
  assert (Hr : exists g gs, r = inr (g :: gs) /\ fs' = Inputs.disk_with_trajectory).
  { apply (f_equal (fun x => (fst x, snd x))) in E. simpl in E.
    injection E as <- <-. vm_compute. eauto. }
  destruct Hr as (g & gs & -> & ->).
  destruct (split_file_geometries_keeps_the_text _ _ _ _ E) as (content & Hs & Hc);
    [discriminate|].
  injection Hs as <-.
  exists (g :: gs). split; [reflexivity|]. split; [discriminate|exact Hc].
Defined.



(** ** Questions asked at the terminal *)

Section AskQuestion.

Variable F : Type.
Variable float_of_str : string -> option F.

(** X21.  Asked for an integer without a default, [ask_question] goes on
    asking until an answer is an integer: for each answer that is none it
    writes the question and the complaint, and it returns the first answer
    that is an integer, leaving the later lines unread.  With a default, the
    default is returned at the first answer that is no integer, and nothing
    but the question is written. *)
Theorem ask_question_int_retries
    (q_str : string) (bad : list string) (good : string) (rest out : list string) (n : Z) :
  Forall (fun line => builtins.int_of_str line = inl ValueError) bad ->
  builtins.int_of_str good = inr n ->
  plot_coupling.ask_question float_of_str q_str (Some "int"%string) plot_coupling.VNone
    (plot_coupling.mkConsole (bad ++ good :: rest) out)
  = (inr (plot_coupling.VInt n),
     plot_coupling.mkConsole rest
       (out ++ flat_map (fun _ => [q_str; plot_coupling.print
                                             "This is not an integer? Please try again."])
                 bad
            ++ [q_str])) /\
  (forall default line,
      plot_coupling.is_VNone default = false ->
      builtins.int_of_str line = inl ValueError ->
      plot_coupling.ask_question float_of_str q_str (Some "int"%string) default
        (plot_coupling.mkConsole (line :: rest) out)
      = (inr default, plot_coupling.mkConsole rest (out ++ [q_str]))).
Proof.
  intros Hbad Hgood. unfold plot_coupling.ask_question.
  cbn [plot_coupling.stdin plot_coupling.stdout]. split.
  - revert out. induction Hbad as [|line bad Hline _ IH]; intros out.
    + cbn [app flat_map plot_coupling.ask_loop String.eqb Ascii.eqb Bool.eqb].
      now rewrite Hgood.
    + cbn [app flat_map plot_coupling.ask_loop String.eqb Ascii.eqb Bool.eqb
             plot_coupling.is_VNone].
      rewrite Hline, IH. now rewrite <- !app_assoc.
  - intros default line Hd Hline.
    cbn [plot_coupling.ask_loop String.eqb Ascii.eqb Bool.eqb].
    now rewrite Hline, Hd.
Qed.

Lemma ask_loop_float_value lines :
  forall out q_str default v c,
    plot_coupling.ask_loop float_of_str lines out q_str (Some "float"%string) default = (inr v, c) ->
    exists line x, In line lines /\ float_of_str line = Some x /\
                   v = plot_coupling.VFloat x.
Proof.
  induction lines as [|line lines IH]; intros out q_str default v c H; [discriminate|].
  cbn [plot_coupling.ask_loop String.eqb Ascii.eqb Bool.eqb] in H.
  destruct (float_of_str line) as [x|] eqn:E.
  - injection H as <- <-. exists line, x. split; [now left|auto].
  - destruct (plot_coupling.is_VNone default); [|discriminate].
    apply IH in H. destruct H as (line' & x & Hin & Hx & ->).
    exists line', x. split; [now right|auto].
Qed.

(** X22.  Asked for a float, [ask_question] never returns the default.
    Whatever it returns is the float of one of the answers; and with a
    default that is not [None], an answer that is no float ends the call
    with [NameError], because the handler assigns from the undefined name
    [defualt]. *)
Theorem ask_question_float_never_returns_the_default
    (q_str : string) (default : plot_coupling.Value F) (c : plot_coupling.Console) :
  (forall v c',
      plot_coupling.ask_question float_of_str q_str (Some "float"%string) default c = (inr v, c') ->
      exists line x, In line (plot_coupling.stdin c) /\ float_of_str line = Some x /\
                     v = plot_coupling.VFloat x) /\
  (forall line rest,
      plot_coupling.stdin c = line :: rest ->
      float_of_str line = None ->
      plot_coupling.is_VNone default = false ->
      plot_coupling.ask_question float_of_str q_str (Some "float"%string) default c
      = (inl plot_coupling.NameError,
         plot_coupling.mkConsole rest (plot_coupling.stdout c ++ [q_str]))).
Proof.
  unfold plot_coupling.ask_question. split.
  - intros v c'. apply ask_loop_float_value.
  - intros line rest -> Hline Hd.
    cbn [plot_coupling.ask_loop String.eqb Ascii.eqb Bool.eqb].
    now rewrite Hline, Hd.
Qed.

(** X23.  With a [special] that is none of [None], ['bool'], ['float'] and
    ['int'], [ask_question] never returns: it asks the question again for
    every line there is to read, whatever the line says, and ends with
    [EOFError] when there is none left. *)
Theorem ask_question_unknown_special_never_returns
    (q_str special : string) (default : plot_coupling.Value F) (c : plot_coupling.Console) :
  special <> "bool"%string -> special <> "float"%string -> special <> "int"%string ->
  plot_coupling.ask_question float_of_str q_str (Some special) default c
  = (inl plot_coupling.EOFError,
     plot_coupling.mkConsole []
       (plot_coupling.stdout c ++ repeat q_str (S (length (plot_coupling.stdin c))))).
Proof.
  intros Hb Hf Hi. apply String.eqb_neq in Hb, Hf, Hi.
  unfold plot_coupling.ask_question.
  generalize (plot_coupling.stdout c) as out.
  induction (plot_coupling.stdin c) as [|line lines IH]; intros out; [reflexivity|].
  cbn [plot_coupling.ask_loop]. rewrite Hb, Hf, Hi, IH.
  cbn [length repeat]. now rewrite <- app_assoc.
Qed.

End AskQuestion.

Lemma ask_question_int_retries_witness :
  plot_coupling.ask_question Inputs.float_of_integers "MO? " (Some "int"%string)
    plot_coupling.VNone
    (plot_coupling.mkConsole ["lumo"; "1.5"; " 101 "; "100"]%string [])
  = (inr (plot_coupling.VInt 101),
     plot_coupling.mkConsole ["100"%string]
       ["MO? "; plot_coupling.print "This is not an integer? Please try again.";
        "MO? "; plot_coupling.print "This is not an integer? Please try again.";
        "MO? "]%string).
Proof.
  destruct (ask_question_int_retries Z Inputs.float_of_integers "MO? "
              ["lumo"; "1.5"]%string " 101 " ["100"%string] [] 101) as [H _].
  - repeat constructor.
  - reflexivity.
  - exact H.
Defined.

Lemma ask_question_float_never_returns_the_default_witness :
  plot_coupling.ask_question Inputs.float_of_integers "dt? " (Some "float"%string)
    (plot_coupling.VInt 1)
    (plot_coupling.mkConsole ["one"; "2"]%string [])
  = (inl plot_coupling.NameError,
     plot_coupling.mkConsole ["2"%string] ["dt? "%string]).
Proof.
  destruct (ask_question_float_never_returns_the_default Z Inputs.float_of_integers
              "dt? " (plot_coupling.VInt 1)
              (plot_coupling.mkConsole ["one"; "2"]%string [])) as [_ H].
  exact (H "one"%string ["2"%string] eq_refl eq_refl eq_refl).
Defined.

Lemma ask_question_unknown_special_never_returns_witness :
  plot_coupling.ask_question Inputs.float_of_integers "MO? " (Some "integer"%string)
    (plot_coupling.VInt 101)
    (plot_coupling.mkConsole ["101"; "101"]%string [])
  = (inl plot_coupling.EOFError,
     plot_coupling.mkConsole [] ["MO? "; "MO? "; "MO? "]%string).
Proof.
  apply (ask_question_unknown_special_never_returns Z Inputs.float_of_integers
           "MO? " "integer" (plot_coupling.VInt 101)
           (plot_coupling.mkConsole ["101"; "101"]%string []));
    discriminate.
Defined.

(** ** The message of a failed check of the types *)

Lemma split_char_not_nil c s : test_mypy.split_char c s <> [].
Proof.
  destruct s as [|x s]; simpl; [discriminate|].
  destruct (Ascii.eqb x c); [discriminate|].
  destruct (test_mypy.split_char c s); discriminate.
Qed.

Lemma split_char_none c s : has_char c s = false -> test_mypy.split_char c s = [s].
Proof.
  induction s as [|x s IH]; simpl; [reflexivity|].
  intros H. apply orb_false_elim in H. destruct H as [Hx Hs].
  now rewrite Hx, (IH Hs).
Qed.

Lemma split_char_app c a b :
  test_mypy.split_char c (a +:+ String c b)
  = test_mypy.split_char c a ++ test_mypy.split_char c b.
Proof.
  induction a as [|x a IH].
  - rewrite append_nil_l. cbn [test_mypy.split_char]. now rewrite Ascii.eqb_refl.
  - rewrite append_cons. cbn [test_mypy.split_char].
    destruct (Ascii.eqb x c); [now rewrite IH|].
    rewrite IH. destruct (test_mypy.split_char c a) as [|w ws] eqn:Ea; [|reflexivity].
    now apply split_char_not_nil in Ea.
Qed.

(** The part before the last of the three parts of [rsplit(c, 2)]. *)
Lemma rsplit_2_middle c head line tail :
  has_char c line = false -> has_char c tail = false ->
  getitem (test_mypy.rsplit c 2 (head +:+ String c (line +:+ String c tail))) 1 = inr line.
Proof.
  intros Hl Ht. unfold test_mypy.rsplit.
  rewrite !split_char_app, (split_char_none _ _ Hl), (split_char_none _ _ Ht).
  cbv zeta. rewrite !length_app. cbn [length].
  destruct (test_mypy.split_char c head) as [|h hs] eqn:Eh;
    [now apply split_char_not_nil in Eh|].
  destruct hs as [|h2 hs]; [reflexivity|].
  cbn [length].
  replace (S (S (length hs)) + (1 + 1) <=? 3)%nat with false
    by (symmetry; apply Nat.leb_gt; lia).
  replace (S (S (length hs)) + (1 + 1) - 2)%nat with (length (h :: h2 :: hs))
    by (simpl; lia).
  change ((h :: h2 :: hs) ++ [line] ++ [tail]) with ((h :: h2 :: hs) ++ [line; tail]).
  rewrite skipn_app, skipn_all, Nat.sub_diag. reflexivity.
Qed.

Lemma rsplit_2_last c line tail :
  has_char c line = false -> has_char c tail = false ->
  getitem (test_mypy.rsplit c 2 (line +:+ String c tail)) 1 = inr tail.
Proof.
  intros Hl Ht. unfold test_mypy.rsplit.
  now rewrite split_char_app, (split_char_none _ _ Hl), (split_char_none _ _ Ht).
Qed.

Lemma rsplit_2_none c s :
  has_char c s = false -> getitem (test_mypy.rsplit c 2 s) 1 = inl IndexError.
Proof. intros Hs. unfold test_mypy.rsplit. now rewrite (split_char_none _ _ Hs). Qed.

(** X24.  With the action ['raise'], nothing on the standard error and a
    return code that is not 0, [test_mypy] runs the command once and raises
    an [AssertionError] whose message is the last line but one of the
    output: the text between the last two ends of line.  For an output of
    one line that ends with an end of line the message is therefore empty;
    for an output with one end of line it is what follows it; and for an
    output without an end of line the test raises [IndexError] instead. *)
Theorem test_mypy_raise_message
    (mypy : test_mypy.CompletedProcess) (s : test_mypy.Session) :
  test_mypy.stderr mypy = EmptyString ->
  test_mypy.returncode mypy <> 0 ->
  let s' := test_mypy.mkSession (S (test_mypy.commands_run s))
              (test_mypy.warnings_issued s) in
  let out := test_mypy.stdout mypy in
  (has_char builtins.LF out = false ->
   test_mypy.test_mypy mypy "raise" s = (inl (test_mypy.builtin IndexError), s')) /\
  (forall line tail,
      has_char builtins.LF line = false -> has_char builtins.LF tail = false ->
      out = (line +:+ newline +:+ tail)%string ->
      test_mypy.test_mypy mypy "raise" s = (inl (test_mypy.AssertionError tail), s')) /\
  (forall head line tail,
      has_char builtins.LF line = false -> has_char builtins.LF tail = false ->
      out = (head +:+ newline +:+ line +:+ newline +:+ tail)%string ->
      test_mypy.test_mypy mypy "raise" s = (inl (test_mypy.AssertionError line), s')).
Proof.
  intros Herr Hcode s' out. unfold test_mypy.test_mypy.
  cbn [test_mypy.ACTION existsb String.eqb Ascii.eqb Bool.eqb orb negb andb].
  rewrite Herr. cbn [is_empty negb].
  destruct (Z.eqb_spec (test_mypy.returncode mypy) 0) as [H0|_]; [contradiction|].
  fold out. fold s'. split; [|split].
  - intros Hn. now rewrite rsplit_2_none.
  - intros line tail Hl Ht ->. unfold newline. rewrite append_cons, append_nil_l.
    now rewrite rsplit_2_last.
  - intros head line tail Hl Ht ->. unfold newline.
    rewrite !append_cons, !append_nil_l. now rewrite rsplit_2_middle.
Qed.

Lemma test_mypy_raise_message_witness :
  let mypy := test_mypy.mkCompletedProcess 1
                "nanoqm/common.py:12: error: Incompatible types
Found 1 error in 1 file (checked 40 source files)
" "" in
  test_mypy.test_mypy mypy "raise" (test_mypy.mkSession 0 [])
  = (inl (test_mypy.AssertionError "Found 1 error in 1 file (checked 40 source files)"),
     test_mypy.mkSession 1 []) /\
  test_mypy.test_mypy (test_mypy.mkCompletedProcess 1 "mypy: not found" "") "raise"
    (test_mypy.mkSession 0 [])
  = (inl (test_mypy.builtin IndexError), test_mypy.mkSession 1 []).
Proof.
  intros mypy. split.
  - destruct (test_mypy_raise_message mypy (test_mypy.mkSession 0 []) eq_refl)
      as (_ & _ & H); [discriminate|].
    apply (H "nanoqm/common.py:12: error: Incompatible types"%string
             "Found 1 error in 1 file (checked 40 source files)"%string ""%string);
      reflexivity.
  - destruct (test_mypy_raise_message (test_mypy.mkCompletedProcess 1 "mypy: not found" "")
                (test_mypy.mkSession 0 []) eq_refl) as (H & _); [discriminate|].
    apply H. reflexivity.
Defined.

(** ** Checks on small inputs *)

Example join_node_path :
  join "proj" ["point_3"; "cp2k"; "mo"] = "proj/point_3/cp2k/mo"%string.
Proof. reflexivity. Qed.

Example join_restarts_at_absolute_component :
  join "proj" ["/tmp"; "mo"] = "/tmp/mo"%string.
Proof. reflexivity. Qed.

Example str_of_negative_int : str_of_int (-15) = "-15"%string.
Proof. reflexivity. Qed.

Example resolve_skips_empty_names :
  os.resolve "/scratch//x/./point_3/" = ["scratch"; "x"; "point_3"]%string.
Proof. reflexivity. Qed.

Example filter_of_store_MOs :
  fnmatch.filter ["a"; "mo_x.MOLog"; "moMOLog"; "mo_MOLog"; "mo_MOLo"]%string "mo_*MOLog"
  = ["mo_x.MOLog"; "mo_MOLog"]%string.
Proof. reflexivity. Qed.

Example filter_of_schedule_check :
  fnmatch.filter ["a"; "mo_x.MOLog"; "moMOLog"; "mo_MOLog"; "mo_MOLo"]%string "mo*MOLog"
  = ["mo_x.MOLog"; "moMOLog"; "mo_MOLog"]%string.
Proof. reflexivity. Qed.

Example calculate_mos_sets_the_cell_of_the_last_point :
  let cfg := mkDictConfig ["geometry 0"; "geometry 1"]%string "proj" "cp2k" "quantum.hdf5"
               ["/scratch/point_0"; "/scratch/point_1"]%string (Some []) 0 true false
               Inputs.general_with_cells in
  let w := Inputs.world_with cfg ∅ Inputs.disk_with_cells in
  cell_parameters
    (cp2k_settings_main
       (cp2k_general_settings (config (snd (calculate_mos Inputs.read_cells w)))))
  = Some [[11; 0; 0]; [0; 11; 0]; [0; 0; 11]]%Q.
Proof. reflexivity. Qed.

Example calculate_mos_without_the_file_of_cells :
  let cfg := mkDictConfig ["geometry 0"; "geometry 1"]%string "proj" "cp2k" "quantum.hdf5"
               ["/scratch/point_0"; "/scratch/point_1"]%string (Some []) 0 true false
               Inputs.general_with_cells in
  let w := Inputs.world_with cfg ∅ [] in
  calculate_mos Inputs.read_cells w = (inl FileNotFoundError, w).
Proof. reflexivity. Qed.

Example chunked_above_maxsize :
  more_itertools.chunked ["a"; "b"]%string (sys.maxsize + 1) = inl ValueError.
Proof. reflexivity. Qed.

Example range_of_three : range 3 6 = [3; 4; 5].
Proof. reflexivity. Qed.

Example getitem_of_empty_list : getitem (@nil string) 0 = inl IndexError.
Proof. reflexivity. Qed.

Example makedirs_creates_parents :
  os.makedirs "/a/b/c" []
  = (inr tt, [(["a"], os.Dir); (["a"; "b"], os.Dir); (["a"; "b"; "c"], os.Dir)]%string).
Proof. reflexivity. Qed.

Example rmtree_removes_what_is_below :
  shutil.rmtree "/scratch/point_0" Inputs.disk_with_old_data
  = (inr tt, [(["scratch"]%string, os.Dir)]).
Proof. reflexivity. Qed.

Example nanoqm_create_point_folder_clears :
  Nanoqm.create_point_folder "/scratch" 1 0 Inputs.disk_with_old_data
  = (inr ["/scratch/point_0"%string],
     [(["scratch"], os.Dir); (["scratch"; "point_0"], os.Dir)]%string).
Proof. reflexivity. Qed.
